(** * frequenz-ai-jsonld: the README extractor, the graph builder and the
    question retriever, embedded from [fetch.py] and [query.py].

    Conventions of the embedding.
    - A Python [str] is a list of characters; characters are the code points
      below 256, on which [str.lower], [str.split], [str.strip] and
      [str.splitlines] are closed and are written out in full below.
    - A Python [int] is a [Z].
    - A value loaded by [json.loads] (and the dictionary built by
      [build_jsonld]) is a [json] tree; a [dict] keeps its insertion order.
    - A Python exception is the [Raise] case of [result].

    Layout. The programs come first: [PyStr] and the Python values, [Query]
    (query.py), [Fetch] (fetch.py), [Markdown] (what holds of the trees
    the parser returns), [Json] (the two functions of the json module that
    the programs call), [Cli] (the two [main] functions) and [Github] (the
    requests fetch.py prepares). Their properties follow in
    [QueryFacts], [FetchFacts], [JsonFacts] and [CliFacts], and further
    ones in [StrFacts], [RetrieverFacts], [ExtractorFacts], [PipelineFacts]
    and [GithubFacts]. *)

From Stdlib Require Import List ZArith Ascii String Bool Lia Arith.
From Stdlib Require DecimalFacts DecimalPos.
Import ListNotations.

Set Warnings "-register-all".
Open Scope string_scope.
Open Scope list_scope.
Open Scope Z_scope.

(** ** Python strings *)

Module PyStr.

Definition str := list ascii.

Definition lit (s : string) : str := list_ascii_of_string s.

Arguments lit : simpl never.

Definition code (c : ascii) : Z := Z.of_nat (nat_of_ascii c).
Definition chr (n : Z) : ascii := ascii_of_nat (Z.to_nat n).

(** [c.isspace()]: TAB, LF, VT, FF, CR, FS, GS, RS, US, SPACE, NEL, NBSP. *)
Definition isspace (c : ascii) : bool :=
  let n := code c in
  ((9 <=? n) && (n <=? 13)) || ((28 <=? n) && (n <=? 32))
  || (n =? 133) || (n =? 160).

(** [c.lower()]: A-Z and the upper-case letters of U+00C0..U+00DE (the
    multiplication sign U+00D7 is not a letter) move up by 32. *)
Definition lower_char (c : ascii) : ascii :=
  let n := code c in
  if ((65 <=? n) && (n <=? 90))
     || ((192 <=? n) && (n <=? 222) && negb (n =? 215))
  then chr (n + 32) else c.

Definition lower (s : str) : str := map lower_char s.

(** [a == b] for two strings *)
Fixpoint eqb (a b : str) : bool :=
  match a, b with
  | [], [] => true
  | x :: a', y :: b' => Ascii.eqb x y && eqb a' b'
  | _, _ => false
  end.

(** [s.startswith(p)] *)
Fixpoint startswith (s p : str) {struct p} : bool :=
  match p, s with
  | [], _ => true
  | _ :: _, [] => false
  | a :: p', b :: s' => Ascii.eqb a b && startswith s' p'
  end.

(** [k in s] for two strings: [k] occurs in [s] as a substring. *)
Fixpoint contains (s k : str) : bool :=
  startswith s k ||
  match s with
  | [] => false
  | _ :: s' => contains s' k
  end.

(** [s.split()]: maximal runs of non-whitespace characters. [cur] is the
    run being read. *)
Fixpoint split_ws_from (cur s : str) : list str :=
  match s with
  | [] => match cur with [] => [] | _ => [cur] end
  | c :: s' =>
      if isspace c
      then match cur with
           | [] => split_ws_from [] s'
           | _ => cur :: split_ws_from [] s'
           end
      else split_ws_from (cur ++ [c]) s'
  end.

Definition split_ws (s : str) : list str := split_ws_from [] s.

Fixpoint lstrip (s : str) : str :=
  match s with
  | c :: s' => if isspace c then lstrip s' else s
  | [] => []
  end.

Definition rstrip (s : str) : str := rev (lstrip (rev s)).

(** [s.strip()] *)
Definition strip (s : str) : str := rstrip (lstrip s).

(** Line boundaries of [str.splitlines]: LF, VT, FF, CR, FS, GS, RS, NEL
    (and CR LF counted once). *)
Definition islinebreak (c : ascii) : bool :=
  let n := code c in
  ((10 <=? n) && (n <=? 13)) || ((28 <=? n) && (n <=? 30)) || (n =? 133).

(** [s.splitlines()]: no line is produced for the empty text after the last
    boundary. *)
Fixpoint splitlines_from (cur s : str) : list str :=
  match s with
  | [] => match cur with [] => [] | _ => [cur] end
  | c :: s' =>
      if islinebreak c
      then match s' with
           | d :: s'' =>
               if (code c =? 13) && (code d =? 10)
               then cur :: splitlines_from [] s''
               else cur :: splitlines_from [] s'
           | [] => [cur]
           end
      else splitlines_from (cur ++ [c]) s'
  end.

Definition splitlines (s : str) : list str := splitlines_from [] s.

(** [sep.join(parts)] *)
Fixpoint join (sep : str) (parts : list str) : str :=
  match parts with
  | [] => []
  | [p] => p
  | p :: rest => p ++ sep ++ join sep rest
  end.

(** [s.split(sep)[0]]: the text before the first occurrence of a non-empty
    separator, the whole text when there is none. *)
Fixpoint before_first (sep s : str) : str :=
  match s with
  | [] => []
  | c :: s' => if startswith s sep then [] else c :: before_first sep s'
  end.

End PyStr.

Import PyStr.
Coercion lit : string >-> str.

(** ** Python values and exceptions *)

(** [RecursionError] is what a parser that has used up its nesting budget
    raises; [Unmodelled] marks an input on which the embedding is silent: a
    number with a fraction or an exponent, [NaN], [Infinity], or a
    [\u] escape above U+00FF. *)
Inductive exn :=
| AttributeError
| TypeError
| JSONDecodeError
| RecursionError
| Unmodelled.

Inductive result (A : Type) : Type :=
| Ok (a : A)
| Raise (e : exn).

Arguments Ok {A} a.
Arguments Raise {A} e.

Definition bind {A B} (m : result A) (k : A -> result B) : result B :=
  match m with
  | Ok a => k a
  | Raise e => Raise e
  end.

Notation "x <- m ;; k" := (bind m (fun x => k))
  (at level 61, m at next level, right associativity).

(** The values [json.loads] produces (numbers with a fraction or an exponent
    are not covered) and [json.dump] accepts. A [dict] is the list of its
    items in insertion order. *)
Inductive json :=
| JNull
| JBool (b : bool)
| JNum (n : Z)
| JStr (s : str)
| JArr (items : list json)
| JObj (members : list (str * json)).

(** Truth value of a Python object, as tested by [if], [or] and [not]. *)
Definition truthy (v : json) : bool :=
  match v with
  | JNull => false
  | JBool b => b
  | JNum n => negb (n =? 0)
  | JStr s => match s with [] => false | _ => true end
  | JArr l => match l with [] => false | _ => true end
  | JObj m => match m with [] => false | _ => true end
  end.

(** [a or b] *)
Definition py_or (a b : json) : json := if truthy a then a else b.

Fixpoint lookup {A} (k : str) (m : list (str * A)) : option A :=
  match m with
  | [] => None
  | (k', v) :: m' => if eqb k k' then Some v else lookup k m'
  end.

(** [a == b]. [True == 1] and [False == 0] hold in Python; two dicts are
    equal when they have the same items, in any order. *)
Fixpoint py_eq (a b : json) {struct a} : bool :=
  match a, b with
  | JNull, JNull => true
  | JBool x, JBool y => Bool.eqb x y
  | JBool x, JNum n => n =? (if x then 1 else 0)
  | JNum n, JBool x => n =? (if x then 1 else 0)
  | JNum n, JNum m => n =? m
  | JStr s, JStr t => eqb s t
  | JArr l, JArr m =>
      (fix all2 (l : list json) (m : list json) {struct l} : bool :=
         match l, m with
         | [], [] => true
         | x :: l', y :: m' => py_eq x y && all2 l' m'
         | _, _ => false
         end) l m
  | JObj ms, JObj ns =>
      Nat.eqb (List.length ms) (List.length ns)
      && forallb (fun kv : str * json =>
                    let (k, v) := kv in
                    match lookup k ns with
                    | Some w => py_eq v w
                    | None => false
                    end) ms
  | _, _ => false
  end.

(** [d.get(k, default)]: only a dict has [get]. *)
Definition py_get (d : json) (k : str) (default : json) : result json :=
  match d with
  | JObj m => Ok (match lookup k m with Some v => v | None => default end)
  | _ => Raise AttributeError
  end.

(** The items a [for] loop (or [str.join]) draws from a value: the elements
    of a list, the keys of a dict, the characters of a string. *)
Definition py_iter (v : json) : result (list json) :=
  match v with
  | JArr l => Ok l
  | JObj m => Ok (map (fun kv => JStr (fst kv)) m)
  | JStr s => Ok (map (fun c => JStr [c]) s)
  | _ => Raise TypeError
  end.

(** [s in c] for a string [s]. *)
Definition py_in_str (s : str) (c : json) : result bool :=
  match c with
  | JArr l => Ok (existsb (py_eq (JStr s)) l)
  | JObj m => Ok (existsb (fun kv => eqb s (fst kv)) m)
  | JStr t => Ok (contains t s)
  | _ => Raise TypeError
  end.

(** [sep.join(v)]: every item must be a string. *)
Fixpoint strings_of (l : list json) : result (list str) :=
  match l with
  | [] => Ok []
  | JStr s :: l' => ss <- strings_of l' ;; Ok (s :: ss)
  | _ :: _ => Raise TypeError
  end.

Definition py_join (sep : str) (v : json) : result json :=
  items <- py_iter v ;;
  ss <- strings_of items ;;
  Ok (JStr (join sep ss)).

(** ** query.py: navigation of the loaded graph *)

Module Query.

(** [graph_nodes(doc)] *)
Definition graph_nodes (doc : json) : result json :=
  py_get doc "@graph" (JArr []).

(** The [for] loop of [project_node] over the nodes still to visit. *)
Fixpoint project_node_from (nodes : list json) : result json :=
  match nodes with
  | [] => Ok (JObj [])
  | n :: rest =>
      types <- py_get n "@type" (JArr []) ;;
      let types := match types with JStr _ => JArr [types] | _ => types end in
      found <- py_in_str "SoftwareApplication" types ;;
      if found then Ok n else project_node_from rest
  end.

Definition project_node (doc : json) : result json :=
  g <- graph_nodes doc ;;
  nodes <- py_iter g ;;
  project_node_from nodes.

(** The generator of [node_by_id], drawn until its first item. *)
Fixpoint node_by_id_from (nodes : list json) (node_id : json) : result json :=
  match nodes with
  | [] => Ok (JObj [])
  | n :: rest =>
      i <- py_get n "@id" JNull ;;
      if py_eq i node_id then Ok n else node_by_id_from rest node_id
  end.

Definition node_by_id (doc : json) (node_id : json) : result json :=
  g <- graph_nodes doc ;;
  nodes <- py_iter g ;;
  node_by_id_from nodes node_id.

Fixpoint install_node_from (doc : json) (pids : list json) : result json :=
  match pids with
  | [] => Ok (JObj [])
  | pid :: rest =>
      n <- node_by_id doc pid ;;
      t <- py_get n "@type" JNull ;;
      if py_eq t (JStr "HowTo") then Ok n else install_node_from doc rest
  end.

Definition install_node (doc : json) : result json :=
  proj <- project_node doc ;;
  parts <- py_get proj "hasPart" (JArr []) ;;
  pids <- py_iter parts ;;
  install_node_from doc pids.

(** [(n.get("name") or "").lower()] *)
Definition lowered_name (n : json) : result str :=
  name <- py_get n "name" JNull ;;
  match py_or name (JStr "") with
  | JStr s => Ok (lower s)
  | _ => Raise AttributeError
  end.

Fixpoint itemlist_by_name_from (nodes : list json) (keyword : str)
  : result json :=
  match nodes with
  | [] => Ok (JObj [])
  | n :: rest =>
      t <- py_get n "@type" JNull ;;
      if py_eq t (JStr "ItemList")
      then name <- lowered_name n ;;
           if contains name (lower keyword) then Ok n
           else itemlist_by_name_from rest keyword
      else itemlist_by_name_from rest keyword
  end.

Definition itemlist_by_name (doc : json) (keyword : str) : result json :=
  g <- graph_nodes doc ;;
  nodes <- py_iter g ;;
  itemlist_by_name_from nodes keyword.

Fixpoint example_nodes_from (doc : json) (pids : list json)
  : result (list json) :=
  match pids with
  | [] => Ok []
  | pid :: rest =>
      n <- node_by_id doc pid ;;
      t <- py_get n "@type" JNull ;;
      if py_eq t (JStr "CreativeWork")
      then n' <- node_by_id doc pid ;;
           more <- example_nodes_from doc rest ;;
           Ok (n' :: more)
      else example_nodes_from doc rest
  end.

Definition example_nodes (doc : json) : result (list json) :=
  proj <- project_node doc ;;
  parts <- py_get proj "hasPart" (JArr []) ;;
  pids <- py_iter parts ;;
  example_nodes_from doc pids.

Definition license_text (lic : json) : json :=
  match lic with
  | JObj m => match lookup (lit "@id") m with Some v => v | None => JStr "" end
  | JStr _ => lic
  | _ => JStr ""
  end.

(** ** query.py: retrieval configuration *)

Definition newline : str := [ascii_of_nat 10].

(** [li.get("name", "") for li in items if isinstance(li, dict)] *)
Fixpoint item_names (items : list json) : list json :=
  match items with
  | [] => []
  | JObj m :: rest =>
      match lookup (lit "name") m with Some v => v | None => JStr "" end
      :: item_names rest
  | _ :: rest => item_names rest
  end.

Definition itemlist_text (doc : json) (keyword : str) : result json :=
  n <- itemlist_by_name doc keyword ;;
  l <- py_get n "itemListElement" (JArr []) ;;
  items <- py_iter l ;;
  py_join newline (JArr (item_names items)).

(** [ex.get("text", "") for ex in example_nodes(g)]; every example node is
    a dict. *)
Fixpoint example_texts (nodes : list json) : result (list json) :=
  match nodes with
  | [] => Ok []
  | ex :: rest =>
      t <- py_get ex "text" (JStr "") ;;
      more <- example_texts rest ;;
      Ok (t :: more)
  end.

Definition FIELDS : list (str * (json -> result json)) :=
  [ (lit "project:name",
      fun g => p <- project_node g ;; py_get p "name" JNull);
    (lit "project:description",
      fun g => p <- project_node g ;; py_get p "description" JNull);
    (lit "install:commands",
      fun g => n <- install_node g ;;
               tool <- py_get n "tool" (JArr []) ;;
               py_join newline (py_or tool (JArr [])));
    (lit "features:list", fun g => itemlist_text g "feature");
    (lit "platforms:list", fun g => itemlist_text g "platform");
    (lit "examples:code",
      fun g => exs <- example_nodes g ;;
               texts <- example_texts exs ;;
               py_join (newline ++ newline) (JArr texts));
    (lit "project:license",
      fun g => p <- project_node g ;;
               lic <- py_get p "license" JNull ;;
               Ok (license_text lic));
    (lit "project:topics",
      fun g => p <- project_node g ;;
               topics <- py_get p "applicationCategory" (JArr []) ;;
               py_join ", " (py_or topics (JArr []))) ].

Definition INTENT_KEYWORDS : list (str * list str) :=
  [ (lit "purpose",
      [lit "what is"; lit "what does"; lit "purpose"; lit "about";
       lit "overview"]);
    (lit "install",
      [lit "install"; lit "installation"; lit "setup"; lit "pip";
       lit "how to install"]);
    (lit "example",
      [lit "example"; lit "usage"; lit "code"; lit "snippet";
       lit "how to use"]);
    (lit "features", [lit "feature"; lit "capability"; lit "highlights"]);
    (lit "platforms",
      [lit "platform"; lit "supported"; lit "python version"; lit "os";
       lit "operating system"; lit "architecture"]);
    (lit "license", [lit "license"; lit "licence"]);
    (lit "topics", [lit "topic"; lit "category"; lit "tags"; lit "keywords"]) ].

Definition INTENT_FIELD_WEIGHTS : list (str * list (str * Z)) :=
  [ (lit "purpose", [(lit "project:description", 3); (lit "project:name", 1)]);
    (lit "install", [(lit "install:commands", 3)]);
    (lit "example", [(lit "examples:code", 3)]);
    (lit "features", [(lit "features:list", 3)]);
    (lit "platforms", [(lit "platforms:list", 3)]);
    (lit "license", [(lit "project:license", 3)]);
    (lit "topics", [(lit "project:topics", 3)]) ].

(** ** query.py: retrieval logic *)

Definition tokenize (text : str) : list str := map lower (split_ws text).

(** [tf[t] += 1] on a [defaultdict(int)] *)
Fixpoint tf_incr (t : str) (tf : list (str * Z)) : list (str * Z) :=
  match tf with
  | [] => [(t, 0 + 1)]
  | (k, n) :: tf' =>
      if eqb t k then (k, n + 1) :: tf' else (k, n) :: tf_incr t tf'
  end.

(** [tf.get(q, 0)] *)
Definition tf_get (tf : list (str * Z)) (q : str) : Z :=
  match lookup q tf with Some n => n | None => 0 end.

Definition term_frequencies (ttokens : list str) : list (str * Z) :=
  fold_left (fun tf t => tf_incr t tf) ttokens [].

(** [score_chunk(query, text)]; a text that is not a string has no
    [split]. *)
Definition score_chunk (query : str) (text : json) : result Z :=
  if negb (truthy text) then Ok 0
  else match text with
       | JStr t =>
           let qtokens := tokenize query in
           let ttokens := tokenize t in
           let tf := term_frequencies ttokens in
           Ok (fold_left (fun acc q => acc + tf_get tf q) qtokens 0)
       | _ => Raise AttributeError
       end.

Definition guess_intents (query : str) : list str :=
  let ql := lower query in
  let hits :=
    map fst (filter (fun ik => existsb (fun k => contains ql k) (snd ik))
                    INTENT_KEYWORDS) in
  match hits with
  | [] => [lit "purpose"]
  | _ => hits
  end.

(** [INTENT_FIELD_WEIGHTS.get(intent, {}).get(label, 0)] *)
Definition configured_weight (intent label : str) : Z :=
  match lookup intent INTENT_FIELD_WEIGHTS with
  | Some ws => match lookup label ws with Some w => w | None => 0 end
  | None => 0
  end.

(** The inner loop of [main]: [weight = 1], then one addition per intent. *)
Definition field_weight (intents : list str) (label : str) : Z :=
  fold_left (fun weight intent => weight + configured_weight intent label)
            intents 1.

(** [any(i in intents for i in INTENT_FIELD_WEIGHTS)] *)
Definition any_intent_weighted (intents : list str) : bool :=
  existsb (fun i => existsb (eqb i) intents) (map fst INTENT_FIELD_WEIGHTS).

(** [total] of one chunk, from its [base] score. *)
Definition combined_score (intents : list str) (label : str) (base : Z) : Z :=
  let weight := field_weight intents label in
  if base >? 0 then base * weight
  else if any_intent_weighted intents then weight
  else base.

Record best := Best {
  best_label : option str;
  best_content : json;
  best_score : Z
}.

Definition best_init : best := Best None JNull (-1).

(** The [for label, content in chunks] loop of [main]. *)
Fixpoint pick_best (question : str) (intents : list str)
         (chunks : list (str * json)) (b : best) : result best :=
  match chunks with
  | [] => Ok b
  | (label, content) :: rest =>
      base <- score_chunk question content ;;
      let total := combined_score intents label base in
      pick_best question intents rest
                (if total >? best_score b
                 then Best (Some label) content total
                 else b)
  end.

(** [[(label, getter(doc)) for label, getter in FIELDS if getter(doc)]] *)
Fixpoint gather (fields : list (str * (json -> result json))) (doc : json)
  : result (list (str * json)) :=
  match fields with
  | [] => Ok []
  | (label, getter) :: rest =>
      probe <- getter doc ;;
      if truthy probe
      then content <- getter doc ;;
           more <- gather rest doc ;;
           Ok ((label, content) :: more)
      else gather rest doc
  end.

Definition LIST_LIKE : list str :=
  [lit "examples:code"; lit "install:commands"; lit "features:list";
   lit "platforms:list"].

(** What a run of [main] ends with. [Answer label content] stands for
    [print(format_answer(label, content))]; the heading that
    [format_answer] derives from the label is not modelled, the body it
    prints is [answer_body content]. *)
Inductive outcome :=
| CantFind (path : str)
| NoKnowledge
| Answer (label content : str)
| NoRelevant
| Uncaught (e : exn).

(** [content.strip()] in [format_answer] *)
Definition answer_body (content : str) : str := strip content.

Definition run {A} (m : result A) (k : A -> outcome) : outcome :=
  match m with
  | Ok a => k a
  | Raise e => Uncaught e
  end.

(** [main] from [intents = guess_intents(args.question)] on, for a loaded
    [doc]. *)
Definition retrieve (question : str) (doc : json) : outcome :=
  let intents := guess_intents question in
  run (gather FIELDS doc) (fun chunks =>
  match chunks with
  | [] => NoKnowledge
  | _ =>
      run (pick_best question intents chunks best_init) (fun b =>
      match best_label b with
      | Some label =>
          if truthy (JStr label)
          then match best_content b with
               | JStr content =>
                   let content :=
                     if existsb (eqb label) LIST_LIKE
                     then strip (before_first (newline ++ newline) content)
                     else content in
                   Answer label content
               | _ => Uncaught AttributeError
               end
          else NoRelevant
      | None => NoRelevant
      end)
  end).

End Query.

(** ** fetch.py: the syntax tree *)

Module Fetch.

(** A node of the tree [markdown_it.tree.SyntaxTreeNode] builds, with the
    attributes the extractor reads. *)
Inductive SyntaxNode :=
| Node (type : str) (level : Z) (content : str) (children : list SyntaxNode).

Definition type (n : SyntaxNode) : str := let (t, _, _, _) := n in t.
Definition level (n : SyntaxNode) : Z := let (_, l, _, _) := n in l.
Definition content (n : SyntaxNode) : str := let (_, _, c, _) := n in c.
Definition children (n : SyntaxNode) : list SyntaxNode :=
  let (_, _, _, cs) := n in cs.

(** The tree [parse_md] returns. Its root has the type ["root"] and no
    token of its own, so it is neither a heading nor a fence; it is given by
    its children. *)
Inductive SyntaxTree :=
| Root (children : list SyntaxNode).

Definition root_children (ast : SyntaxTree) : list SyntaxNode :=
  let (cs) := ast in cs.

(** [node.walk()]: the node, then the walk of each child in turn. *)
Fixpoint walk (n : SyntaxNode) : list SyntaxNode :=
  match n with
  | Node _ _ _ cs => n :: flat_map walk cs
  end.

(** [ast.walk()] past the root itself. *)
Definition walk_tree (ast : SyntaxTree) : list SyntaxNode :=
  flat_map walk (root_children ast).

(** The walk again, each node paired with
    [node.parent.children[idx+1:]], the siblings after it. Nodes are compared
    by identity, so [siblings.index(node)] is the node's own position. *)
Fixpoint walk_next (n : SyntaxNode) (next : list SyntaxNode) {struct n}
  : list (SyntaxNode * list SyntaxNode) :=
  match n with
  | Node _ _ _ cs =>
      (n, next)
      :: (fix each (cs : list SyntaxNode) : list (SyntaxNode * list SyntaxNode) :=
            match cs with
            | [] => []
            | c :: cs' => walk_next c cs' ++ each cs'
            end) cs
  end.

Fixpoint walk_next_all (cs : list SyntaxNode)
  : list (SyntaxNode * list SyntaxNode) :=
  match cs with
  | [] => []
  | c :: cs' => walk_next c cs' ++ walk_next_all cs'
  end.

(** ** fetch.py: Markdown parsing helpers *)

(** [for nxt in siblings[idx+1:]: if nxt.type == "paragraph": return ...] *)
Fixpoint paragraph_among (siblings : list SyntaxNode) : option str :=
  match siblings with
  | [] => None
  | nxt :: rest =>
      if eqb (type nxt) "paragraph" then Some (strip (content nxt))
      else paragraph_among rest
  end.

(** The [for node in ast.children] loop of [first_para_after_title]; when
    the inner loop ends without a paragraph the outer loop goes on. *)
Fixpoint first_para_from (nodes : list SyntaxNode) : option str :=
  match nodes with
  | [] => None
  | node :: rest =>
      if eqb (type node) "heading" && (level node =? 1)
      then match paragraph_among rest with
           | Some p => Some p
           | None => first_para_from rest
           end
      else first_para_from rest
  end.

Definition first_para_after_title (ast : SyntaxTree) : option str :=
  first_para_from (root_children ast).

Definition PIP_INSTALL : str := "pip install".

(** [for line in node.content.splitlines(): ...] *)
Definition pip_lines_into (cmds : list str) (text : str) : list str :=
  fold_left
    (fun cmds line =>
       if contains line PIP_INSTALL then cmds ++ [strip line] else cmds)
    (splitlines text) cmds.

(** [list(dict.fromkeys(cmds))]: the keys in order of first insertion. *)
Definition dict_fromkeys (keys : list str) : list str :=
  fold_left
    (fun d k => if existsb (eqb k) d then d else d ++ [k])
    keys [].

Definition find_install_cmds (ast : SyntaxTree) : list str :=
  let cmds :=
    fold_left
      (fun cmds node =>
         if eqb (type node) "fence" && contains (content node) PIP_INSTALL
         then pip_lines_into cmds (content node)
         else cmds)
      (walk_tree ast) [] in
  dict_fromkeys cmds.

(** [" ".join(c.content.strip() for c in item.walk() if c.type == "text")] *)
Definition item_text (item : SyntaxNode) : str :=
  join " "
       (map (fun c => strip (content c))
            (filter (fun c => eqb (type c) "text") (walk item))).

(** The items of one bullet list: the non-empty texts of its children. *)
Definition bullet_items (bullets : SyntaxNode) : list str :=
  filter (fun text => match text with [] => false | _ => true end)
         (map item_text (children bullets)).

Fixpoint bullet_list_among (siblings : list SyntaxNode) : option (list str) :=
  match siblings with
  | [] => None
  | nxt :: rest =>
      if eqb (type nxt) "bullet_list" then Some (bullet_items nxt)
      else bullet_list_among rest
  end.

Fixpoint list_after_heading_from
         (nodes : list (SyntaxNode * list SyntaxNode)) (keys_lower : list str)
  : list str :=
  match nodes with
  | [] => []
  | (node, next) :: rest =>
      if eqb (type node) "heading"
         && ((level node =? 2) || (level node =? 3))
      then let heading_text := lower (strip (content node)) in
           if existsb (fun kw => contains heading_text kw) keys_lower
           then match bullet_list_among next with
                | Some items => items
                | None => list_after_heading_from rest keys_lower
                end
           else list_after_heading_from rest keys_lower
      else list_after_heading_from rest keys_lower
  end.

Definition list_after_heading (ast : SyntaxTree) (keywords : list str)
  : list str :=
  list_after_heading_from (walk_next_all (root_children ast))
                          (map lower keywords).

(** ** fetch.py: the JSON-LD builder *)

Definition CONTEXT : json :=
  JObj [ (lit "@vocab", JStr "http://schema.org/");
         (lit "schema", JStr "http://schema.org/");
         (lit "doap", JStr "http://usefulinc.com/ns/doap#");
         (lit "dcterms", JStr "http://purl.org/dc/terms/");
         (lit "spdx", JStr "https://spdx.org/licenses/") ].

(** The repository record of the GitHub API, as far as [build_jsonld]
    reads it. [description] and [license] are [None] for a JSON null,
    [license] is otherwise the [spdx_id] of the license object; [topics]
    is empty when the key is missing; [language] is [None] when the key is
    missing. *)
Record metadata := Metadata {
  html_url : str;
  name : str;
  description : option str;
  license : option str;
  topics : list str;
  language : option str
}.

Definition of_option (o : option str) : json :=
  match o with
  | Some s => JStr s
  | None => JNull
  end.

Definition strings (l : list str) : json := JArr (map JStr l).

(** [[{"@type": "ListItem", "position": i+1, "name": f}
      for i, f in enumerate(features)]], from index [i] on. *)
Fixpoint list_items (i : Z) (names : list str) : list json :=
  match names with
  | [] => []
  | f :: rest =>
      JObj [ (lit "@type", JStr "ListItem");
             (lit "position", JNum (i + 1));
             (lit "name", JStr f) ]
      :: list_items (i + 1) rest
  end.

(** [d[key].append(v)] on a dict [d] whose [key] holds a list. *)
Fixpoint member_append (ms : list (str * json)) (key : str) (v : json)
  : list (str * json) :=
  match ms with
  | [] => []
  | (k, x) :: ms' =>
      if eqb k key
      then (k, match x with JArr l => JArr (l ++ [v]) | _ => x end) :: ms'
      else (k, x) :: member_append ms' key v
  end.

(** The state of [build_jsonld] while the graph grows: [graph[0]] is the
    very object [root], so an append to [root["hasPart"]] shows in the
    graph; [graph_rest] is [graph[1:]]. *)
Record building := Building {
  graph_root : list (str * json);
  graph_rest : list json
}.

(** [root["hasPart"].append(id); graph.append(node)] *)
Definition add_part (b : building) (id : str) (node : json) : building :=
  Building (member_append (graph_root b) "hasPart" (JStr id))
           (graph_rest b ++ [node]).

Definition build_jsonld (meta : metadata) (ast : SyntaxTree) (now : str)
  : json :=
  let repo_url := html_url meta in
  let name := name meta in
  let description :=
    py_or (of_option (description meta))
          (of_option (first_para_after_title ast)) in
  let license_info := license meta in
  let topics := strings (topics meta) in
  let language :=
    match language meta with Some l => JStr l | None => JStr "Python" end in
  let install_cmds := find_install_cmds ast in
  let features := list_after_heading ast [lit "feature"; lit "key feature"] in
  let platforms :=
    list_after_heading ast [lit "supported platform"; lit "compatibility"] in
  let root :=
    [ (lit "@id", JStr repo_url);
      (lit "@type", JArr [JStr "SoftwareApplication"; JStr "doap:Project"]);
      (lit "name", JStr name);
      (lit "description", description);
      (lit "codeRepository", JStr repo_url);
      (lit "programmingLanguage", language);
      (lit "applicationCategory", py_or topics JNull);
      (lit "license",
        match license_info with
        | Some spdx_id =>
            JObj [ (lit "@id",
                    JStr (lit "https://spdx.org/licenses/" ++ spdx_id
                          ++ lit ".html")) ]
        | None => JNull
        end);
      (lit "hasPart", JArr []) ] in
  let b := Building root [] in
  let b :=
    match install_cmds with
    | [] => b
    | _ =>
        let howto_id := repo_url ++ lit "#howto-install" in
        add_part b howto_id
          (JObj [ (lit "@id", JStr howto_id);
                  (lit "@type", JStr "HowTo");
                  (lit "name", JStr (lit "Install " ++ name));
                  (lit "tool", strings install_cmds) ])
    end in
  let b :=
    match features with
    | [] => b
    | _ =>
        let feat_id := repo_url ++ lit "#features" in
        add_part b feat_id
          (JObj [ (lit "@id", JStr feat_id);
                  (lit "@type", JStr "ItemList");
                  (lit "name", JStr "Key Features");
                  (lit "itemListElement", JArr (list_items 0 features)) ])
    end in
  let b :=
    match platforms with
    | [] => b
    | _ =>
        let plat_id := repo_url ++ lit "#supported-platforms" in
        add_part b plat_id
          (JObj [ (lit "@id", JStr plat_id);
                  (lit "@type", JStr "ItemList");
                  (lit "name", JStr "Supported Platforms");
                  (lit "itemListElement", JArr (list_items 0 platforms)) ])
    end in
  JObj [ (lit "@context", CONTEXT);
         (lit "@graph", JArr (JObj (graph_root b) :: graph_rest b));
         (lit "dcterms:modified", JStr now) ].

End Fetch.

(** ** fetch.py: the trees [parse_md] returns *)

Module Markdown.
Import Fetch.

(** [parse_md] gives the tokens of [MarkdownIt().parse] to
    [SyntaxTreeNode]. A block that opens and closes (a heading, a
    paragraph, a list, a list item, a block quote) becomes one node, which
    takes [level] and [content] from its opening token. The level of a
    token is its nesting level: 0 for a block that is not inside another
    block, whatever the rank of a heading (the rank is in the token's tag,
    h1 to h6, which fetch.py does not read). An opening token has no
    content: the text of a heading or of a paragraph is the content of its
    inline child. A fence is one token and carries its code as content. *)
Definition PAIRED : list str :=
  [lit "heading"; lit "paragraph"; lit "blockquote"; lit "bullet_list";
   lit "ordered_list"; lit "list_item"].

Definition top_level (n : SyntaxNode) : bool := level n =? 0.

Definition bare (n : SyntaxNode) : bool :=
  if existsb (eqb (type n)) PAIRED
  then match content n with [] => true | _ :: _ => false end
  else true.

(** What holds of every tree [parse_md] returns: the children of the root
    have level 0, and no node made of an opening and a closing token has
    content. *)
Definition parsed (ast : SyntaxTree) : bool :=
  forallb top_level (root_children ast) && forallb bare (walk_tree ast).

Definition text (s : str) : SyntaxNode := Node "text" 0 s [].

(** The inline token of a one-line text without markup. *)
Definition inline (l : Z) (s : str) : SyntaxNode := Node "inline" l s [text s].

(** The tree of the README
    [# Foo], blank line, [A tiny tool.], blank line, [## Features],
    [- Fast], [- Small]. *)
Definition tiny_tool_readme : SyntaxTree :=
  Root [ Node "heading" 0 [] [inline 1 "Foo"];
         Node "paragraph" 0 [] [inline 1 "A tiny tool."];
         Node "heading" 0 [] [inline 1 "Features"];
         Node "bullet_list" 0 []
              [ Node "list_item" 1 [] [Node "paragraph" 2 [] [inline 3 "Fast"]];
                Node "list_item" 1 [] [Node "paragraph" 2 [] [inline 3 "Small"]] ] ].

End Markdown.

(** ** The json module: [json.dump(doc, f, ensure_ascii=False, indent=2)]
    and [json.loads(text)]

    Both belong to Python's standard library; they are written out here as
    far as the two programs use them. *)

Module Json.

Definition quote : ascii := ascii_of_nat 34.
Definition backslash : ascii := ascii_of_nat 92.

(** *** Encoding *)

Definition hex_digit (n : Z) : ascii :=
  if n <? 10 then chr (48 + n) else chr (87 + n).

(** [ESCAPE_DCT]: the replacement of one character inside a string. *)
Definition escape_char (c : ascii) : str :=
  let n := code c in
  if n =? 92 then [backslash; backslash]
  else if n =? 34 then [backslash; quote]
  else if n =? 8 then [backslash; "b"%char]
  else if n =? 12 then [backslash; "f"%char]
  else if n =? 10 then [backslash; "n"%char]
  else if n =? 13 then [backslash; "r"%char]
  else if n =? 9 then [backslash; "t"%char]
  else if n <? 32
       then [backslash; "u"%char; "0"%char; "0"%char;
             hex_digit (n / 16); hex_digit (n mod 16)]
  else [c].

(** [py_encode_basestring(s)] *)
Definition encode_basestring (s : str) : str :=
  quote :: flat_map escape_char s ++ [quote].

Fixpoint chars_of_uint (d : Decimal.uint) : str :=
  match d with
  | Decimal.Nil => []
  | Decimal.D0 d => "0"%char :: chars_of_uint d
  | Decimal.D1 d => "1"%char :: chars_of_uint d
  | Decimal.D2 d => "2"%char :: chars_of_uint d
  | Decimal.D3 d => "3"%char :: chars_of_uint d
  | Decimal.D4 d => "4"%char :: chars_of_uint d
  | Decimal.D5 d => "5"%char :: chars_of_uint d
  | Decimal.D6 d => "6"%char :: chars_of_uint d
  | Decimal.D7 d => "7"%char :: chars_of_uint d
  | Decimal.D8 d => "8"%char :: chars_of_uint d
  | Decimal.D9 d => "9"%char :: chars_of_uint d
  end.

(** [int.__repr__(n)] *)
Definition repr_int (n : Z) : str :=
  match n with
  | Z0 => lit "0"
  | Zpos p => chars_of_uint (Pos.to_uint p)
  | Zneg p => "-"%char :: chars_of_uint (Pos.to_uint p)
  end.

(** ['\n' + ' ' * (2 * level)] *)
Definition newline_indent (level : nat) : str :=
  ascii_of_nat 10 :: repeat " "%char (2 * level).

(** [_iterencode(v, level)], all chunks put together. The first item of a
    list or dict follows the opening bracket, every later one follows a
    separator. *)
Fixpoint encode (level : nat) (v : json) {struct v} : str :=
  match v with
  | JNull => lit "null"
  | JBool true => lit "true"
  | JBool false => lit "false"
  | JNum n => repr_int n
  | JStr s => encode_basestring s
  | JArr [] => lit "[]"
  | JArr (x :: xs) =>
      "["%char :: newline_indent (S level) ++ encode (S level) x
      ++ (fix later (l : list json) : str :=
            match l with
            | [] => []
            | y :: l' =>
                ","%char :: newline_indent (S level) ++ encode (S level) y
                ++ later l'
            end) xs
      ++ newline_indent level ++ lit "]"
  | JObj [] => lit "{}"
  | JObj ((k, x) :: ms) =>
      "{"%char :: newline_indent (S level)
      ++ encode_basestring k ++ lit ": " ++ encode (S level) x
      ++ (fix later (l : list (str * json)) : str :=
            match l with
            | [] => []
            | (k', y) :: l' =>
                ","%char :: newline_indent (S level)
                ++ encode_basestring k' ++ lit ": " ++ encode (S level) y
                ++ later l'
            end) ms
      ++ newline_indent level ++ lit "}"
  end.

(** The text [json.dump] writes. *)
Definition dumps (v : json) : str := encode 0 v.

(** *** Decoding *)

(** [WHITESPACE]: space, TAB, LF, CR. *)
Definition is_ws (c : ascii) : bool :=
  let n := code c in (n =? 32) || (n =? 9) || (n =? 10) || (n =? 13).

Fixpoint skip_ws (s : str) : str :=
  match s with
  | c :: s' => if is_ws c then skip_ws s' else s
  | [] => []
  end.

Definition hex_value (c : ascii) : option Z :=
  let n := code c in
  if (48 <=? n) && (n <=? 57) then Some (n - 48)
  else if (97 <=? n) && (n <=? 102) then Some (n - 87)
  else if (65 <=? n) && (n <=? 70) then Some (n - 55)
  else None.

(** [_decode_uXXXX]: exactly four hexadecimal digits. *)
Definition decode_uXXXX (h1 h2 h3 h4 : ascii) : option Z :=
  match hex_value h1, hex_value h2, hex_value h3, hex_value h4 with
  | Some a, Some b, Some c, Some d => Some (((a * 16 + b) * 16 + c) * 16 + d)
  | _, _, _, _ => None
  end.

(** [BACKSLASH]: the character a one-letter escape stands for. *)
Definition unescape (esc : ascii) : option ascii :=
  let n := code esc in
  if n =? 34 then Some quote
  else if n =? 92 then Some backslash
  else if n =? 47 then Some "/"%char
  else if n =? 98 then Some (chr 8)
  else if n =? 102 then Some (chr 12)
  else if n =? 110 then Some (chr 10)
  else if n =? 114 then Some (chr 13)
  else if n =? 116 then Some (chr 9)
  else None.

(** [scanstring(s, end, strict=True)], from just after the opening quote:
    the decoded string and the text after the closing quote. *)
Fixpoint scanstring (s : str) : result (str * str) :=
  match s with
  | [] => Raise JSONDecodeError
  | c :: s' =>
      if Ascii.eqb c quote then Ok ([], s')
      else if Ascii.eqb c backslash then
        match s' with
        | [] => Raise JSONDecodeError
        | esc :: s'' =>
            if Ascii.eqb esc "u"%char then
              match s'' with
              | h1 :: h2 :: h3 :: h4 :: s3 =>
                  match decode_uXXXX h1 h2 h3 h4 with
                  | Some uni =>
                      if uni <? 256
                      then tr <- scanstring s3 ;;
                           Ok (chr uni :: fst tr, snd tr)
                      else Raise Unmodelled
                  | None => Raise JSONDecodeError
                  end
              | _ => Raise JSONDecodeError
              end
            else
              match unescape esc with
              | Some char => tr <- scanstring s'' ;; Ok (char :: fst tr, snd tr)
              | None => Raise JSONDecodeError
              end
        end
      else if code c <? 32 then Raise JSONDecodeError
      else tr <- scanstring s' ;; Ok (c :: fst tr, snd tr)
  end.

Definition digit_of (c : ascii) : option (Decimal.uint -> Decimal.uint) :=
  let n := code c in
  if n =? 48 then Some Decimal.D0
  else if n =? 49 then Some Decimal.D1
  else if n =? 50 then Some Decimal.D2
  else if n =? 51 then Some Decimal.D3
  else if n =? 52 then Some Decimal.D4
  else if n =? 53 then Some Decimal.D5
  else if n =? 54 then Some Decimal.D6
  else if n =? 55 then Some Decimal.D7
  else if n =? 56 then Some Decimal.D8
  else if n =? 57 then Some Decimal.D9
  else None.

Definition is_digit (c : ascii) : bool :=
  match digit_of c with Some _ => true | None => false end.

(** The longest run of digits at the head of [s], and what follows it. *)
Fixpoint span_digits (s : str) : Decimal.uint * str :=
  match s with
  | [] => (Decimal.Nil, [])
  | c :: s' =>
      match digit_of c with
      | Some d => let (ds, r) := span_digits s' in (d ds, r)
      | None => (Decimal.Nil, s)
      end
  end.

(** The first group of [NUMBER_RE], read as an [int]: an optional minus
    sign, then either a single 0 or a run of digits that starts with 1-9. *)
Definition match_integer (s : str) : option (Z * str) :=
  let (negative, s1) :=
    match s with
    | c :: s' => if Ascii.eqb c "-"%char then (true, s') else (false, s)
    | [] => (false, s)
    end in
  match s1 with
  | [] => None
  | c :: r =>
      if Ascii.eqb c "0"%char then Some (0, r)
      else if is_digit c
           then let (ds, r') := span_digits s1 in
                let n := Z.of_N (N.of_uint ds) in
                Some (if negative then - n else n, r')
           else None
  end.

(** The second and third group of [NUMBER_RE]: a point and a digit, or
    an e or E, an optional sign and a digit. *)
Definition has_frac (r : str) : bool :=
  match r with
  | p :: d :: _ => Ascii.eqb p "."%char && is_digit d
  | _ => false
  end.

Definition has_exp (r : str) : bool :=
  match r with
  | e :: r' =>
      (Ascii.eqb e "e"%char || Ascii.eqb e "E"%char)
      && match r' with
         | d :: r'' =>
             is_digit d
             || ((Ascii.eqb d "+"%char || Ascii.eqb d "-"%char)
                 && match r'' with d' :: _ => is_digit d' | [] => false end)
         | [] => false
         end
  | [] => false
  end.

Fixpoint drop (n : nat) (s : str) : str :=
  match n, s with
  | S n', _ :: s' => drop n' s'
  | _, _ => s
  end.

(** [_scan_once] for the values that are neither a string, an object nor an
    array. *)
Definition scan_scalar (s : str) : result (json * str) :=
  if startswith s "null" then Ok (JNull, drop 4 s)
  else if startswith s "true" then Ok (JBool true, drop 4 s)
  else if startswith s "false" then Ok (JBool false, drop 5 s)
  else match match_integer s with
       | Some (n, r) =>
           if has_frac r || has_exp r then Raise Unmodelled
           else Ok (JNum n, r)
       | None =>
           if startswith s "NaN" || startswith s "Infinity"
              || startswith s "-Infinity"
           then Raise Unmodelled
           else Raise JSONDecodeError
       end.

(** [d[k] = v] *)
Fixpoint dict_set (d : list (str * json)) (k : str) (v : json)
  : list (str * json) :=
  match d with
  | [] => [(k, v)]
  | (k', v') :: d' =>
      if eqb k' k then (k', v) :: d' else (k', v') :: dict_set d' k v
  end.

(** [dict(pairs)] *)
Definition dict_of (pairs : list (str * json)) : list (str * json) :=
  fold_left (fun d kv => dict_set d (fst kv) (snd kv)) pairs [].

(** [_scan_once], [JSONArray] and [JSONObject]. [fuel] bounds the nesting
    of calls. [parse_values] starts at a value of an array, [parse_pairs]
    just after the opening quote of a key. *)
Fixpoint scan_once (fuel : nat) (s : str) {struct fuel}
  : result (json * str) :=
  match fuel with
  | O => Raise RecursionError
  | S fuel' =>
      match s with
      | [] => Raise JSONDecodeError
      | c :: s' =>
          if Ascii.eqb c quote
          then tr <- scanstring s' ;; Ok (JStr (fst tr), snd tr)
          else if Ascii.eqb c "{"%char
          then match skip_ws s' with
               | [] => Raise JSONDecodeError
               | c1 :: s1 =>
                   if Ascii.eqb c1 "}"%char then Ok (JObj [], s1)
                   else if Ascii.eqb c1 quote then parse_pairs fuel' s1 []
                   else Raise JSONDecodeError
               end
          else if Ascii.eqb c "["%char
          then match skip_ws s' with
               | [] => Raise JSONDecodeError
               | c1 :: s1 =>
                   if Ascii.eqb c1 "]"%char then Ok (JArr [], s1)
                   else parse_values fuel' (c1 :: s1) []
               end
          else scan_scalar s
      end
  end

with parse_values (fuel : nat) (s : str) (values : list json) {struct fuel}
  : result (json * str) :=
  match fuel with
  | O => Raise RecursionError
  | S fuel' =>
      vr <- scan_once fuel' s ;;
      let values := values ++ [fst vr] in
      match skip_ws (snd vr) with
      | [] => Raise JSONDecodeError
      | c :: r =>
          if Ascii.eqb c "]"%char then Ok (JArr values, r)
          else if Ascii.eqb c ","%char
          then parse_values fuel' (skip_ws r) values
          else Raise JSONDecodeError
      end
  end

with parse_pairs (fuel : nat) (s : str) (pairs : list (str * json))
                 {struct fuel} : result (json * str) :=
  match fuel with
  | O => Raise RecursionError
  | S fuel' =>
      kr <- scanstring s ;;
      match skip_ws (snd kr) with
      | [] => Raise JSONDecodeError
      | c :: r1 =>
          if Ascii.eqb c ":"%char
          then vr <- scan_once fuel' (skip_ws r1) ;;
               let pairs := pairs ++ [(fst kr, fst vr)] in
               match skip_ws (snd vr) with
               | [] => Raise JSONDecodeError
               | c' :: r2 =>
                   if Ascii.eqb c' "}"%char
                   then Ok (JObj (dict_of pairs), r2)
                   else if Ascii.eqb c' ","%char
                   then match skip_ws r2 with
                        | [] => Raise JSONDecodeError
                        | q :: r3 =>
                            if Ascii.eqb q quote
                            then parse_pairs fuel' r3 pairs
                            else Raise JSONDecodeError
                        end
                   else Raise JSONDecodeError
               end
          else Raise JSONDecodeError
      end
  end.

(** [json.loads(text)]: one value between optional whitespace, and nothing
    after it. The budget for nested calls is one that no text uses up
    ([JsonFacts.loads_within_budget]); the recursion limit of the
    interpreter is not modelled. *)
Definition loads (text : str) : result json :=
  vr <- scan_once (S (2 * List.length text)) (skip_ws text) ;;
  match skip_ws (snd vr) with
  | [] => Ok (fst vr)
  | _ => Raise JSONDecodeError
  end.

End Json.

(** ** The two command-line programs, from the parsed arguments on *)

Module Cli.
Import Fetch Query.

(** The files the programs see: the text stored under a path, if the path
    exists. *)
Definition files := str -> option str.

(** [open(path, "w").write(text)] *)
Definition write_text (fs : files) (path text : str) : files :=
  fun p => if eqb p path then Some text else fs p.

(** [main] of fetch.py once the repository record and the README tree are
    there: build the document and dump it to [out]. *)
Definition fetch_main (fs : files) (meta : metadata) (ast : SyntaxTree)
           (now out : str) : files :=
  write_text fs out (Json.dumps (build_jsonld meta ast now)).

(** The calls a run of query.py makes to the decoder and to the retrieval
    part of [main], in order. *)
Inductive call :=
| Loads (text : str)
| Retrieve (doc : json).

(** [main] of query.py: the calls made and how the run ends. *)
Definition query_main (fs : files) (question file : str)
  : list call * outcome :=
  match fs file with
  | None => ([], CantFind file)
  | Some text =>
      match Json.loads text with
      | Raise e => ([Loads text], Uncaught e)
      | Ok doc => ([Loads text; Retrieve doc], retrieve question doc)
      end
  end.

End Cli.

(** ** fetch.py: the requests to the GitHub API *)

Module Github.

(** [s.split(sep, 1)[1]] for a non-empty separator: the text after its
    first occurrence, if it occurs. *)
Fixpoint after_first (sep s : str) : option str :=
  match s with
  | [] => None
  | c :: s' =>
      if startswith s sep then Some (skipn (List.length sep) s)
      else after_first sep s'
  end.

(** [s.split(sep, 1)]: at most one split, so one or two texts. *)
Definition split_once (sep s : str) : list str :=
  match after_first sep s with
  | Some rest => [before_first sep s; rest]
  | None => [s]
  end.

(** What [github_get] hands to [requests.get]: the URL and the headers
    (the timeout is always 30). *)
Record request := Request {
  url : str;
  headers : list (str * str)
}.

(** [github_get(url, token)] up to its call of [requests.get]. A token
    that is [None] or empty adds no header. *)
Definition github_get (url : str) (token : option str) : request :=
  let headers := [(lit "Accept", lit "application/vnd.github+json")] in
  let headers :=
    match token with
    | Some (c :: t) => headers ++ [(lit "Authorization", lit "token " ++ c :: t)]
    | _ => headers
    end in
  Request url headers.

Definition API_REPOS : str := "https://api.github.com/repos/".

Definition get_repo_info (owner repo : str) (token : option str) : request :=
  github_get (API_REPOS ++ owner ++ lit "/" ++ repo) token.

Definition get_readme (owner repo : str) (token : option str) : request :=
  github_get (API_REPOS ++ owner ++ lit "/" ++ repo ++ lit "/readme") token.

(** [owner, repo = args.repo.split("/", 1)] and the two requests [main]
    goes on to make, the second once the first has been answered. [None]
    is the ValueError of an unpacking that does not get two values. *)
Definition main_requests (repo_arg : str) (token : option str)
  : option (list request) :=
  match split_once "/" repo_arg with
  | [owner; repo] =>
      Some [get_repo_info owner repo token; get_readme owner repo token]
  | _ => None
  end.

End Github.

(** * Properties of the string model *)

Module PyStrFacts.

Lemma eqb_eq (a b : str) : eqb a b = true <-> a = b.
Proof.
  revert b; induction a as [|x a IH]; intros [|y b]; simpl;
    try (split; [discriminate | discriminate]); [tauto|].
  rewrite andb_true_iff, Ascii.eqb_eq, IH. split.
  - intros [-> ->]. reflexivity.
  - intros [= -> ->]. auto.
Qed.

Lemma eqb_refl (a : str) : eqb a a = true.
Proof. now apply eqb_eq. Qed.

End PyStrFacts.

Import PyStrFacts.

(** * Properties of the retriever *)

Module QueryFacts.
Import Query.

Definition zsum (l : list Z) : Z := fold_right Z.add 0 l.

Lemma fold_left_add_zsum (A : Type) (f : A -> Z) (l : list A) (a : Z) :
  fold_left (fun acc x => acc + f x) l a = a + zsum (map f l).
Proof.
  revert a; induction l as [|x l IH]; intros a; simpl.
  - lia.
  - rewrite IH. lia.
Qed.

Lemma lookup_In_keys (A : Type) (k : str) (m : list (str * A)) (v : A) :
  lookup k m = Some v -> In k (map fst m).
Proof.
  induction m as [|[k' v'] m IH]; simpl; [discriminate|].
  destruct (eqb k k') eqn:E.
  - apply eqb_eq in E. auto.
  - auto.
Qed.

Lemma existsb_eqb_In (x : str) (l : list str) :
  existsb (eqb x) l = true <-> In x l.
Proof.
  rewrite existsb_exists. split.
  - intros (y & Hy & E). apply eqb_eq in E. now subst.
  - intros H. exists x. split; [assumption | apply eqb_refl].
Qed.

(** An intent has a configured weight entry when the weight table maps it to
    a table with at least one label. *)
Definition has_weight_entry (intent : str) : Prop :=
  exists ws label w,
    lookup intent INTENT_FIELD_WEIGHTS = Some ws /\ lookup label ws = Some w.

Lemma lookup_head (A : Type) (k : str) (v : A) (m : list (str * A)) :
  lookup k ((k, v) :: m) = Some v.
Proof. simpl. now rewrite eqb_refl. Qed.

Lemma weight_keys_have_entries (k : str) :
  In k (map fst INTENT_FIELD_WEIGHTS) -> has_weight_entry k.
Proof.
  unfold has_weight_entry. simpl. intros H.
  repeat destruct H as [<- | H]; try contradiction;
    (eexists; eexists; eexists; split; [reflexivity | apply lookup_head]).
Qed.

Lemma any_intent_weighted_iff (intents : list str) :
  any_intent_weighted intents = true
  <-> exists i, In i intents /\ has_weight_entry i.
Proof.
  unfold any_intent_weighted. rewrite existsb_exists. split.
  - intros (k & Hk & Hin). apply existsb_eqb_In in Hin.
    exists k. split; [assumption | now apply weight_keys_have_entries].
  - intros (i & Hi & ws & label & w & Hws & _).
    exists i. split.
    + eapply lookup_In_keys; eassumption.
    + now apply existsb_eqb_In.
Qed.

Lemma tf_incr_nonneg (t : str) (tf : list (str * Z)) :
  Forall (fun kv => 0 <= snd kv) tf ->
  Forall (fun kv => 0 <= snd kv) (tf_incr t tf).
Proof.
  induction 1 as [|[k n] tf Hk Htf IH]; simpl.
  - constructor; [simpl; lia | constructor].
  - destruct (eqb t k); constructor; simpl in *; try lia; assumption.
Qed.

Lemma term_frequencies_nonneg (ttokens : list str) :
  Forall (fun kv => 0 <= snd kv) (term_frequencies ttokens).
Proof.
  unfold term_frequencies.
  assert (G : forall tf, Forall (fun kv : str * Z => 0 <= snd kv) tf ->
              Forall (fun kv : str * Z => 0 <= snd kv)
                     (fold_left (fun tf t => tf_incr t tf) ttokens tf)).
  { induction ttokens as [|t ts IH]; intros tf H; simpl; [assumption|].
    apply IH. now apply tf_incr_nonneg. }
  apply G. constructor.
Qed.

Lemma tf_get_nonneg (tf : list (str * Z)) (q : str) :
  Forall (fun kv => 0 <= snd kv) tf -> 0 <= tf_get tf q.
Proof.
  unfold tf_get. induction 1 as [|[k n] tf Hk Htf IH]; simpl; [lia|].
  destruct (eqb q k); simpl in *; [lia | assumption].
Qed.

Lemma score_chunk_nonneg (query : str) (text : json) (base : Z) :
  score_chunk query text = Ok base -> 0 <= base.
Proof.
  unfold score_chunk. destruct (negb (truthy text)).
  - intros [= <-]. lia.
  - destruct text; try discriminate. intros [= <-].
    rewrite fold_left_add_zsum.
    assert (0 <= zsum (map (tf_get (term_frequencies (tokenize s)))
                           (tokenize query))); [|lia].
    induction (tokenize query) as [|q qs IH]; simpl; [lia|].
    pose proof (tf_get_nonneg _ q (term_frequencies_nonneg (tokenize s))). lia.
Qed.

(** *** The base score is a term overlap *)

Definition occurrences (q : str) (tokens : list str) : Z :=
  Z.of_nat (List.length (filter (eqb q) tokens)).

Lemma tf_get_incr (tf : list (str * Z)) (t q : str) :
  tf_get (tf_incr t tf) q = tf_get tf q + (if eqb q t then 1 else 0).
Proof.
  unfold tf_get. induction tf as [|[k n] tf IH]; simpl.
  - destruct (eqb q t); reflexivity.
  - destruct (eqb t k) eqn:Etk; simpl.
    + apply eqb_eq in Etk. subst k.
      destruct (eqb q t); [reflexivity | lia].
    + destruct (eqb q k) eqn:Eqk; [|exact IH].
      apply eqb_eq in Eqk. subst k.
      destruct (eqb q t) eqn:Eqt; [|lia].
      apply eqb_eq in Eqt. subst t. now rewrite eqb_refl in Etk.
Qed.

Lemma tf_get_term_frequencies (tokens : list str) (q : str) :
  tf_get (term_frequencies tokens) q = occurrences q tokens.
Proof.
  unfold term_frequencies, occurrences.
  assert (G : forall tf,
             tf_get (fold_left (fun tf t => tf_incr t tf) tokens tf) q
             = tf_get tf q + Z.of_nat (List.length (filter (eqb q) tokens))).
  { induction tokens as [|t ts IH]; intros tf; simpl; [lia|].
    rewrite IH, tf_get_incr.
    destruct (eqb q t); simpl List.length; lia. }
  rewrite G. reflexivity.
Qed.

(** The score of a non-empty text: for each token of the question, the
    number of times it occurs among the tokens of the text, summed. *)
Lemma score_chunk_overlap (query : str) (c : ascii) (text : str) :
  score_chunk query (JStr (c :: text))
  = Ok (zsum (map (fun q => occurrences q (tokenize (c :: text)))
                  (tokenize query))).
Proof.
  unfold score_chunk. simpl negb. cbv iota.
  rewrite fold_left_add_zsum. f_equal. simpl Z.add. f_equal.
  apply map_ext. intros q. apply tf_get_term_frequencies.
Qed.

(** C1. For every question, intent list and field whose text the scorer
    scores with term-overlap score [base]: the field's weight is 1 plus the
    sum over the active intents of the configured weight of the field's
    label (0 when none is configured); the combined score is
    [base * weight] when [base] is positive; when [base] is 0 it is the
    weight alone if some active intent has a configured weight entry, and 0
    otherwise. The base score is never negative, so these cases are all;
    for a non-empty text it is the number of occurrences of the question's
    tokens among the tokens of the text. *)
Theorem combined_score_formula
  (question : str) (intents : list str) (label : str) (content : json)
  (base : Z) :
  score_chunk question content = Ok base ->
  let weight := field_weight intents label in
  let total := combined_score intents label base in
  weight = 1 + zsum (map (fun i => configured_weight i label) intents)
  /\ (forall c text,
         content = JStr (c :: text) ->
         base = zsum (map (fun q => occurrences q (tokenize (c :: text)))
                          (tokenize question)))
  /\ (0 < base \/ base = 0)
  /\ (0 < base -> total = base * weight)
  /\ (base = 0 ->
      (exists i, In i intents /\ has_weight_entry i) -> total = weight)
  /\ (base = 0 ->
      ~ (exists i, In i intents /\ has_weight_entry i) -> total = 0).
Proof.
  intros Hbase weight total.
  pose proof (score_chunk_nonneg _ _ _ Hbase) as Hnn.
  split; [|split; [|split; [|split; [|split]]]].
  - unfold weight, field_weight. apply fold_left_add_zsum.
  - intros c text ->. rewrite score_chunk_overlap in Hbase.
    now injection Hbase as <-.
  - lia.
  - intros Hpos. unfold total, combined_score.
    destruct (base >? 0) eqn:E; [reflexivity | lia].
  - intros -> Hex. unfold total, combined_score. simpl.
    apply any_intent_weighted_iff in Hex. now rewrite Hex.
  - intros -> Hex. unfold total, combined_score. simpl.
    destruct (any_intent_weighted intents) eqn:E; [|reflexivity].
    apply any_intent_weighted_iff in E. contradiction.
Qed.

Lemma combined_score_formula_witness :
  let question : str := "How do I install this?" in
  let intents := guess_intents question in
  let label : str := "install:commands" in
  field_weight intents label
  = 1 + zsum (map (fun i => configured_weight i label) intents)
  /\ (forall c text,
         JStr "pip install foo" = JStr (c :: text) ->
         1 = zsum (map (fun q => occurrences q (tokenize (c :: text)))
                       (tokenize question)))
  /\ (0 < 1 \/ 1 = 0)
  /\ (0 < 1 -> combined_score intents label 1 = 1 * field_weight intents label)
  /\ (1 = 0 ->
      (exists i, In i intents /\ has_weight_entry i) ->
      combined_score intents label 1 = field_weight intents label)
  /\ (1 = 0 ->
      ~ (exists i, In i intents /\ has_weight_entry i) ->
      combined_score intents label 1 = 0).
Proof.
  exact (@combined_score_formula "How do I install this?"
           (guess_intents "How do I install this?") "install:commands"
           (JStr "pip install foo") 1 eq_refl).
Defined.

(** *** Intent classification *)

Lemma startswith_app (t rest : str) : startswith (t ++ rest) t = true.
Proof.
  induction t as [|c t IH]; simpl; [reflexivity|].
  now rewrite Ascii.eqb_refl, IH.
Qed.

Lemma contains_cons (c : ascii) (s k : str) :
  contains (c :: s) k = (startswith (c :: s) k || contains s k)%bool.
Proof. reflexivity. Qed.

Lemma contains_startswith (s k : str) :
  startswith s k = true -> contains s k = true.
Proof. destruct s; simpl; intros ->; reflexivity. Qed.

Lemma contains_insert (a t b : str) : contains (a ++ t ++ b) t = true.
Proof.
  induction a as [|c a IH].
  - apply contains_startswith. exact (startswith_app t b).
  - change ((c :: a) ++ t ++ b) with (c :: (a ++ t ++ b)).
    rewrite contains_cons, IH. apply orb_true_r.
Qed.

Lemma contains_append (a t : str) : contains (a ++ t) t = true.
Proof.
  rewrite <- (app_nil_r t) at 1. apply contains_insert.
Qed.

Lemma lower_app (a b : str) : lower (a ++ b) = lower a ++ lower b.
Proof. apply map_app. Qed.

(** Every trigger of the keyword table is already in lower case. *)
Lemma triggers_lowercase (intent : str) (keys : list str) (t : str) :
  In (intent, keys) INTENT_KEYWORDS -> In t keys -> lower t = t.
Proof.
  intros H Ht. simpl in H.
  repeat destruct H as [[= <- <-] | H]; try contradiction;
    simpl in Ht;
    repeat destruct Ht as [<- | Ht]; try contradiction; reflexivity.
Qed.

Definition hits (query : str) : list str :=
  map fst (filter (fun ik => existsb (fun k => contains (lower query) k) (snd ik))
                  INTENT_KEYWORDS).

Lemma guess_intents_hits (query : str) :
  guess_intents query
  = match hits query with [] => [lit "purpose"] | _ => hits query end.
Proof. reflexivity. Qed.

Lemma hit_active (query intent : str) :
  In intent (hits query) -> In intent (guess_intents query).
Proof.
  rewrite guess_intents_hits. destruct (hits query); [contradiction | auto].
Qed.

(** C8. For every question and every intent the classifier reports for it,
    the question with any trigger of that intent appended is still
    classified with that intent. *)
Theorem guess_intents_monotone
  (question intent : str) (keys : list str) (trigger : str) :
  In intent (guess_intents question) ->
  In (intent, keys) INTENT_KEYWORDS ->
  In trigger keys ->
  In intent (guess_intents (question ++ trigger)).
Proof.
  intros _ Hik Ht. apply hit_active. unfold hits.
  apply in_map_iff. exists (intent, keys). split; [reflexivity|].
  apply filter_In. split; [assumption|]. simpl.
  apply existsb_exists. exists trigger. split; [assumption|].
  rewrite lower_app, (triggers_lowercase _ _ _ Hik Ht).
  apply contains_append.
Qed.

Lemma guess_intents_monotone_witness :
  In (lit "purpose") (guess_intents (lit "Tell me more" ++ lit " about"))
  /\ In (lit "install") (guess_intents (lit "How do I install this?" ++ lit "pip")).
Proof.
  split.
  - apply (@guess_intents_monotone "Tell me more" "purpose"
             [lit "what is"; lit "what does"; lit "purpose"; lit "about";
              lit "overview"] "about").
    + vm_compute. auto.
    + vm_compute. auto.
    + vm_compute. auto 10.
  - refine (@guess_intents_monotone "How do I install this?" "install"
             _ "pip" _ _ _).
    + vm_compute. auto.
    + vm_compute. right. left. reflexivity.
    + vm_compute. auto 10.
Defined.

(** *** The selection loop *)

Lemma lookup_In (A : Type) (k : str) (m : list (str * A)) (v : A) :
  lookup k m = Some v -> In (k, v) m.
Proof.
  induction m as [|[k' v'] m IH]; simpl; [discriminate|].
  destruct (eqb k k') eqn:E.
  - apply eqb_eq in E. intros [= ->]. subst. auto.
  - auto.
Qed.

Lemma configured_weight_nonneg (intent label : str) :
  0 <= configured_weight intent label.
Proof.
  unfold configured_weight.
  destruct (lookup intent INTENT_FIELD_WEIGHTS) as [ws|] eqn:E; [|lia].
  destruct (lookup label ws) as [w|] eqn:F; [|lia].
  apply lookup_In in E. apply lookup_In in F. simpl in E.
  repeat destruct E as [[= <- <-] | E]; try contradiction;
    simpl in F; repeat destruct F as [[= <- <-] | F]; try contradiction; lia.
Qed.

Lemma field_weight_ge_1 (intents : list str) (label : str) :
  1 <= field_weight intents label.
Proof.
  unfold field_weight. rewrite fold_left_add_zsum.
  assert (0 <= zsum (map (fun i => configured_weight i label) intents)); [|lia].
  induction intents as [|i l IH]; simpl; [lia|].
  pose proof (configured_weight_nonneg i label). lia.
Qed.

Lemma guess_intents_are_weight_keys (question intent : str) :
  In intent (guess_intents question) ->
  In intent (map fst INTENT_FIELD_WEIGHTS).
Proof.
  rewrite guess_intents_hits.
  assert (H : forall i, In i (hits question) ->
                        In i (map fst INTENT_FIELD_WEIGHTS)).
  { intros i Hi. unfold hits in Hi. apply in_map_iff in Hi.
    destruct Hi as ([k ks] & <- & Hf). apply filter_In in Hf.
    destruct Hf as [Hin _].
    change (map fst INTENT_FIELD_WEIGHTS) with (map fst INTENT_KEYWORDS).
    apply in_map_iff. now exists (k, ks). }
  destruct (hits question) as [|h hs] eqn:E.
  - intros [<- | []]. simpl. auto.
  - apply H.
Qed.

Lemma guess_intents_nonempty (question : str) : guess_intents question <> [].
Proof.
  rewrite guess_intents_hits. destruct (hits question); discriminate.
Qed.

Lemma guess_intents_weighted (question : str) :
  any_intent_weighted (guess_intents question) = true.
Proof.
  apply any_intent_weighted_iff.
  pose proof (guess_intents_nonempty question) as Hne.
  pose proof (guess_intents_are_weight_keys question) as Hk.
  destruct (guess_intents question) as [|i l]; [congruence|].
  exists i. split; [now left|].
  apply weight_keys_have_entries, Hk. now left.
Qed.

Lemma combined_score_ge_1 (question label : str) (content : json) (base : Z) :
  score_chunk question content = Ok base ->
  1 <= combined_score (guess_intents question) label base.
Proof.
  intros Hb. pose proof (score_chunk_nonneg _ _ _ Hb) as Hnn.
  pose proof (field_weight_ge_1 (guess_intents question) label) as Hw.
  unfold combined_score. rewrite guess_intents_weighted.
  destruct (base >? 0) eqn:E; [nia | lia].
Qed.

(** The loop either leaves [b] as it is, which needs [b] to score at least
    1 already when there is a chunk, or ends on one of the chunks. *)
Lemma pick_best_selects (question : str) (chunks : list (str * json)) :
  forall b b',
    pick_best question (guess_intents question) chunks b = Ok b' ->
    (b' = b /\ (chunks = [] \/ 1 <= best_score b))
    \/ (exists label content,
           In (label, content) chunks
           /\ best_label b' = Some label /\ best_content b' = content).
Proof.
  induction chunks as [|[label content] rest IH]; intros b b'; simpl.
  - intros [= <-]. left. auto.
  - destruct (score_chunk question content) as [base|e] eqn:Hb;
      simpl; [|discriminate].
    pose proof (combined_score_ge_1 question label content base Hb) as Hge.
    destruct (combined_score (guess_intents question) label base >? best_score b)
      eqn:E; intros H; apply IH in H.
    + right. destruct H as [[-> _] | (l & c & Hin & Hl & Hc)].
      * exists label, content. simpl. auto.
      * exists l, c. auto.
    + destruct H as [[-> _] | (l & c & Hin & Hl & Hc)].
      * left. split; [reflexivity | right; lia].
      * right. exists l, c. auto.
Qed.

Lemma pick_best_total (question : str) (intents : list str)
      (chunks : list (str * json)) :
  (forall label content, In (label, content) chunks ->
                         exists text, content = JStr text) ->
  forall b, exists b', pick_best question intents chunks b = Ok b'.
Proof.
  induction chunks as [|[label content] rest IH]; intros Hs b; simpl.
  - now exists b.
  - destruct (Hs label content (or_introl eq_refl)) as [text ->].
    assert (exists base, score_chunk question (JStr text) = Ok base) as [base ->].
    { unfold score_chunk. destruct (negb (truthy (JStr text))); eauto. }
    simpl. apply IH. intros l c Hin. apply (Hs l c). now right.
Qed.

Lemma gather_labels (fields : list (str * (json -> result json))) (doc : json) :
  forall chunks, gather fields doc = Ok chunks ->
  forall label content, In (label, content) chunks ->
    In label (map fst fields) /\ truthy content = true.
Proof.
  induction fields as [|[l getter] rest IH]; simpl; intros chunks.
  - intros [= <-] ? ? [].
  - destruct (getter doc) as [probe|e] eqn:G; simpl; [|discriminate].
    destruct (truthy probe) eqn:T.
    + simpl.
      destruct (gather rest doc) as [more|e]; simpl; [|discriminate].
      intros [= <-] label content [[= <- <-] | Hin].
      * auto.
      * destruct (IH more eq_refl label content Hin). auto.
    + intros H label content Hin.
      destruct (IH chunks H label content Hin). auto.
Qed.

Lemma field_labels_truthy (label : str) :
  In label (map fst FIELDS) -> truthy (JStr label) = true.
Proof.
  simpl. intros H.
  repeat destruct H as [<- | H]; try contradiction; reflexivity.
Qed.

(** The text [main] passes to [format_answer] for a winning field. *)
Definition shown (label content : str) : str :=
  if existsb (eqb label) LIST_LIKE
  then strip (before_first (newline ++ newline) content)
  else content.

Lemma retrieve_never_no_relevant (question : str) (doc : json) :
  retrieve question doc <> NoRelevant.
Proof.
  unfold retrieve, run.
  destruct (gather FIELDS doc) as [chunks|e] eqn:G; [|discriminate].
  destruct chunks as [|ch chunks]; [discriminate|].
  destruct (pick_best question (guess_intents question) (ch :: chunks) best_init)
    as [b|e] eqn:P; [|discriminate].
  apply pick_best_selects in P.
  destruct P as [[_ [H | H]] | (l & c & Hin & Hl & Hc)].
  - discriminate.
  - simpl in H. lia.
  - rewrite Hl, Hc.
    destruct (gather_labels _ _ _ G _ _ Hin) as [Hlab _].
    rewrite (field_labels_truthy _ Hlab).
    destruct c; discriminate.
Qed.

(** When the surviving fields are texts and there is at least one, the
    retriever answers with one of them. *)
Lemma retrieve_answers
      (question : str) (doc : json) (chunks : list (str * json)) :
  gather FIELDS doc = Ok chunks ->
  chunks <> [] ->
  (forall label content, In (label, content) chunks ->
                         exists text, content = JStr text) ->
  exists label text,
    In (label, JStr text) chunks
    /\ retrieve question doc = Answer label (shown label text).
Proof.
  intros G Hne Hs.
  destruct (pick_best_total question (guess_intents question) _ Hs best_init)
    as [b P].
  pose proof P as P'. apply pick_best_selects in P'.
  destruct P' as [[_ [H | H]] | (l & c & Hin & Hl & Hc)].
  - contradiction.
  - simpl in H. lia.
  - destruct (Hs l c Hin) as [text ->].
    exists l, text. split; [assumption|].
    unfold retrieve, run. rewrite G.
    destruct chunks as [|ch rest]; [contradiction|].
    rewrite P, Hl, Hc.
    destruct (gather_labels _ _ _ G _ _ Hin) as [Hlab _].
    rewrite (field_labels_truthy _ Hlab). reflexivity.
Qed.

(** C10 (amended). For every graph and question such that the registry
    fields evaluate without an exception and every non-empty one is a text,
    at least one being non-empty: every classified intent is a key of the
    intent-weight table; every scored field has a combined score of at
    least 1, above the initial best score of -1; the retriever answers
    with one of the surviving fields; and the "No relevant information
    found." outcome is not produced (for this and for every other graph,
    whatever its fields hold). *)
Theorem retrieve_always_answers
  (question : str) (doc : json) (chunks : list (str * json)) :
  gather FIELDS doc = Ok chunks ->
  chunks <> [] ->
  (forall label content, In (label, content) chunks ->
                         exists text, content = JStr text) ->
  (forall i, In i (guess_intents question) ->
             In i (map fst INTENT_FIELD_WEIGHTS))
  /\ (forall label content base,
         score_chunk question content = Ok base ->
         best_score best_init
         < 1 <= combined_score (guess_intents question) label base)
  /\ (exists label text,
         In (label, JStr text) chunks
         /\ retrieve question doc = Answer label (shown label text))
  /\ (forall doc', retrieve question doc' <> NoRelevant).
Proof.
  intros G Hne Hs. split; [|split; [|split]].
  - apply guess_intents_are_weight_keys.
  - intros label content base Hb. split; [simpl; lia|].
    eapply combined_score_ge_1; eassumption.
  - now apply retrieve_answers.
  - intros doc'. apply retrieve_never_no_relevant.
Qed.

(** A saved graph with a project node that has no name, description,
    license or topics, and one HowTo part. *)
Definition install_only_doc : json :=
  JObj [ (lit "@graph",
          JArr [ JObj [ (lit "@id", JStr "https://x/Foo");
                        (lit "@type",
                          JArr [JStr "SoftwareApplication"; JStr "doap:Project"]);
                        (lit "name", JNull);
                        (lit "description", JNull);
                        (lit "hasPart", JArr [JStr "https://x/Foo#howto-install"]) ];
                 JObj [ (lit "@id", JStr "https://x/Foo#howto-install");
                        (lit "@type", JStr "HowTo");
                        (lit "name", JStr "Install ");
                        (lit "tool", JArr [JStr "pip install foo"]) ] ]) ].

Lemma retrieve_always_answers_witness :
  gather FIELDS install_only_doc
  = Ok [(lit "install:commands", JStr "pip install foo")]
  /\ exists label text,
       In (label, JStr text) [(lit "install:commands", JStr "pip install foo")]
       /\ retrieve "what is the license" install_only_doc
          = Answer label (shown label text).
Proof.
  split; [reflexivity|].
  refine (proj1 (proj2 (proj2
            (retrieve_always_answers "what is the license" install_only_doc
               [(lit "install:commands", JStr "pip install foo")]
               eq_refl _ _)))).
  - discriminate.
  - intros label content [[= <- <-] | []]. now exists (lit "pip install foo").
Defined.

(** A graph whose project has a number for a name, next to a description
    that is a text. *)
Definition numbered_name_doc : json :=
  JObj [ (lit "@graph",
          JArr [ JObj [ (lit "@type", JStr "SoftwareApplication");
                        (lit "name", JNum 5);
                        (lit "description", JStr "A small library") ] ]) ].

(** C10 (as claimed) fails: a registry field of the graph produces a
    non-empty text, and yet the run prints no answer; it ends in
    [score_chunk] with the AttributeError of [5.split()]. *)
Lemma non_text_field_raises :
  gather FIELDS numbered_name_doc
  = Ok [ (lit "project:name", JNum 5);
         (lit "project:description", JStr "A small library") ]
  /\ retrieve "what is this" numbered_name_doc = Uncaught AttributeError
  /\ ~ (forall question doc chunks label text,
           gather FIELDS doc = Ok chunks ->
           In (label, JStr text) chunks ->
           text <> [] ->
           exists shown_label shown_text,
             retrieve question doc = Answer shown_label shown_text).
Proof.
  split; [reflexivity|]. split; [reflexivity|].
  intros H.
  destruct (H "what is this" numbered_name_doc _
              "project:description" "A small library" eq_refl)
    as (l & c & E).
  - right. now left.
  - discriminate.
  - discriminate E.
Qed.

(** C9. For the question "How do I install this?" and every graph whose
    only non-empty registry field is install:commands with the text
    "pip install foo", the retriever answers with the label
    install:commands and the content "pip install foo", which is also the
    body that is printed. *)
Theorem install_scenario (doc : json) :
  gather FIELDS doc = Ok [(lit "install:commands", JStr "pip install foo")] ->
  retrieve "How do I install this?" doc
  = Answer "install:commands" "pip install foo"
  /\ shown "install:commands" "pip install foo" = lit "pip install foo"
  /\ answer_body "pip install foo" = lit "pip install foo".
Proof.
  intros G. unfold retrieve, run. rewrite G.
  repeat split.
Qed.

Lemma install_scenario_witness :
  retrieve "How do I install this?" install_only_doc
  = Answer "install:commands" "pip install foo".
Proof.
  exact (proj1 (install_scenario install_only_doc eq_refl)).
Defined.

End QueryFacts.

(** * Properties of the extractor *)

Module FetchFacts.
Import Fetch.

(** *** The description near the title *)

Definition is_title (n : SyntaxNode) : bool :=
  eqb (type n) "heading" && (level n =? 1).

Definition is_paragraph (n : SyntaxNode) : bool := eqb (type n) "paragraph".

(** The siblings after the first level-1 heading among the top-level nodes,
    if there is one. *)
Fixpoint after_first_title (nodes : list SyntaxNode)
  : option (list SyntaxNode) :=
  match nodes with
  | [] => None
  | n :: rest => if is_title n then Some rest else after_first_title rest
  end.

(** The scan without a bound: the trimmed content of the first paragraph
    among all the siblings after the first heading whose [level] is 1. *)
Definition descriptionNear (ast : SyntaxTree) : option str :=
  match after_first_title (root_children ast) with
  | None => None
  | Some siblings =>
      option_map (fun p => strip (content p)) (find is_paragraph siblings)
  end.

Lemma paragraph_among_find (siblings : list SyntaxNode) :
  paragraph_among siblings
  = option_map (fun p => strip (content p)) (find is_paragraph siblings).
Proof.
  induction siblings as [|n rest IH]; simpl; [reflexivity|].
  unfold is_paragraph at 1. destruct (eqb (type n) "paragraph"); auto.
Qed.

(** Once no paragraph follows a node, none follows any later heading
    either, so the outer loop finds nothing more. *)
Lemma first_para_from_none (nodes : list SyntaxNode) :
  paragraph_among nodes = None -> first_para_from nodes = None.
Proof.
  induction nodes as [|n rest IH]; simpl; [reflexivity|].
  destruct (eqb (type n) "paragraph"); [discriminate|].
  intros H. rewrite H, (IH H).
  destruct (eqb (type n) "heading" && (level n =? 1)); reflexivity.
Qed.

Lemma first_para_from_spec (nodes : list SyntaxNode) :
  first_para_from nodes
  = match after_first_title nodes with
    | None => None
    | Some siblings => paragraph_among siblings
    end.
Proof.
  induction nodes as [|n rest IH]; simpl; [reflexivity|].
  unfold is_title.
  destruct (eqb (type n) "heading" && (level n =? 1)); [|assumption].
  destruct (paragraph_among rest) eqn:P; [reflexivity|].
  now apply first_para_from_none.
Qed.

Lemma find_none_iff (A : Type) (p : A -> bool) (l : list A) :
  find p l = None <-> forall x, In x l -> p x = false.
Proof.
  split.
  - intros H x Hin. eapply find_none; eassumption.
  - induction l as [|a l IH]; simpl; [reflexivity|].
    intros H. rewrite (H a (or_introl eq_refl)). apply IH.
    intros x Hx. apply H. now right.
Qed.

(** On every tree of the model, [first_para_after_title] is the trimmed
    content of the first paragraph among all the siblings that follow the
    first top-level heading whose [level] is 1; it is nothing exactly when
    there is no such heading or no paragraph after the first one. *)
Lemma first_para_after_title_scan (ast : SyntaxTree) :
  first_para_after_title ast = descriptionNear ast
  /\ (first_para_after_title ast = None
      <-> after_first_title (root_children ast) = None
          \/ exists siblings,
               after_first_title (root_children ast) = Some siblings
               /\ forall n, In n siblings -> is_paragraph n = false).
Proof.
  unfold first_para_after_title, descriptionNear.
  rewrite first_para_from_spec.
  destruct (after_first_title (root_children ast)) as [siblings|].
  - rewrite paragraph_among_find. split; [reflexivity|].
    split.
    + intros H. right. exists siblings. split; [reflexivity|].
      apply find_none_iff.
      destruct (find is_paragraph siblings); [discriminate | reflexivity].
    + intros [H | (s & [= <-] & H)]; [discriminate|].
      apply find_none_iff in H. now rewrite H.
  - split; [reflexivity|]. split; auto.
Qed.

Lemma first_para_from_top_level (nodes : list SyntaxNode) :
  forallb Markdown.top_level nodes = true -> first_para_from nodes = None.
Proof.
  induction nodes as [|n rest IH]; cbn [forallb first_para_from];
    [reflexivity|].
  intros H. apply andb_true_iff in H. destruct H as [Hn Hrest].
  unfold Markdown.top_level in Hn. apply Z.eqb_eq in Hn.
  rewrite Hn, andb_false_r. now apply IH.
Qed.

(** C2. The claim does not hold of the code: on the tree of a README that
    begins with a level-1 title followed by a paragraph,
    [first_para_after_title] returns nothing, where the claim (and the
    function's docstring) give the paragraph, here "A tiny tool.". The
    function compares [node.level], the nesting level of the block, with 1;
    a top-level heading has level 0, so on every tree [parse_md] returns no
    heading is accepted and the result is nothing. *)
Theorem first_para_after_title_misses_title :
  Markdown.parsed Markdown.tiny_tool_readme = true
  /\ (exists title para rest,
         root_children Markdown.tiny_tool_readme = title :: para :: rest
         /\ type title = lit "heading"
         /\ map content (children title) = [lit "Foo"]
         /\ type para = lit "paragraph"
         /\ map content (children para) = [lit "A tiny tool."])
  /\ first_para_after_title Markdown.tiny_tool_readme = None
  /\ forall ast,
       Markdown.parsed ast = true -> first_para_after_title ast = None.
Proof.
  split; [reflexivity|]. split.
  - do 3 eexists. split; [reflexivity|]. repeat split; reflexivity.
  - split; [reflexivity|].
    intros ast H. unfold Markdown.parsed in H.
    apply andb_true_iff in H. destruct H as [H _].
    now apply first_para_from_top_level.
Qed.

(** *** Install commands *)

Definition has_pip (text : str) : bool := contains text PIP_INSTALL.

(** The fenced code blocks of the tree whose content mentions the command. *)
Definition pip_fences (ast : SyntaxTree) : list SyntaxNode :=
  filter (fun n => eqb (type n) "fence" && has_pip (content n)) (walk_tree ast).

(** Their command lines, trimmed, in the order of the walk. *)
Definition pip_lines (ast : SyntaxTree) : list str :=
  flat_map (fun n => map strip (filter has_pip (splitlines (content n))))
           (pip_fences ast).

(** Stable removal of duplicates: every string stays where it is first
    seen. *)
Fixpoint first_seen (l : list str) : list str :=
  match l with
  | [] => []
  | x :: rest => x :: filter (fun y => negb (eqb y x)) (first_seen rest)
  end.

Lemma fold_left_collect {A B : Type} (p : A -> bool) (f : A -> list B)
      (l : list A) (acc : list B) :
  fold_left (fun acc x => if p x then acc ++ f x else acc) l acc
  = acc ++ flat_map f (filter p l).
Proof.
  revert acc; induction l as [|x l IH]; intros acc; simpl.
  - now rewrite app_nil_r.
  - rewrite IH. destruct (p x); simpl; [now rewrite app_assoc | reflexivity].
Qed.

Lemma flat_map_singleton {A B : Type} (f : A -> B) (l : list A) :
  flat_map (fun x => [f x]) l = map f l.
Proof. induction l; simpl; congruence. Qed.

Lemma pip_lines_into_spec (cmds : list str) (text : str) :
  pip_lines_into cmds text
  = cmds ++ map strip (filter has_pip (splitlines text)).
Proof.
  unfold pip_lines_into.
  rewrite (fold_left_collect has_pip (fun line => [strip line])).
  now rewrite flat_map_singleton.
Qed.

Lemma collected_spec (ast : SyntaxTree) :
  fold_left
    (fun cmds node =>
       if eqb (type node) "fence" && contains (content node) PIP_INSTALL
       then pip_lines_into cmds (content node)
       else cmds)
    (walk_tree ast) []
  = pip_lines ast.
Proof.
  unfold pip_lines, pip_fences.
  rewrite <- (app_nil_l (flat_map _ _)).
  rewrite <- fold_left_collect.
  generalize (@nil str). induction (walk_tree ast) as [|n l IH]; intros acc.
  - reflexivity.
  - simpl. rewrite <- IH. f_equal. unfold has_pip at 1.
    destruct (eqb (type n) "fence" && contains (content n) PIP_INSTALL);
      [apply pip_lines_into_spec | reflexivity].
Qed.

Lemma filter_all {A : Type} (p : A -> bool) (l : list A) :
  (forall x, In x l -> p x = true) -> filter p l = l.
Proof.
  induction l as [|a l IH]; simpl; intros H; [reflexivity|].
  rewrite (H a (or_introl eq_refl)), IH; auto.
Qed.

Lemma filter_comm {A : Type} (p q : A -> bool) (l : list A) :
  filter p (filter q l) = filter q (filter p l).
Proof.
  induction l as [|a l IH]; simpl; [reflexivity|].
  destruct (p a) eqn:P, (q a) eqn:Q; simpl; rewrite ?P, ?Q, IH; reflexivity.
Qed.

Lemma first_seen_In (x : str) (l : list str) :
  In x (first_seen l) <-> In x l.
Proof.
  induction l as [|a l IH]; simpl; [tauto|].
  rewrite filter_In, IH. split.
  - intros [H | [H _]]; auto.
  - intros [H | H]; [now left|].
    destruct (eqb x a) eqn:E.
    + apply eqb_eq in E. now left.
    + right. split; [assumption | cbv beta; rewrite ?E; reflexivity].
Qed.

Lemma first_seen_filter (p : str -> bool) (l : list str) :
  filter p (first_seen l) = first_seen (filter p l).
Proof.
  induction l as [|a l IH]; simpl; [reflexivity|].
  destruct (p a) eqn:P; simpl.
  - now rewrite filter_comm, IH.
  - rewrite filter_comm, IH. apply filter_all.
    intros x Hx. apply first_seen_In, filter_In in Hx.
    destruct Hx as [_ Hx]. cbv beta. destruct (eqb x a) eqn:E; [|reflexivity].
    apply eqb_eq in E. congruence.
Qed.

Lemma first_seen_NoDup (l : list str) : NoDup (first_seen l).
Proof.
  induction l as [|a l IH]; simpl; constructor.
  - rewrite filter_In. intros [_ H]. cbv beta in H. now rewrite eqb_refl in H.
  - now apply NoDup_filter.
Qed.

(** The insertion loop of [dict.fromkeys], started from the keys [d]. *)
Lemma filter_not_in_snoc (keys d : list str) (k : str) :
  filter (fun y => negb (existsb (eqb y) (d ++ [k]))) keys
  = filter (fun y => negb (eqb y k))
           (filter (fun y => negb (existsb (eqb y) d)) keys).
Proof.
  induction keys as [|y keys IH]; simpl; [reflexivity|].
  rewrite existsb_app. simpl. rewrite orb_false_r.
  destruct (existsb (eqb y) d); simpl; [assumption|].
  destruct (eqb y k); simpl; now rewrite IH.
Qed.

Lemma dict_fromkeys_from (keys d : list str) :
  fold_left (fun d k => if existsb (eqb k) d then d else d ++ [k]) keys d
  = d ++ first_seen (filter (fun k => negb (existsb (eqb k) d)) keys).
Proof.
  revert d; induction keys as [|k keys IH]; intros d; simpl.
  - now rewrite app_nil_r.
  - rewrite IH. destruct (existsb (eqb k) d) eqn:E; simpl; [reflexivity|].
    rewrite <- app_assoc. simpl. do 2 f_equal.
    rewrite first_seen_filter. f_equal. apply filter_not_in_snoc.
Qed.

Lemma dict_fromkeys_first_seen (keys : list str) :
  dict_fromkeys keys = first_seen keys.
Proof.
  unfold dict_fromkeys. rewrite dict_fromkeys_from. simpl.
  f_equal. apply filter_all. reflexivity.
Qed.

(** C5. For every document tree, [find_install_cmds] yields the trimmed
    lines that contain "pip install" (case-sensitively) of the fenced code
    blocks whose content contains it, each once and at the place where it is
    first seen; the result has exactly these lines as elements, has no
    duplicates, and is the empty list when there is no such line. *)
Theorem find_install_cmds_spec (ast : SyntaxTree) :
  find_install_cmds ast = first_seen (pip_lines ast)
  /\ (forall cmd,
         In cmd (find_install_cmds ast)
         <-> exists fence line,
               In fence (walk_tree ast)
               /\ type fence = lit "fence"
               /\ contains (content fence) "pip install" = true
               /\ In line (splitlines (content fence))
               /\ contains line "pip install" = true
               /\ cmd = strip line)
  /\ NoDup (find_install_cmds ast)
  /\ (pip_lines ast = [] -> find_install_cmds ast = []).
Proof.
  assert (E : find_install_cmds ast = first_seen (pip_lines ast)).
  { unfold find_install_cmds. rewrite collected_spec.
    apply dict_fromkeys_first_seen. }
  split; [assumption|]. rewrite E. split; [|split].
  - intros cmd. rewrite first_seen_In. unfold pip_lines, pip_fences.
    rewrite in_flat_map. split.
    + intros (fence & Hf & Hc). apply filter_In in Hf.
      destruct Hf as [Hw Hf]. apply andb_true_iff in Hf.
      destruct Hf as [Ht Hp]. apply eqb_eq in Ht.
      apply in_map_iff in Hc. destruct Hc as (line & <- & Hl).
      apply filter_In in Hl. destruct Hl as [Hl Hlp].
      exists fence, line. repeat split; assumption.
    + intros (fence & line & Hw & Ht & Hp & Hl & Hlp & ->).
      exists fence. split.
      * apply filter_In. split; [assumption|].
        apply andb_true_iff. split; [now apply eqb_eq | assumption].
      * apply in_map. apply filter_In. now split.
  - apply first_seen_NoDup.
  - intros ->. reflexivity.
Qed.

(** *** The emitted graph *)

(** The description [build_jsonld] resolves. *)
Definition resolved_description (meta : metadata) (ast : SyntaxTree) : json :=
  match description meta with
  | Some (c :: d) => JStr (c :: d)
  | _ => of_option (first_para_after_title ast)
  end.

(** The Project node once [parts] have been appended to its [hasPart]. *)
Definition project_members (meta : metadata) (ast : SyntaxTree)
           (parts : list str) : list (str * json) :=
  [ (lit "@id", JStr (html_url meta));
    (lit "@type", JArr [JStr "SoftwareApplication"; JStr "doap:Project"]);
    (lit "name", JStr (name meta));
    (lit "description", resolved_description meta ast);
    (lit "codeRepository", JStr (html_url meta));
    (lit "programmingLanguage",
      match language meta with Some l => JStr l | None => JStr "Python" end);
    (lit "applicationCategory", py_or (strings (topics meta)) JNull);
    (lit "license",
      match license meta with
      | Some spdx_id =>
          JObj [ (lit "@id",
                  JStr (lit "https://spdx.org/licenses/" ++ spdx_id
                        ++ lit ".html")) ]
      | None => JNull
      end);
    (lit "hasPart", strings parts) ].

Definition howto_part (meta : metadata) (cmds : list str) : str * json :=
  let id := html_url meta ++ lit "#howto-install" in
  (id, JObj [ (lit "@id", JStr id);
              (lit "@type", JStr "HowTo");
              (lit "name", JStr (lit "Install " ++ name meta));
              (lit "tool", strings cmds) ]).

Definition itemlist_part (meta : metadata) (fragment title : str)
           (items : list str) : str * json :=
  let id := html_url meta ++ fragment in
  (id, JObj [ (lit "@id", JStr id);
              (lit "@type", JStr "ItemList");
              (lit "name", JStr title);
              (lit "itemListElement", JArr (list_items 0 items)) ]).

Definition when_nonempty {A B : Type} (l : list A) (x : list A -> B) : list B :=
  match l with
  | [] => []
  | _ => [x l]
  end.

(** The auxiliary nodes with their ids, in creation order: the HowTo, the
    features list, the platforms list, each only when it has entries. *)
Definition parts (meta : metadata) (ast : SyntaxTree) : list (str * json) :=
  when_nonempty (find_install_cmds ast) (howto_part meta)
  ++ when_nonempty (list_after_heading ast [lit "feature"; lit "key feature"])
       (itemlist_part meta "#features" "Key Features")
  ++ when_nonempty
       (list_after_heading ast [lit "supported platform"; lit "compatibility"])
       (itemlist_part meta "#supported-platforms" "Supported Platforms").

Definition project (meta : metadata) (ast : SyntaxTree) : json :=
  JObj (project_members meta ast (map fst (parts meta ast))).

Definition graph (meta : metadata) (ast : SyntaxTree) : list json :=
  project meta ast :: map snd (parts meta ast).

Lemma resolved_description_eq (meta : metadata) (ast : SyntaxTree) :
  py_or (of_option (description meta)) (of_option (first_para_after_title ast))
  = resolved_description meta ast.
Proof.
  unfold resolved_description.
  destruct (description meta) as [[|c d]|]; reflexivity.
Qed.

Lemma build_jsonld_shape (meta : metadata) (ast : SyntaxTree) (now : str) :
  build_jsonld meta ast now
  = JObj [ (lit "@context", CONTEXT);
           (lit "@graph", JArr (graph meta ast));
           (lit "dcterms:modified", JStr now) ].
Proof.
  unfold build_jsonld, graph, project, parts, project_members.
  rewrite resolved_description_eq.
  destruct (find_install_cmds ast) as [|c cs];
    destruct (list_after_heading ast [lit "feature"; lit "key feature"])
      as [|f fs];
    destruct (list_after_heading ast
                [lit "supported platform"; lit "compatibility"]) as [|p ps];
    reflexivity.
Qed.

Lemma project_node_built (meta : metadata) (ast : SyntaxTree) (now : str) :
  Query.project_node (build_jsonld meta ast now) = Ok (project meta ast).
Proof. rewrite build_jsonld_shape. reflexivity. Qed.

Lemma graph_nodes_built (meta : metadata) (ast : SyntaxTree) (now : str) :
  Query.graph_nodes (build_jsonld meta ast now) = Ok (JArr (graph meta ast)).
Proof. rewrite build_jsonld_shape. reflexivity. Qed.

(** C6. For every metadata record, document tree and timestamp, the
    description of the project node of the built graph is the metadata
    description when that is present and non-empty; otherwise it is the
    paragraph [first_para_after_title] finds in the tree; and it is null
    when there is none either. *)
Theorem description_resolution
  (meta : metadata) (ast : SyntaxTree) (now : str) :
  exists p desc,
    Query.project_node (build_jsonld meta ast now) = Ok p
    /\ py_get p "description" JNull = Ok desc
    /\ (forall d, description meta = Some d -> d <> [] -> desc = JStr d)
    /\ (description meta = None \/ description meta = Some [] ->
        forall para, first_para_after_title ast = Some para ->
                     desc = JStr para)
    /\ (description meta = None \/ description meta = Some [] ->
        first_para_after_title ast = None -> desc = JNull).
Proof.
  exists (project meta ast), (resolved_description meta ast).
  split; [apply project_node_built|].
  split; [reflexivity|].
  unfold resolved_description.
  destruct (description meta) as [[|c d]|]; repeat split.
  - intros d [= <-] H. congruence.
  - intros _ para ->. reflexivity.
  - intros _ ->. reflexivity.
  - intros d' [= <-] _. reflexivity.
  - intros [H | H]; discriminate.
  - intros [H | H]; discriminate.
  - intros d H. discriminate.
  - intros _ para ->. reflexivity.
  - intros _ ->. reflexivity.
Qed.

(** [n.get("@id") == id], the test [node_by_id] applies to a node. *)
Definition has_id (id : str) (n : json) : bool :=
  match py_get n "@id" JNull with
  | Ok v => py_eq v (JStr id)
  | Raise _ => false
  end.

Lemma eqb_app_same (u a b : str) : eqb (u ++ a) (u ++ b) = eqb a b.
Proof.
  induction u as [|c u IH]; simpl; [reflexivity|].
  now rewrite Ascii.eqb_refl, IH.
Qed.

Lemma eqb_app_right (u b : str) : eqb u (u ++ b) = eqb [] b.
Proof. rewrite <- (app_nil_r u) at 1. apply eqb_app_same. Qed.

Lemma eqb_app_left (u a : str) : eqb (u ++ a) u = eqb a [].
Proof. rewrite <- (app_nil_r u) at 2. apply eqb_app_same. Qed.

Lemma has_id_first (id k : str) (ms : list (str * json)) :
  has_id id (JObj ((lit "@id", JStr k) :: ms)) = eqb k id.
Proof. reflexivity. Qed.

Lemma node_by_id_from_first
      (id k : str) (ms : list (str * json)) (nodes : list json) :
  Query.node_by_id_from (JObj ((lit "@id", JStr k) :: ms) :: nodes) (JStr id)
  = if eqb k id then Ok (JObj ((lit "@id", JStr k) :: ms))
    else Query.node_by_id_from nodes (JStr id).
Proof. reflexivity. Qed.

Lemma node_by_id_built
      (meta : metadata) (ast : SyntaxTree) (now : str) (id : json) :
  Query.node_by_id (build_jsonld meta ast now) id
  = Query.node_by_id_from (graph meta ast) id.
Proof.
  unfold Query.node_by_id. now rewrite graph_nodes_built.
Qed.

Ltac settle_ids :=
  cbn [filter];
  repeat rewrite ?has_id_first, ?node_by_id_from_first,
    ?eqb_app_same, ?eqb_app_right, ?eqb_app_left, ?eqb_refl.

(** Case analysis on which auxiliary nodes the builder creates. *)
Ltac by_parts ast :=
  unfold graph, project, project_members, parts, when_nonempty,
    howto_part, itemlist_part in *;
  destruct (find_install_cmds ast) as [|c cs];
  destruct (list_after_heading ast [lit "feature"; lit "key feature"])
    as [|f fs];
  destruct (list_after_heading ast
              [lit "supported platform"; lit "compatibility"]) as [|p ps];
  cbn [app map fst snd] in *.

(** Every id in hasPart resolves to its auxiliary node. *)
Lemma node_by_id_resolves (meta : metadata) (ast : SyntaxTree) (now : str) :
  forall id node,
    In (id, node) (parts meta ast) ->
    Query.node_by_id (build_jsonld meta ast now) (JStr id) = Ok node.
Proof.
  intros id node Hin. rewrite node_by_id_built. revert Hin.
  by_parts ast; cbn [In]; intros Hin;
    repeat (destruct Hin as [[= <- <-] | Hin]); try contradiction;
    settle_ids; reflexivity.
Qed.

(** Exactly one node of the graph carries the id of an auxiliary node. *)
Lemma part_id_unique (meta : metadata) (ast : SyntaxTree) :
  forall id node,
    In (id, node) (parts meta ast) ->
    List.length (filter (has_id id) (graph meta ast)) = 1%nat.
Proof.
  intros id node Hin. revert Hin.
  by_parts ast; cbn [In]; intros Hin;
    repeat (destruct Hin as [[= <- <-] | Hin]); try contradiction;
    settle_ids; reflexivity.
Qed.

Lemma part_has_no_parts (meta : metadata) (ast : SyntaxTree) :
  forall id node,
    In (id, node) (parts meta ast) ->
    exists members, node = JObj members
                    /\ lookup (lit "hasPart") members = None.
Proof.
  intros id node Hin. revert Hin.
  by_parts ast; cbn [In]; intros Hin;
    repeat (destruct Hin as [[= <- <-] | Hin]); try contradiction;
    (eexists; split; reflexivity).
Qed.

(** C4. For every metadata record, document tree and timestamp, the graph
    of the built document is the Project node followed by the auxiliary
    nodes in creation order (HowTo, features list, platforms list, each
    only when it has entries); the Project node's hasPart lists the ids of
    the auxiliary nodes in that order; every id in hasPart is the id of
    exactly one node of the graph, which [node_by_id] returns and which is
    its auxiliary node; and no auxiliary node has a hasPart member. *)
Theorem built_graph_shape (meta : metadata) (ast : SyntaxTree) (now : str) :
  let doc := build_jsonld meta ast now in
  let aux := parts meta ast in
  Query.graph_nodes doc = Ok (JArr (project meta ast :: map snd aux))
  /\ Query.project_node doc = Ok (project meta ast)
  /\ py_get (project meta ast) "hasPart" (JArr []) = Ok (strings (map fst aux))
  /\ (forall id node,
         In (id, node) aux ->
         List.length (filter (has_id id) (project meta ast :: map snd aux)) = 1%nat
         /\ Query.node_by_id doc (JStr id) = Ok node)
  /\ (forall id node,
         In (id, node) aux ->
         exists members, node = JObj members
                         /\ lookup (lit "hasPart") members = None).
Proof.
  intros doc aux. subst doc aux.
  split; [apply graph_nodes_built|].
  split; [apply project_node_built|].
  split; [reflexivity|].
  split.
  - intros id node Hin. split.
    + exact (part_id_unique meta ast id node Hin).
    + exact (node_by_id_resolves meta ast now id node Hin).
  - apply part_has_no_parts.
Qed.

End FetchFacts.

(** * Properties of the saved document *)

Module JsonFacts.
Import Json.

(** *** Strings *)

(** Decoding undoes the replacement of one character. *)
Lemma scanstring_escape_char (c : ascii) (t : str) :
  scanstring (escape_char c ++ t)
  = tr <- scanstring t ;; Ok (c :: fst tr, snd tr).
Proof.
  destruct c as [[] [] [] [] [] [] [] []]; reflexivity.
Qed.

Lemma scanstring_escaped (s rest : str) :
  scanstring (flat_map escape_char s ++ quote :: rest) = Ok (s, rest).
Proof.
  induction s as [|c s IH]; simpl.
  - reflexivity.
  - rewrite <- app_assoc, scanstring_escape_char, IH. reflexivity.
Qed.

Lemma encode_basestring_app (s rest : str) :
  encode_basestring s ++ rest
  = quote :: flat_map escape_char s ++ quote :: rest.
Proof.
  unfold encode_basestring. simpl. now rewrite <- app_assoc.
Qed.

(** *** Whitespace *)

Lemma skip_ws_spaces (n : nat) (s : str) :
  skip_ws (repeat " "%char n ++ s) = skip_ws s.
Proof. induction n; simpl; auto. Qed.

Lemma skip_ws_newline_indent (level : nat) (s : str) :
  skip_ws (newline_indent level ++ s) = skip_ws s.
Proof. unfold newline_indent. simpl. apply skip_ws_spaces. Qed.

Lemma skip_ws_head (c : ascii) (s : str) :
  is_ws c = false -> skip_ws (c :: s) = c :: s.
Proof. simpl. now intros ->. Qed.

(** *** Numbers *)

(** What may follow a value in the encoder's output: the end of the text, a
    comma, or a line feed. *)
Definition delimited (rest : str) : bool :=
  match rest with
  | [] => true
  | c :: _ => Ascii.eqb c ","%char || Ascii.eqb c (ascii_of_nat 10)
  end.

Lemma delimited_cases (rest : str) :
  delimited rest = true ->
  rest = [] \/ (exists r, rest = ","%char :: r)
  \/ (exists r, rest = ascii_of_nat 10 :: r).
Proof.
  destruct rest as [|c r]; [auto|]. simpl.
  intros H. apply orb_true_iff in H. right.
  destruct H as [H | H]; apply Ascii.eqb_eq in H; subst; eauto.
Qed.

Lemma span_digits_delimited (rest : str) :
  delimited rest = true -> span_digits rest = (Decimal.Nil, rest).
Proof.
  intros H. destruct (delimited_cases _ H) as [-> | [[r ->] | [r ->]]];
    reflexivity.
Qed.

Lemma span_digits_chars (d : Decimal.uint) (rest : str) :
  delimited rest = true ->
  span_digits (chars_of_uint d ++ rest) = (d, rest).
Proof.
  intros H. induction d; simpl;
    [now apply span_digits_delimited | ..];
    cbn [span_digits chars_of_uint app] in *; rewrite IHd; reflexivity.
Qed.

Lemma no_frac_no_exp (rest : str) :
  delimited rest = true -> (has_frac rest || has_exp rest)%bool = false.
Proof.
  intros H. destruct (delimited_cases _ H) as [-> | [[r ->] | [r ->]]];
    try reflexivity; destruct r; reflexivity.
Qed.

(** The decimal digits of a positive number start with one of 1-9. *)
Lemma to_uint_head (p : positive) :
  match Pos.to_uint p with
  | Decimal.Nil | Decimal.D0 _ => False
  | _ => True
  end.
Proof.
  pose proof (DecimalPos.Unsigned.to_of (Pos.to_uint p)) as Hn.
  rewrite DecimalPos.Unsigned.of_to in Hn. simpl in Hn.
  pose proof (DecimalPos.Unsigned.to_uint_nonnil p) as Hnil.
  pose proof (DecimalPos.Unsigned.to_uint_nonzero p) as Hz.
  destruct (Pos.to_uint p) as [|d|d|d|d|d|d|d|d|d|d] eqn:E; try exact I.
  - congruence.
  - unfold Decimal.unorm in Hn.
    destruct (Decimal.nzhead (Decimal.D0 d)) eqn:N.
    + apply Hz. exact Hn.
    + exact (DecimalFacts.nzhead_nonzero _ _ N).
    + discriminate. + discriminate. + discriminate. + discriminate.
    + discriminate. + discriminate. + discriminate. + discriminate.
    + discriminate.
Qed.

Lemma match_integer_digits
      (c : ascii) (f : Decimal.uint -> Decimal.uint)
      (d : Decimal.uint) (rest : str) :
  digit_of c = Some f ->
  Ascii.eqb c "0"%char = false ->
  Ascii.eqb c "-"%char = false ->
  delimited rest = true ->
  match_integer (c :: chars_of_uint d ++ rest)
  = Some (Z.of_N (N.of_uint (f d)), rest)
  /\ match_integer ("-"%char :: c :: chars_of_uint d ++ rest)
     = Some (- Z.of_N (N.of_uint (f d)), rest).
Proof.
  intros Hd H0 Hm Hr. unfold match_integer.
  assert (Hs : span_digits (c :: chars_of_uint d ++ rest) = (f d, rest)).
  { cbn [span_digits]. rewrite Hd, (span_digits_chars d rest Hr). reflexivity. }
  split.
  - rewrite Hm, H0. unfold is_digit. rewrite Hd, Hs. reflexivity.
  - rewrite Ascii.eqb_refl, H0. unfold is_digit. rewrite Hd, Hs. reflexivity.
Qed.

Ltac read_digits H :=
  lazymatch goal with
  | |- match_integer ("-"%char :: ?c :: chars_of_uint ?d ++ ?rest) = _ =>
      let f := eval cbv in (digit_of c) in
      lazymatch f with
      | Some ?g =>
          rewrite (proj2 (match_integer_digits c g d rest
                            eq_refl eq_refl eq_refl H))
      end
  | |- match_integer (?c :: chars_of_uint ?d ++ ?rest) = _ =>
      let f := eval cbv in (digit_of c) in
      lazymatch f with
      | Some ?g =>
          rewrite (proj1 (match_integer_digits c g d rest
                            eq_refl eq_refl eq_refl H))
      end
  end.

Lemma match_integer_repr (n : Z) (rest : str) :
  delimited rest = true ->
  match_integer (repr_int n ++ rest) = Some (n, rest).
Proof.
  intros H. destruct n as [|p|p]; [reflexivity| |];
    pose proof (to_uint_head p) as Hh;
    pose proof (DecimalPos.Unsigned.of_to p) as Hof;
    unfold repr_int;
    destruct (Pos.to_uint p) as [|d|d|d|d|d|d|d|d|d|d] eqn:E;
    try contradiction;
    cbn [chars_of_uint app];
    read_digits H;
    unfold N.of_uint; rewrite Hof; reflexivity.
Qed.

(** *** Values *)

(** The first character of an encoded number: a digit or the minus sign. *)
Definition number_start (c : ascii) : bool :=
  is_digit c || Ascii.eqb c "-"%char.

Lemma number_start_facts (c : ascii) :
  number_start c = true ->
  Ascii.eqb c quote = false /\ Ascii.eqb c "{"%char = false
  /\ Ascii.eqb c "["%char = false /\ Ascii.eqb "n"%char c = false
  /\ Ascii.eqb "t"%char c = false /\ Ascii.eqb "f"%char c = false
  /\ is_ws c = false /\ Ascii.eqb c "]"%char = false.
Proof.
  destruct c as [[] [] [] [] [] [] [] []]; try discriminate;
    intros _; repeat split.
Qed.

Lemma repr_int_head (n : Z) :
  exists c t, repr_int n = c :: t /\ number_start c = true.
Proof.
  destruct n as [|p|p].
  - exists "0"%char, []. split; reflexivity.
  - pose proof (to_uint_head p) as Hh. unfold repr_int.
    destruct (Pos.to_uint p); try contradiction;
      eexists; eexists; split; reflexivity.
  - eexists; eexists; split; reflexivity.
Qed.

Lemma scan_once_scalar (fuel : nat) (c : ascii) (t : str) :
  Ascii.eqb c quote = false ->
  Ascii.eqb c "{"%char = false ->
  Ascii.eqb c "["%char = false ->
  scan_once (S fuel) (c :: t) = scan_scalar (c :: t).
Proof. intros H1 H2 H3. simpl. now rewrite H1, H2, H3. Qed.

Lemma scan_scalar_integer (c : ascii) (t : str) :
  Ascii.eqb "n"%char c = false ->
  Ascii.eqb "t"%char c = false ->
  Ascii.eqb "f"%char c = false ->
  scan_scalar (c :: t)
  = match match_integer (c :: t) with
    | Some (n, r) =>
        if (has_frac r || has_exp r)%bool then Raise Unmodelled
        else Ok (JNum n, r)
    | None =>
        if (startswith (c :: t) "NaN" || startswith (c :: t) "Infinity"
            || startswith (c :: t) "-Infinity")%bool
        then Raise Unmodelled
        else Raise JSONDecodeError
    end.
Proof.
  intros H1 H2 H3. unfold scan_scalar.
  change (startswith (c :: t) "null")
    with (Ascii.eqb "n"%char c && startswith t "ull")%bool.
  change (startswith (c :: t) "true")
    with (Ascii.eqb "t"%char c && startswith t "rue")%bool.
  change (startswith (c :: t) "false")
    with (Ascii.eqb "f"%char c && startswith t "alse")%bool.
  now rewrite H1, H2, H3.
Qed.

Lemma scan_once_number (fuel : nat) (n : Z) (rest : str) :
  delimited rest = true ->
  scan_once (S fuel) (repr_int n ++ rest) = Ok (JNum n, rest).
Proof.
  intros H. destruct (repr_int_head n) as (c & t & E & Hc).
  destruct (number_start_facts c Hc) as (H1 & H2 & H3 & H4 & H5 & H6 & _).
  pose proof (match_integer_repr n rest H) as Hm.
  rewrite E in *. cbn [app] in *.
  rewrite scan_once_scalar, scan_scalar_integer by assumption.
  now rewrite Hm, (no_frac_no_exp rest H).
Qed.

Lemma scan_once_string (fuel : nat) (s rest : str) :
  scan_once (S fuel) (encode_basestring s ++ rest) = Ok (JStr s, rest).
Proof.
  rewrite encode_basestring_app.
  change (scan_once (S fuel)
            (quote :: flat_map escape_char s ++ quote :: rest))
    with (tr <- scanstring (flat_map escape_char s ++ quote :: rest) ;;
          Ok (JStr (fst tr), snd tr)).
  now rewrite scanstring_escaped.
Qed.

(** The items of a list after the first, each behind its separator. *)
Fixpoint encode_more (level : nat) (l : list json) : str :=
  match l with
  | [] => []
  | y :: l' =>
      ","%char :: newline_indent level ++ encode level y ++ encode_more level l'
  end.

Fixpoint encode_more_pairs (level : nat) (l : list (str * json)) : str :=
  match l with
  | [] => []
  | (k, y) :: l' =>
      ","%char :: newline_indent level ++ encode_basestring k ++ lit ": "
      ++ encode level y ++ encode_more_pairs level l'
  end.

Lemma encode_array (level : nat) (x : json) (xs : list json) :
  encode level (JArr (x :: xs))
  = "["%char :: newline_indent (S level) ++ encode (S level) x
    ++ encode_more (S level) xs ++ newline_indent level ++ lit "]".
Proof.
  cbn [encode]. do 4 f_equal.
  induction xs as [|y l IH]; [reflexivity|].
  cbn [encode_more]. now rewrite IH.
Qed.

Lemma encode_object (level : nat) (k : str) (x : json)
      (ms : list (str * json)) :
  encode level (JObj ((k, x) :: ms))
  = "{"%char :: newline_indent (S level) ++ encode_basestring k ++ lit ": "
    ++ encode (S level) x ++ encode_more_pairs (S level) ms
    ++ newline_indent level ++ lit "}".
Proof.
  cbn [encode]. do 6 f_equal.
  induction ms as [|[k' y] l IH]; [reflexivity|].
  cbn [encode_more_pairs]. now rewrite IH.
Qed.

(** Every encoded value starts with a character that is neither
    whitespace nor a closing bracket. *)
Definition starts_value (s : str) : Prop :=
  exists c t, s = c :: t /\ is_ws c = false /\ Ascii.eqb c "]"%char = false.

Lemma encode_starts (level : nat) (v : json) : starts_value (encode level v).
Proof.
  unfold starts_value.
  destruct v as [|[]|n|s|[|x xs]|[|[k x] ms]];
    try (eexists; eexists; split; [reflexivity | split; reflexivity]).
  destruct (repr_int_head n) as (c & t & E & Hc).
  destruct (number_start_facts c Hc) as (_ & _ & _ & _ & _ & _ & H7 & H8).
  exists c, t. cbn [encode]. auto.
Qed.

Lemma skip_ws_encode (level : nat) (v : json) (rest : str) :
  skip_ws (encode level v ++ rest) = encode level v ++ rest.
Proof.
  destruct (encode_starts level v) as (c & t & E & Hw & _).
  rewrite E. cbn [app]. now apply skip_ws_head.
Qed.

(** *** Well-formed dictionaries *)

Fixpoint distinct (keys : list str) : bool :=
  match keys with
  | [] => true
  | k :: rest => negb (existsb (eqb k) rest) && distinct rest
  end.

(** A value is well formed when no dict in it has a key twice, which holds
    of every Python dict. *)
Fixpoint wf (v : json) : bool :=
  match v with
  | JArr l => forallb wf l
  | JObj ms =>
      distinct (map fst ms)
      && forallb (fun kv : str * json => let (_, x) := kv in wf x) ms
  | _ => true
  end.

Section JsonInduction.

Variable P : json -> Prop.
Hypothesis Hnull : P JNull.
Hypothesis Hbool : forall b, P (JBool b).
Hypothesis Hnum : forall n, P (JNum n).
Hypothesis Hstr : forall s, P (JStr s).
Hypothesis Harr : forall l, Forall P l -> P (JArr l).
Hypothesis Hobj : forall ms, Forall (fun kv => P (snd kv)) ms -> P (JObj ms).

Fixpoint json_induction (v : json) : P v :=
  match v with
  | JNull => Hnull
  | JBool b => Hbool b
  | JNum n => Hnum n
  | JStr s => Hstr s
  | JArr l =>
      Harr l ((fix all (l : list json) : Forall P l :=
               match l with
               | [] => @Forall_nil _ P
               | x :: l' => @Forall_cons _ _ x l' (json_induction x) (all l')
               end) l)
  | JObj ms =>
      Hobj ms ((fix all (ms : list (str * json))
               : Forall (fun kv => P (snd kv)) ms :=
               match ms with
               | [] => @Forall_nil _ _
               | (k, x) :: ms' =>
                   @Forall_cons _ (fun kv => P (snd kv)) (k, x) ms'
                                (json_induction x) (all ms')
               end) ms)
  end.

End JsonInduction.

Lemma dict_set_fresh (d : list (str * json)) (k : str) (v : json) :
  existsb (fun k' => eqb k' k) (map fst d) = false ->
  dict_set d k v = d ++ [(k, v)].
Proof.
  induction d as [|[k' v'] d IH]; simpl; [reflexivity|].
  destruct (eqb k' k); simpl; [discriminate|].
  intros H. now rewrite IH.
Qed.

Lemma distinct_app_fresh (a : list str) (k : str) (b : list str) :
  distinct (a ++ k :: b) = true ->
  existsb (fun k' => eqb k' k) a = false /\ distinct ((a ++ [k]) ++ b) = true.
Proof.
  rewrite <- app_assoc. simpl. intros H. split; [|assumption].
  induction a as [|x a IH]; simpl in *; [reflexivity|].
  apply andb_true_iff in H. destruct H as [Hx Ha].
  rewrite (IH Ha), orb_false_r.
  rewrite existsb_app in Hx. simpl in Hx.
  destruct (eqb x k); [|reflexivity].
  now rewrite orb_true_r in Hx.
Qed.

Lemma dict_of_from (pairs d : list (str * json)) :
  distinct (map fst (d ++ pairs)) = true ->
  fold_left (fun d kv => dict_set d (fst kv) (snd kv)) pairs d = d ++ pairs.
Proof.
  revert d; induction pairs as [|[k v] pairs IH]; intros d H; simpl.
  - now rewrite app_nil_r.
  - rewrite map_app in H. simpl in H.
    apply distinct_app_fresh in H. destruct H as [Hk Hd].
    rewrite dict_set_fresh by assumption.
    rewrite IH.
    + now rewrite <- app_assoc.
    + rewrite !map_app. simpl. exact Hd.
Qed.

Lemma dict_of_distinct (pairs : list (str * json)) :
  distinct (map fst pairs) = true -> dict_of pairs = pairs.
Proof. intros H. unfold dict_of. now rewrite dict_of_from. Qed.

(** *** Decoding what was encoded *)

Lemma parse_values_close
      (fuel : nat) (s : str) (values : list json) (x : json) (r rest : str) :
  scan_once fuel s = Ok (x, r) ->
  skip_ws r = "]"%char :: rest ->
  parse_values (S fuel) s values = Ok (JArr (values ++ [x]), rest).
Proof. intros H1 H2. simpl. rewrite H1. simpl. now rewrite H2. Qed.

Lemma parse_values_next
      (fuel : nat) (s : str) (values : list json) (x : json) (r r' : str) :
  scan_once fuel s = Ok (x, r) ->
  skip_ws r = ","%char :: r' ->
  parse_values (S fuel) s values
  = parse_values fuel (skip_ws r') (values ++ [x]).
Proof. intros H1 H2. simpl. rewrite H1. simpl. now rewrite H2. Qed.

Lemma parse_pairs_close
      (fuel : nat) (s : str) (pairs : list (str * json))
      (k : str) (r1 r2 : str) (x : json) (r3 rest : str) :
  scanstring s = Ok (k, r1) ->
  skip_ws r1 = ":"%char :: r2 ->
  scan_once fuel (skip_ws r2) = Ok (x, r3) ->
  skip_ws r3 = "}"%char :: rest ->
  parse_pairs (S fuel) s pairs = Ok (JObj (dict_of (pairs ++ [(k, x)])), rest).
Proof.
  intros H1 H2 H3 H4. simpl. rewrite H1. simpl. rewrite H2. simpl.
  rewrite H3. simpl. now rewrite H4.
Qed.

Lemma parse_pairs_next
      (fuel : nat) (s : str) (pairs : list (str * json))
      (k : str) (r1 r2 : str) (x : json) (r3 r4 r5 : str) :
  scanstring s = Ok (k, r1) ->
  skip_ws r1 = ":"%char :: r2 ->
  scan_once fuel (skip_ws r2) = Ok (x, r3) ->
  skip_ws r3 = ","%char :: r4 ->
  skip_ws r4 = quote :: r5 ->
  parse_pairs (S fuel) s pairs = parse_pairs fuel r5 (pairs ++ [(k, x)]).
Proof.
  intros H1 H2 H3 H4 H5. simpl. rewrite H1. simpl. rewrite H2. simpl.
  rewrite H3. simpl. rewrite H4. simpl. now rewrite H5.
Qed.

Lemma scan_once_open_array (fuel : nat) (s : str) (c1 : ascii) (s1 : str) :
  skip_ws s = c1 :: s1 ->
  Ascii.eqb c1 "]"%char = false ->
  scan_once (S fuel) ("["%char :: s) = parse_values fuel (c1 :: s1) [].
Proof. intros H1 H2. simpl. now rewrite H1, H2. Qed.

Lemma scan_once_open_object (fuel : nat) (s s1 : str) :
  skip_ws s = quote :: s1 ->
  scan_once (S fuel) ("{"%char :: s) = parse_pairs fuel s1 [].
Proof. intros H1. simpl. now rewrite H1. Qed.

(** The statement proved of every value by induction. *)
Definition decodes (x : json) : Prop :=
  wf x = true ->
  forall level fuel rest,
    (List.length (encode level x) <= fuel)%nat ->
    delimited rest = true ->
    scan_once fuel (encode level x ++ rest) = Ok (x, rest).

Lemma parse_values_encode (lv k : nat) (rest : str) (xs : list json) :
  forall x,
    Forall decodes (x :: xs) ->
    forallb wf (x :: xs) = true ->
    forall fuel values,
      (List.length (encode lv x) + List.length (encode_more lv xs) < fuel)%nat ->
      parse_values fuel
        (encode lv x ++ encode_more lv xs ++ newline_indent k
         ++ "]"%char :: rest) values
      = Ok (JArr (values ++ x :: xs), rest).
Proof.
  induction xs as [|y l IH]; intros x HF Hwf fuel values Hfuel;
    (destruct fuel as [|fuel]; [lia|]);
    inversion HF as [|? ? Hx Hl]; subst;
    cbn [forallb] in Hwf; apply andb_true_iff in Hwf;
    destruct Hwf as [Hwx Hwl].
  - apply parse_values_close with (r := newline_indent k ++ "]"%char :: rest).
    + apply (Hx Hwx lv fuel); [cbn [encode_more List.length] in Hfuel; lia|].
      reflexivity.
    + now rewrite skip_ws_newline_indent.
  - cbn [encode_more] in *.
    rewrite parse_values_next
      with (x := x)
           (r := ","%char :: newline_indent lv ++ encode lv y
                 ++ encode_more lv l ++ newline_indent k ++ "]"%char :: rest)
           (r' := newline_indent lv ++ encode lv y
                  ++ encode_more lv l ++ newline_indent k ++ "]"%char :: rest).
    + rewrite skip_ws_newline_indent, skip_ws_encode.
      rewrite (IH y Hl Hwl fuel (values ++ [x])).
      * now rewrite <- app_assoc.
      * cbn [List.length] in Hfuel. rewrite !List.length_app in Hfuel. lia.
    + replace (encode lv x
               ++ (","%char :: newline_indent lv ++ encode lv y
                   ++ encode_more lv l)
               ++ newline_indent k ++ "]"%char :: rest)
        with (encode lv x
              ++ ","%char :: newline_indent lv ++ encode lv y
                 ++ encode_more lv l ++ newline_indent k ++ "]"%char :: rest)
        by (cbn [app]; now rewrite <- !app_assoc).
      apply (Hx Hwx lv fuel); [lia | reflexivity].
    + reflexivity.
Qed.

Lemma skip_ws_colon (r : str) :
  skip_ws (lit ": " ++ r) = ":"%char :: " "%char :: r.
Proof. reflexivity. Qed.

Lemma skip_ws_space (r : str) : skip_ws (" "%char :: r) = skip_ws r.
Proof. reflexivity. Qed.

Lemma skip_ws_quote (r : str) : skip_ws (quote :: r) = quote :: r.
Proof. reflexivity. Qed.

Lemma parse_pairs_encode
      (lv k0 : nat) (rest : str) (ms : list (str * json)) :
  forall k x,
    Forall (fun kv => decodes (snd kv)) ((k, x) :: ms) ->
    forallb (fun kv : str * json => let (_, y) := kv in wf y) ((k, x) :: ms)
    = true ->
    forall fuel pairs,
      (List.length (encode lv x) + List.length (encode_more_pairs lv ms)
       < fuel)%nat ->
      parse_pairs fuel
        (flat_map escape_char k ++ quote :: lit ": " ++ encode lv x
         ++ encode_more_pairs lv ms ++ newline_indent k0
         ++ "}"%char :: rest) pairs
      = Ok (JObj (dict_of (pairs ++ (k, x) :: ms)), rest).
Proof.
  induction ms as [|[k' y] l IH]; intros k x HF Hwf fuel pairs Hfuel;
    (destruct fuel as [|fuel]; [lia|]);
    inversion HF as [|? ? Hx Hl]; subst; cbn [snd] in Hx;
    cbn [forallb] in Hwf; apply andb_true_iff in Hwf;
    destruct Hwf as [Hwx Hwl].
  - eapply parse_pairs_close.
    + apply scanstring_escaped.
    + apply skip_ws_colon.
    + rewrite skip_ws_space, skip_ws_encode.
      apply (Hx Hwx lv fuel); [cbn [encode_more_pairs List.length] in Hfuel; lia|].
      reflexivity.
    + cbn [encode_more_pairs app]. now rewrite skip_ws_newline_indent.
  - cbn [encode_more_pairs] in *.
    erewrite parse_pairs_next.
    + rewrite (IH k' y Hl Hwl fuel (pairs ++ [(k, x)])).
      * now rewrite <- app_assoc.
      * cbn [List.length] in Hfuel. rewrite !List.length_app in Hfuel. lia.
    + apply scanstring_escaped.
    + apply skip_ws_colon.
    + rewrite skip_ws_space, skip_ws_encode.
      apply (Hx Hwx lv fuel); [lia|].
      reflexivity.
    + cbn [app]. reflexivity.
    + rewrite <- !app_assoc, skip_ws_newline_indent.
      rewrite encode_basestring_app, skip_ws_quote. reflexivity.
Qed.

Lemma newline_indent_length (level : nat) :
  (1 <= List.length (newline_indent level))%nat.
Proof. unfold newline_indent. simpl. lia. Qed.

Lemma decodes_all (v : json) : decodes v.
Proof.
  induction v as [| b | n | s | l IH | ms IH] using json_induction;
    intros Hwf level fuel rest Hfuel Hrest.
  - destruct fuel as [|fuel]; [simpl in Hfuel; lia | reflexivity].
  - destruct fuel as [|fuel]; [destruct b; simpl in Hfuel; lia|].
    destruct b; reflexivity.
  - destruct fuel as [|fuel].
    + destruct (repr_int_head n) as (c & t & E & _).
      cbn [encode] in Hfuel. rewrite E in Hfuel. simpl in Hfuel. lia.
    + now apply scan_once_number.
  - destruct fuel as [|fuel]; [simpl in Hfuel; lia|].
    apply scan_once_string.
  - destruct l as [|x xs].
    + destruct fuel as [|fuel]; [simpl in Hfuel; lia | reflexivity].
    + rewrite encode_array in *. cbn [app List.length] in *.
      destruct fuel as [|fuel]; [lia|].
      rewrite !List.length_app in Hfuel.
      pose proof (newline_indent_length (S level)).
      pose proof (newline_indent_length level).
      destruct (encode_starts (S level) x) as (c & t & E & Hw & Hb).
      rewrite <- !app_assoc.
      set (R := encode_more (S level) xs ++ newline_indent level
                ++ lit "]" ++ rest).
      assert (Hs : skip_ws (newline_indent (S level) ++ encode (S level) x ++ R)
                   = c :: (t ++ R)).
      { rewrite skip_ws_newline_indent, skip_ws_encode, E. reflexivity. }
      rewrite (scan_once_open_array fuel _ c _ Hs Hb).
      change (c :: t ++ R) with ((c :: t) ++ R). rewrite <- E.
      apply (parse_values_encode (S level) level rest xs x IH Hwf fuel []).
      lia.
  - destruct ms as [|[k x] ms].
    + destruct fuel as [|fuel]; [simpl in Hfuel; lia | reflexivity].
    + rewrite encode_object in *. cbn [app List.length] in *.
      destruct fuel as [|fuel]; [lia|].
      rewrite !List.length_app in Hfuel.
      pose proof (newline_indent_length (S level)).
      cbn [wf] in Hwf. apply andb_true_iff in Hwf. destruct Hwf as [Hd Hwf].
      rewrite <- !app_assoc.
      change (lit "}" ++ rest) with ("}"%char :: rest).
      set (R := lit ": " ++ encode (S level) x
                ++ encode_more_pairs (S level) ms ++ newline_indent level
                ++ "}"%char :: rest).
      assert (Hs : skip_ws (newline_indent (S level)
                            ++ encode_basestring k ++ R)
                   = quote :: flat_map escape_char k ++ quote :: R).
      { rewrite skip_ws_newline_indent, encode_basestring_app.
        apply skip_ws_quote. }
      rewrite (scan_once_open_object fuel _ _ Hs).
      unfold R.
      rewrite (parse_pairs_encode (S level) level rest ms k x IH Hwf fuel []);
        [|lia].
      cbn [app]. now rewrite (dict_of_distinct _ Hd).
Qed.

(** Loading what [json.dump] wrote gives back the value that was dumped. *)
Lemma loads_dumps (v : json) : wf v = true -> loads (dumps v) = Ok v.
Proof.
  intros Hwf. unfold loads, dumps.
  destruct (encode_starts 0 v) as (c & t & E & Hw & _).
  assert (Hs : skip_ws (encode 0 v) = encode 0 v).
  { rewrite E. now apply skip_ws_head. }
  rewrite Hs. rewrite <- (app_nil_r (encode 0 v)) at 2.
  rewrite (decodes_all v Hwf 0%nat (S (2 * List.length (encode 0 v))) []);
    [reflexivity | lia | reflexivity].
Qed.

(** *** The nesting budget of the decoder *)

Lemma skip_ws_length (s : str) :
  (List.length (skip_ws s) <= List.length s)%nat.
Proof.
  induction s as [|c s IH]; simpl; [lia|].
  destruct (is_ws c); simpl; lia.
Qed.

Lemma scanstring_shorter (s : str) :
  scanstring s <> Raise RecursionError
  /\ forall k r, scanstring s = Ok (k, r) ->
                 (List.length r < List.length s)%nat.
Proof.
  induction s as [s IH] using (induction_ltof1 _ (@List.length ascii)).
  unfold ltof in IH.
  destruct s as [|c s]; [split; [discriminate | discriminate]|].
  cbn [scanstring].
  destruct (Ascii.eqb c quote).
  { split; [discriminate|]. intros k r [= <- <-]. simpl. lia. }
  destruct (Ascii.eqb c backslash).
  - destruct s as [|esc s]; [split; discriminate|].
    destruct (Ascii.eqb esc "u"%char).
    + destruct s as [|h1 [|h2 [|h3 [|h4 s]]]]; try (split; discriminate).
      destruct (decode_uXXXX h1 h2 h3 h4) as [uni|]; [|split; discriminate].
      destruct (uni <? 256); [|split; discriminate].
      destruct (IH s) as [Hn Hl]; [simpl; lia|].
      destruct (scanstring s) as [[k' r']|e] eqn:E; simpl.
      * split; [discriminate|]. intros k r [= <- <-].
        specialize (Hl _ _ eq_refl). simpl. lia.
      * split; [congruence | discriminate].
    + destruct (unescape esc); [|split; discriminate].
      destruct (IH s) as [Hn Hl]; [simpl; lia|].
      destruct (scanstring s) as [[k' r']|e] eqn:E; simpl.
      * split; [discriminate|]. intros k r [= <- <-].
        specialize (Hl _ _ eq_refl). simpl. lia.
      * split; [congruence | discriminate].
  - destruct (code c <? 32); [split; discriminate|].
    destruct (IH s) as [Hn Hl]; [simpl; lia|].
    destruct (scanstring s) as [[k' r']|e] eqn:E; simpl.
    + split; [discriminate|]. intros k r [= <- <-].
      specialize (Hl _ _ eq_refl). simpl. lia.
    + split; [congruence | discriminate].
Qed.

Lemma span_digits_length (s : str) :
  (List.length (snd (span_digits s)) <= List.length s)%nat.
Proof.
  induction s as [|c s IH]; simpl; [lia|].
  destruct (digit_of c); [|simpl; lia].
  destruct (span_digits s) as [ds r]. simpl in *. lia.
Qed.

Lemma match_integer_shorter (s : str) (n : Z) (r : str) :
  match_integer s = Some (n, r) -> (List.length r < List.length s)%nat.
Proof.
  unfold match_integer.
  assert (G : forall (negative : bool) (s1 : str),
             (List.length s1 <= List.length s)%nat ->
             match s1 with
             | [] => None
             | c :: r0 =>
                 if Ascii.eqb c "0"%char then Some (0, r0)
                 else if is_digit c
                      then let (ds, r') := span_digits s1 in
                           Some (if negative then - Z.of_N (N.of_uint ds)
                                 else Z.of_N (N.of_uint ds), r')
                      else None
             end = Some (n, r) ->
             (List.length r < List.length s)%nat).
  { intros negative [|c r0] Hle; [discriminate|].
    destruct (Ascii.eqb c "0"%char).
    - intros [= <- <-]. simpl in Hle. lia.
    - destruct (is_digit c) eqn:D; [|discriminate].
      pose proof (span_digits_length r0) as Hs.
      unfold is_digit in D. cbn [span_digits].
      destruct (digit_of c); [|discriminate].
      destruct (span_digits r0) as [ds r']. intros [= <- <-].
      simpl in *. lia. }
  destruct s as [|c s']; [discriminate|].
  destruct (Ascii.eqb c "-"%char); intros H.
  - apply (G true s'); [simpl; lia | exact H].
  - apply (G false (c :: s')); [lia | exact H].
Qed.

Lemma startswith_length (s p : str) :
  startswith s p = true -> (List.length p <= List.length s)%nat.
Proof.
  revert s; induction p as [|a p IH]; intros [|b s]; simpl;
    try discriminate; try lia.
  intros H. apply andb_true_iff in H. destruct H as [_ H].
  apply IH in H. lia.
Qed.

Lemma drop_length (n : nat) (s : str) :
  (n <= List.length s)%nat ->
  (List.length (drop n s) + n = List.length s)%nat.
Proof.
  revert s; induction n as [|n IH]; intros [|c s]; simpl; try lia.
  intros H. specialize (IH s). lia.
Qed.

Lemma scan_scalar_shorter (s : str) :
  scan_scalar s <> Raise RecursionError
  /\ forall v r, scan_scalar s = Ok (v, r) ->
                 (List.length r < List.length s)%nat.
Proof.
  unfold scan_scalar.
  destruct (startswith s "null") eqn:E1.
  { apply startswith_length in E1. split; [discriminate|].
    pose proof (drop_length 4 s E1) as Hd.
    remember (drop 4 s) as d. intros v r [= <- <-]. lia. }
  destruct (startswith s "true") eqn:E2.
  { apply startswith_length in E2. split; [discriminate|].
    pose proof (drop_length 4 s E2) as Hd.
    remember (drop 4 s) as d. intros v r [= <- <-]. lia. }
  destruct (startswith s "false") eqn:E3.
  { apply startswith_length in E3. split; [discriminate|].
    pose proof (drop_length 5 s E3) as Hd.
    remember (drop 5 s) as d. intros v r [= <- <-]. lia. }
  destruct (match_integer s) as [[n r']|] eqn:M.
  - apply match_integer_shorter in M.
    destruct (has_frac r' || has_exp r')%bool; split; try discriminate.
    intros v r [= <- <-]. exact M.
  - destruct (startswith s "NaN" || startswith s "Infinity"
              || startswith s "-Infinity")%bool; split; discriminate.
Qed.

(** With a budget above twice the length of its input, no part of the
    decoder runs out of budget, and what it leaves unread is shorter than
    its input. *)
Lemma decoder_within_budget (fuel : nat) :
  (forall s, (2 * List.length s < fuel)%nat ->
             scan_once fuel s <> Raise RecursionError
             /\ forall v r, scan_once fuel s = Ok (v, r) ->
                            (List.length r < List.length s)%nat)
  /\ (forall s values, (2 * List.length s + 1 < fuel)%nat ->
             parse_values fuel s values <> Raise RecursionError
             /\ forall v r, parse_values fuel s values = Ok (v, r) ->
                            (List.length r < List.length s)%nat)
  /\ (forall s pairs, (2 * List.length s + 1 < fuel)%nat ->
             parse_pairs fuel s pairs <> Raise RecursionError
             /\ forall v r, parse_pairs fuel s pairs = Ok (v, r) ->
                            (List.length r < List.length s)%nat).
Proof.
  induction fuel as [|fuel (IHv & IHa & IHp)].
  { repeat split; intros; lia. }
  split; [|split].
  - intros [|c s] Hf; [split; discriminate|].
    cbn [scan_once]. simpl in Hf.
    destruct (Ascii.eqb c quote).
    { destruct (scanstring_shorter s) as [Hn Hl].
      destruct (scanstring s) as [[k r']|e] eqn:E; simpl.
      - split; [discriminate|]. intros v r [= <- <-].
        specialize (Hl _ _ eq_refl). simpl. lia.
      - split; [congruence | discriminate]. }
    destruct (Ascii.eqb c "{"%char).
    { pose proof (skip_ws_length s) as Hs.
      destruct (skip_ws s) as [|c1 s1]; [split; discriminate|].
      simpl in Hs.
      destruct (Ascii.eqb c1 "}"%char).
      - split; [discriminate|]. intros v r [= <- <-]. simpl. lia.
      - destruct (Ascii.eqb c1 quote); [|split; discriminate].
        destruct (IHp s1 [] ltac:(lia)) as [Hn Hl].
        split; [assumption|]. intros v r H. apply Hl in H. simpl. lia. }
    destruct (Ascii.eqb c "["%char).
    { pose proof (skip_ws_length s) as Hs.
      destruct (skip_ws s) as [|c1 s1]; [split; discriminate|].
      simpl in Hs.
      destruct (Ascii.eqb c1 "]"%char).
      - split; [discriminate|]. intros v r [= <- <-]. simpl. lia.
      - destruct (IHa (c1 :: s1) [] ltac:(simpl; lia)) as [Hn Hl].
        split; [assumption|]. intros v r H. apply Hl in H. simpl in *. lia. }
    apply scan_scalar_shorter.
  - intros s values Hf. cbn [parse_values].
    destruct (IHv s ltac:(lia)) as [Hn Hl].
    destruct (scan_once fuel s) as [[x r1]|e] eqn:E; simpl;
      [|split; [congruence | discriminate]].
    specialize (Hl _ _ eq_refl).
    pose proof (skip_ws_length r1) as Hs.
    destruct (skip_ws r1) as [|c r2]; [split; discriminate|].
    simpl in Hs.
    destruct (Ascii.eqb c "]"%char).
    { split; [discriminate|]. intros v r [= <- <-]. lia. }
    destruct (Ascii.eqb c ","%char); [|split; discriminate].
    pose proof (skip_ws_length r2) as Hs2.
    destruct (IHa (skip_ws r2) (values ++ [x]) ltac:(lia)) as [Hn2 Hl2].
    split; [assumption|]. intros v r H. apply Hl2 in H. lia.
  - intros s pairs Hf. cbn [parse_pairs].
    destruct (scanstring_shorter s) as [Hn Hl].
    destruct (scanstring s) as [[k r1]|e] eqn:E; simpl;
      [|split; [congruence | discriminate]].
    specialize (Hl _ _ eq_refl).
    pose proof (skip_ws_length r1) as Hs.
    destruct (skip_ws r1) as [|c r2]; [split; discriminate|].
    simpl in Hs.
    destruct (Ascii.eqb c ":"%char); [|split; discriminate].
    pose proof (skip_ws_length r2) as Hs2.
    destruct (IHv (skip_ws r2) ltac:(lia)) as [Hnv Hlv].
    destruct (scan_once fuel (skip_ws r2)) as [[x r3]|e] eqn:E2; simpl;
      [|split; [congruence | discriminate]].
    specialize (Hlv _ _ eq_refl).
    pose proof (skip_ws_length r3) as Hs3.
    destruct (skip_ws r3) as [|c' r4]; [split; discriminate|].
    simpl in Hs3.
    destruct (Ascii.eqb c' "}"%char).
    { split; [discriminate|]. intros v r [= <- <-]. lia. }
    destruct (Ascii.eqb c' ","%char); [|split; discriminate].
    pose proof (skip_ws_length r4) as Hs4.
    destruct (skip_ws r4) as [|q r5]; [split; discriminate|].
    simpl in Hs4.
    destruct (Ascii.eqb q quote); [|split; discriminate].
    destruct (IHp r5 (pairs ++ [(k, x)]) ltac:(lia)) as [Hn5 Hl5].
    split; [assumption|]. intros v r H. apply Hl5 in H. lia.
Qed.

(** [loads] never runs out of its budget. *)
Lemma loads_within_budget (text : str) :
  loads text <> Raise RecursionError.
Proof.
  unfold loads.
  pose proof (skip_ws_length text) as Hs.
  destruct (decoder_within_budget (S (2 * List.length text)))
    as (Hv & _ & _).
  destruct (Hv (skip_ws text) ltac:(lia)) as [Hn _].
  destruct (scan_once (S (2 * List.length text)) (skip_ws text))
    as [[v r]|e]; simpl.
  - destruct (skip_ws r); discriminate.
  - congruence.
Qed.

End JsonFacts.

(** * Properties of the two programs *)

Module CliFacts.
Import Fetch Query Json Cli QueryFacts FetchFacts JsonFacts.

(** *** The built document is a well-formed value *)

Lemma wf_strings (l : list str) : wf (strings l) = true.
Proof. unfold strings. cbn [wf]. induction l; simpl; auto. Qed.

Lemma wf_list_items (names : list str) :
  forall i, forallb wf (list_items i names) = true.
Proof. induction names as [|f l IH]; intros i; simpl; auto. Qed.

Lemma wf_resolved_description (meta : metadata) (ast : SyntaxTree) :
  wf (resolved_description meta ast) = true.
Proof.
  unfold resolved_description.
  destruct (description meta) as [[|c d]|];
    try reflexivity; destruct (first_para_after_title ast); reflexivity.
Qed.

Lemma wf_project (meta : metadata) (ast : SyntaxTree) :
  wf (project meta ast) = true.
Proof.
  unfold project, project_members. cbn [wf map fst].
  apply andb_true_iff. split; [reflexivity|].
  cbn [forallb]. rewrite wf_resolved_description, wf_strings.
  unfold py_or. destruct (truthy (strings (topics meta)));
    rewrite ?wf_strings;
    destruct (language meta); destruct (license meta); reflexivity.
Qed.

Lemma wf_parts (meta : metadata) (ast : SyntaxTree) :
  forallb wf (map snd (parts meta ast)) = true.
Proof.
  unfold parts, when_nonempty, howto_part, itemlist_part.
  destruct (find_install_cmds ast) as [|c cs];
    destruct (list_after_heading ast [lit "feature"; lit "key feature"])
      as [|f fs];
    destruct (list_after_heading ast
                [lit "supported platform"; lit "compatibility"]) as [|p ps];
    cbn [app map snd forallb wf fst];
    rewrite ?wf_strings, ?wf_list_items; reflexivity.
Qed.

Lemma wf_build_jsonld (meta : metadata) (ast : SyntaxTree) (now : str) :
  wf (build_jsonld meta ast now) = true.
Proof.
  rewrite build_jsonld_shape. unfold graph. cbn [wf map fst forallb].
  rewrite wf_project, wf_parts. reflexivity.
Qed.

Lemma write_text_same (fs : files) (path text : str) :
  write_text fs path text path = Some text.
Proof. unfold write_text. now rewrite eqb_refl. Qed.

(** C7. For every metadata record, document tree, timestamp and output
    path: the file that fetch.py writes loads, in query.py, to a document
    equal to the one that was built, with the same nodes in the same order
    and the same members, null or not, in each; so the project node found
    in the reloaded document has the name, the description and the hasPart
    ids that were built, the reloaded graph is the Project node followed by
    the same auxiliary nodes, and query.py goes on to retrieve from that
    document. *)
Theorem saved_graph_round_trip
  (fs : files) (meta : metadata) (ast : SyntaxTree) (now out question : str) :
  let doc := build_jsonld meta ast now in
  let saved := fetch_main fs meta ast now out in
  exists text reloaded p,
    saved out = Some text
    /\ text = dumps doc
    /\ loads text = Ok reloaded
    /\ reloaded = doc
    /\ project_node reloaded = Ok p
    /\ py_get p "name" JNull = Ok (JStr (name meta))
    /\ py_get p "description" JNull = Ok (resolved_description meta ast)
    /\ py_get p "hasPart" (JArr []) = Ok (strings (map fst (parts meta ast)))
    /\ graph_nodes reloaded = Ok (JArr (p :: map snd (parts meta ast)))
    /\ query_main saved question out
       = ([Loads text; Retrieve doc], retrieve question doc).
Proof.
  intros doc saved.
  exists (dumps doc), doc, (project meta ast).
  assert (Hload : loads (dumps doc) = Ok doc)
    by apply loads_dumps, wf_build_jsonld.
  assert (Hsaved : saved out = Some (dumps doc)) by apply write_text_same.
  split; [assumption|]. split; [reflexivity|]. split; [assumption|].
  split; [reflexivity|].
  split; [apply project_node_built|].
  split; [reflexivity|]. split; [reflexivity|]. split; [reflexivity|].
  split; [apply graph_nodes_built|].
  unfold query_main. now rewrite Hsaved, Hload.
Qed.

(** *** Retrieval from a built document *)

Lemma strings_of_strings (l : list str) : strings_of (map JStr l) = Ok l.
Proof. induction l as [|s l IH]; simpl; [reflexivity|]. now rewrite IH. Qed.

Lemma py_join_strings (sep : str) (l : list str) :
  py_join sep (strings l) = Ok (JStr (join sep l)).
Proof. unfold py_join, strings. simpl. now rewrite strings_of_strings. Qed.

Lemma item_names_list_items (l : list str) :
  forall i, item_names (list_items i l) = map JStr l.
Proof. induction l as [|f l IH]; intros i; simpl; [reflexivity|]. now rewrite IH. Qed.

Lemma install_node_built (meta : metadata) (ast : SyntaxTree) (now : str) :
  install_node (build_jsonld meta ast now)
  = Ok (match find_install_cmds ast with
        | [] => JObj []
        | cmds => snd (howto_part meta cmds)
        end).
Proof.
  unfold install_node. rewrite project_node_built. cbn [bind].
  change (py_get (project meta ast) "hasPart" (JArr []))
    with (Ok (strings (map fst (parts meta ast)))).
  cbn [bind]. unfold strings. cbn [py_iter bind].
  pose proof (node_by_id_resolves meta ast now) as H.
  revert H. generalize (build_jsonld meta ast now) as doc. intros doc H.
  by_parts ast; cbn [install_node_from];
    rewrite ?(H _ _ (or_introl eq_refl)),
            ?(H _ _ (or_intror (or_introl eq_refl))),
            ?(H _ _ (or_intror (or_intror (or_introl eq_refl))));
    reflexivity.
Qed.

Lemma example_nodes_built (meta : metadata) (ast : SyntaxTree) (now : str) :
  example_nodes (build_jsonld meta ast now) = Ok [].
Proof.
  unfold example_nodes. rewrite project_node_built. cbn [bind].
  change (py_get (project meta ast) "hasPart" (JArr []))
    with (Ok (strings (map fst (parts meta ast)))).
  cbn [bind]. unfold strings. cbn [py_iter bind].
  pose proof (node_by_id_resolves meta ast now) as H.
  revert H. generalize (build_jsonld meta ast now) as doc. intros doc H.
  by_parts ast; cbn [example_nodes_from];
    rewrite ?(H _ _ (or_introl eq_refl)),
            ?(H _ _ (or_intror (or_introl eq_refl))),
            ?(H _ _ (or_intror (or_intror (or_introl eq_refl))));
    reflexivity.
Qed.

Lemma itemlist_by_name_built (meta : metadata) (ast : SyntaxTree) (now : str) :
  itemlist_by_name (build_jsonld meta ast now) "feature"
  = Ok (match list_after_heading ast [lit "feature"; lit "key feature"] with
        | [] => JObj []
        | items => snd (itemlist_part meta "#features" "Key Features" items)
        end)
  /\ itemlist_by_name (build_jsonld meta ast now) "platform"
     = Ok (match list_after_heading ast
                   [lit "supported platform"; lit "compatibility"] with
           | [] => JObj []
           | items =>
               snd (itemlist_part meta "#supported-platforms"
                      "Supported Platforms" items)
           end).
Proof.
  unfold itemlist_by_name. rewrite graph_nodes_built. cbn [bind py_iter].
  by_parts ast; split; reflexivity.
Qed.

Lemma itemlist_text_of (n : json) (doc : json) (keyword : str) (items : list str) :
  itemlist_by_name doc keyword = Ok n ->
  py_get n "itemListElement" (JArr []) = Ok (JArr (list_items 0 items)) ->
  itemlist_text doc keyword = Ok (JStr (join newline items)).
Proof.
  intros H1 H2. unfold itemlist_text. rewrite H1. cbn [bind]. rewrite H2.
  cbn [bind py_iter]. rewrite item_names_list_items.
  apply (py_join_strings newline items).
Qed.

(** What each registry field reads from a built document. *)
Definition built_fields (meta : metadata) (ast : SyntaxTree) : list json :=
  [ JStr (name meta);
    resolved_description meta ast;
    JStr (join newline (find_install_cmds ast));
    JStr (join newline
            (list_after_heading ast [lit "feature"; lit "key feature"]));
    JStr (join newline
            (list_after_heading ast
               [lit "supported platform"; lit "compatibility"]));
    JStr [];
    JStr (match license meta with
          | Some spdx_id =>
              lit "https://spdx.org/licenses/" ++ spdx_id ++ lit ".html"
          | None => []
          end);
    JStr (join ", " (topics meta)) ].

Lemma fields_built (meta : metadata) (ast : SyntaxTree) (now : str) :
  Forall2 (fun field v => snd field (build_jsonld meta ast now) = Ok v)
          FIELDS (built_fields meta ast).
Proof.
  destruct (itemlist_by_name_built meta ast now) as [Hf Hp].
  unfold FIELDS, built_fields.
  repeat constructor; cbn [snd].
  - rewrite project_node_built. reflexivity.
  - rewrite project_node_built. reflexivity.
  - rewrite install_node_built. cbn [bind].
    destruct (find_install_cmds ast) as [|c cs]; [reflexivity|].
    change (py_get (snd (howto_part meta (c :: cs))) "tool" (JArr []))
      with (Ok (strings (c :: cs))).
    cbn [bind]. apply (py_join_strings newline (c :: cs)).
  - eapply itemlist_text_of; [exact Hf|].
    destruct (list_after_heading ast [lit "feature"; lit "key feature"]);
      reflexivity.
  - eapply itemlist_text_of; [exact Hp|].
    destruct (list_after_heading ast
                [lit "supported platform"; lit "compatibility"]);
      reflexivity.
  - rewrite example_nodes_built. reflexivity.
  - rewrite project_node_built. cbn [bind].
    unfold project, project_members.
    destruct (license meta); reflexivity.
  - rewrite project_node_built. cbn [bind].
    change (py_get (project meta ast) "applicationCategory" (JArr []))
      with (Ok (py_or (strings (topics meta)) JNull)).
    cbn [bind]. destruct (topics meta) as [|t ts]; [reflexivity|].
    apply (py_join_strings ", " (t :: ts)).
Qed.

Lemma gather_values (doc : json) (fields : list (str * (json -> result json)))
      (values : list json) :
  Forall2 (fun field v => snd field doc = Ok v) fields values ->
  gather fields doc
  = Ok (filter (fun chunk => truthy (snd chunk))
               (combine (map fst fields) values)).
Proof.
  induction 1 as [|[label getter] v fields values Hv _ IH]; [reflexivity|].
  cbn [gather map fst combine filter snd] in *. rewrite Hv. cbn [bind].
  destruct (truthy v); rewrite IH; reflexivity.
Qed.

(** The chunks the retriever gathers from a built document: the registry
    fields that are not empty, each a text. *)
Definition built_chunks (meta : metadata) (ast : SyntaxTree)
  : list (str * json) :=
  filter (fun chunk => truthy (snd chunk))
         (combine (map fst FIELDS) (built_fields meta ast)).

Lemma gather_built (meta : metadata) (ast : SyntaxTree) (now : str) :
  gather FIELDS (build_jsonld meta ast now) = Ok (built_chunks meta ast).
Proof. apply gather_values, fields_built. Qed.

Lemma built_chunks_texts (meta : metadata) (ast : SyntaxTree) :
  forall label content,
    In (label, content) (built_chunks meta ast) ->
    exists text, content = JStr text.
Proof.
  intros label content Hin. unfold built_chunks in Hin.
  apply filter_In in Hin. destruct Hin as [Hin Ht]. cbn [snd] in Ht.
  unfold built_fields, FIELDS in Hin. cbn [map fst combine In] in Hin.
  repeat (destruct Hin as [[= <- <-] | Hin]); try contradiction; eauto.
  unfold resolved_description in *.
  destruct (description meta) as [[|c d]|]; eauto;
    destruct (first_para_after_title ast); simpl in Ht;
    try discriminate; simpl; eauto.
Qed.

(** From building to answering: whenever the project has a name, the query
    over the saved file prints an answer taken from one of the registry
    fields of the built document. *)
Lemma saved_graph_answers
      (fs : files) (meta : metadata) (ast : SyntaxTree)
      (now out question : str) :
  name meta <> [] ->
  exists calls label text,
    In (label, JStr text) (built_chunks meta ast)
    /\ query_main (fetch_main fs meta ast now out) question out
       = (calls, Answer label (shown label text)).
Proof.
  intros Hname.
  set (doc := build_jsonld meta ast now).
  assert (Hne : built_chunks meta ast <> []).
  { unfold built_chunks, built_fields, FIELDS.
    cbn [map fst combine filter snd truthy].
    destruct (name meta); [contradiction | discriminate]. }
  destruct (retrieve_answers question doc (built_chunks meta ast)
              (gather_built meta ast now) Hne (built_chunks_texts meta ast))
    as (label & text & Hin & Hr).
  exists [Loads (dumps doc); Retrieve doc], label, text.
  split; [assumption|].
  unfold query_main, fetch_main. rewrite write_text_same.
  fold doc. rewrite (loads_dumps doc (wf_build_jsonld meta ast now)).
  now rewrite Hr.
Qed.

(** *** A graph file that is missing or malformed *)

(** C3 (amended). For every run of query.py: when the graph file does not
    exist, the run reports that the file cannot be found, without calling
    the decoder or the retriever; when the file exists and the decoder
    rejects its text, the run ends with the decoder's exception, after the
    one call to the decoder and without calling the retriever. *)
Theorem query_main_missing_or_malformed
  (fs : files) (question file : str) :
  (fs file = None -> query_main fs question file = ([], CantFind file))
  /\ (forall text,
         fs file = Some text ->
         loads text = Raise JSONDecodeError ->
         query_main fs question file
         = ([Loads text], Uncaught JSONDecodeError)).
Proof.
  unfold query_main. split.
  - intros ->. reflexivity.
  - intros text -> ->. reflexivity.
Qed.

(** No file at all. *)
Definition no_files : files := fun _ => None.

(** A graph file that holds an opening brace and nothing else. *)
Definition truncated_file : files :=
  write_text no_files "project_knowledge.jsonld" "{".

Lemma query_main_missing_or_malformed_witness :
  query_main no_files "How do I install this?" "project_knowledge.jsonld"
  = ([], CantFind "project_knowledge.jsonld")
  /\ query_main truncated_file "How do I install this?"
       "project_knowledge.jsonld"
     = ([Loads "{"], Uncaught JSONDecodeError).
Proof.
  split.
  - exact (proj1 (query_main_missing_or_malformed no_files
                    "How do I install this?" "project_knowledge.jsonld")
                 eq_refl).
  - exact (proj2 (query_main_missing_or_malformed truncated_file
                    "How do I install this?" "project_knowledge.jsonld")
                 "{" eq_refl eq_refl).
Defined.

(** C3 (as claimed) fails: a malformed file is handed to the decoder and
    is not reported as a file that cannot be found. *)
Lemma malformed_file_is_parsed :
  truncated_file "project_knowledge.jsonld" = Some (lit "{")
  /\ loads "{" = Raise JSONDecodeError
  /\ query_main truncated_file "How do I install this?"
       "project_knowledge.jsonld"
     = ([Loads "{"], Uncaught JSONDecodeError)
  /\ query_main truncated_file "How do I install this?"
       "project_knowledge.jsonld"
     <> ([], CantFind "project_knowledge.jsonld").
Proof.
  repeat split. discriminate.
Qed.

End CliFacts.

(** * Further properties of the string operations *)

Module StrFacts.

(** *** Lower case *)

Lemma isspace_lower_char (c : ascii) : isspace (lower_char c) = isspace c.
Proof. destruct c as [[] [] [] [] [] [] [] []]; reflexivity. Qed.

Lemma lower_char_idempotent (c : ascii) :
  lower_char (lower_char c) = lower_char c.
Proof. destruct c as [[] [] [] [] [] [] [] []]; reflexivity. Qed.

Lemma lower_idempotent (s : str) : lower (lower s) = lower s.
Proof.
  unfold lower. rewrite map_map. apply map_ext. apply lower_char_idempotent.
Qed.

Lemma split_ws_from_lower (s : str) :
  forall cur,
    split_ws_from (lower cur) (lower s) = map lower (split_ws_from cur s).
Proof.
  induction s as [|c s IH]; intros cur; simpl.
  - destruct cur; reflexivity.
  - rewrite isspace_lower_char. destruct (isspace c).
    + destruct cur; simpl; rewrite <- (IH []); reflexivity.
    + rewrite <- IH. unfold lower. now rewrite map_app.
Qed.

Lemma split_ws_lower (s : str) :
  split_ws (lower s) = map lower (split_ws s).
Proof. apply (split_ws_from_lower s []). Qed.

(** *** Substrings *)

Lemma startswith_cons (x a : ascii) (s p : str) :
  startswith (x :: s) (a :: p) = (Ascii.eqb a x && startswith s p)%bool.
Proof. reflexivity. Qed.

Lemma startswith_iff (s p : str) :
  startswith s p = true <-> exists b, s = p ++ b.
Proof.
  revert s; induction p as [|a p IH]; intros s; simpl.
  - split; eauto.
  - destruct s as [|c s].
    + split; [discriminate | intros [b H]; discriminate].
    + rewrite andb_true_iff, Ascii.eqb_eq, IH. split.
      * intros [-> [b ->]]. eauto.
      * intros [b [= -> ->]]. eauto.
Qed.

Lemma contains_iff (s k : str) :
  contains s k = true <-> exists a b, s = a ++ k ++ b.
Proof.
  induction s as [|c s IH].
  - simpl. rewrite orb_false_r, startswith_iff. split.
    + intros [b H]. exists [], b. exact H.
    + intros (a & b & H). destruct a; [eauto|discriminate].
  - change (contains (c :: s) k)
      with (startswith (c :: s) k || contains s k)%bool.
    rewrite orb_true_iff, startswith_iff, IH. split.
    + intros [[b H] | (a & b & H)].
      * exists [], b. exact H.
      * exists (c :: a), b. simpl. now rewrite H.
    + intros ([|x a] & b & H).
      * left. eauto.
      * right. injection H as -> ->. eauto.
Qed.

Lemma contains_false_iff (s k : str) :
  contains s k = false <-> forall a b, s <> a ++ k ++ b.
Proof.
  split.
  - intros H a b E.
    assert (contains s k = true) by (apply contains_iff; eauto). congruence.
  - intros H. destruct (contains s k) eqn:E; [|reflexivity].
    apply contains_iff in E. destruct E as (a & b & E). now apply H in E.
Qed.

(** *** Trimming *)

Definition all_space (s : str) : Prop := Forall (fun c => isspace c = true) s.

(** A text without whitespace at either end. *)
Definition stripped (s : str) : Prop :=
  (forall c t, s = c :: t -> isspace c = false)
  /\ (forall t c, s = t ++ [c] -> isspace c = false).

Lemma lstrip_split (s : str) : exists a, s = a ++ lstrip s /\ all_space a.
Proof.
  induction s as [|c s (a & E & Ha)]; simpl.
  - exists []. split; [reflexivity | constructor].
  - destruct (isspace c) eqn:W.
    + exists (c :: a). split; [simpl; now rewrite <- E | now constructor].
    + exists []. split; [reflexivity | constructor].
Qed.

Lemma lstrip_head (s : str) (c : ascii) (t : str) :
  lstrip s = c :: t -> isspace c = false.
Proof.
  induction s as [|x s IH]; simpl; [discriminate|].
  destruct (isspace x) eqn:W; [assumption|].
  intros [= <- <-]. exact W.
Qed.

Lemma lstrip_fixed (s : str) :
  (forall c t, s = c :: t -> isspace c = false) -> lstrip s = s.
Proof.
  destruct s as [|c t]; [reflexivity|]. intros H. simpl.
  now rewrite (H c t eq_refl).
Qed.

Lemma rstrip_split (s : str) : exists b, s = rstrip s ++ b /\ all_space b.
Proof.
  unfold rstrip. destruct (lstrip_split (rev s)) as (a & E & Ha).
  exists (rev a). split.
  - rewrite <- rev_app_distr, <- E. now rewrite rev_involutive.
  - unfold all_space in *. apply Forall_forall. intros c Hc.
    apply in_rev in Hc. rewrite Forall_forall in Ha. now apply Ha.
Qed.

Lemma rstrip_last (s t : str) (c : ascii) :
  rstrip s = t ++ [c] -> isspace c = false.
Proof.
  unfold rstrip. intros H.
  apply (f_equal (@rev ascii)) in H.
  rewrite rev_involutive, rev_app_distr in H. simpl in H.
  eapply lstrip_head. exact H.
Qed.

Lemma rstrip_fixed (s : str) :
  (forall t c, s = t ++ [c] -> isspace c = false) -> rstrip s = s.
Proof.
  intros H. unfold rstrip. rewrite lstrip_fixed.
  - apply rev_involutive.
  - intros c t E. apply (H (rev t) c).
    rewrite <- (rev_involutive s), E. reflexivity.
Qed.

(** [s.strip()] removes whitespace, and only whitespace, from both ends. *)
Lemma strip_split (s : str) :
  exists a b, s = a ++ strip s ++ b /\ all_space a /\ all_space b.
Proof.
  unfold strip. destruct (lstrip_split s) as (a & Ea & Ha).
  destruct (rstrip_split (lstrip s)) as (b & Eb & Hb).
  exists a, b. split; [|split; assumption].
  rewrite <- Eb. exact Ea.
Qed.

Lemma strip_stripped (s : str) : stripped (strip s).
Proof.
  unfold strip. split.
  - intros c t E.
    destruct (rstrip_split (lstrip s)) as (b & Eb & _).
    rewrite E in Eb. simpl in Eb. eapply lstrip_head. exact Eb.
  - intros t c E. eapply rstrip_last. exact E.
Qed.

Lemma strip_fixed (s : str) : stripped s -> strip s = s.
Proof.
  intros [Hh Hl]. unfold strip. rewrite (lstrip_fixed s Hh).
  now apply rstrip_fixed.
Qed.

Lemma strip_idempotent (s : str) : strip (strip s) = strip s.
Proof. apply strip_fixed, strip_stripped. Qed.

Lemma contains_lstrip (s k : str) (k0 : ascii) (k' : str) :
  k = k0 :: k' -> isspace k0 = false ->
  contains s k = true -> contains (lstrip s) k = true.
Proof.
  intros -> Hk. induction s as [|c s IH]; [auto|].
  simpl lstrip. destruct (isspace c) eqn:W; [|auto].
  change (contains (c :: s) (k0 :: k'))
    with (startswith (c :: s) (k0 :: k') || contains s (k0 :: k'))%bool.
  simpl startswith. destruct (Ascii.eqb k0 c) eqn:E.
  - apply Ascii.eqb_eq in E. congruence.
  - simpl. exact IH.
Qed.

Lemma contains_rev (s k : str) :
  contains (rev s) (rev k) = contains s k.
Proof.
  assert (G : forall s k, contains s k = true ->
                          contains (rev s) (rev k) = true).
  { intros s0 k0 H. apply contains_iff in H. destruct H as (a & b & ->).
    apply contains_iff. exists (rev b), (rev a).
    now rewrite !rev_app_distr, app_assoc. }
  destruct (contains s k) eqn:E.
  - now apply G.
  - destruct (contains (rev s) (rev k)) eqn:F; [|reflexivity].
    apply G in F. rewrite !rev_involutive in F. congruence.
Qed.

(** Trimming keeps every occurrence of a text that has no whitespace at
    its own ends. *)
Lemma contains_strip (s k : str) :
  k <> [] -> stripped k ->
  contains s k = true -> contains (strip s) k = true.
Proof.
  intros Hne [Hh Hl] H. unfold strip, rstrip.
  destruct k as [|k0 k']; [contradiction|].
  apply (contains_lstrip s _ k0 k' eq_refl (Hh _ _ eq_refl)) in H.
  rewrite <- (rev_involutive (k0 :: k')), contains_rev.
  destruct (rev (k0 :: k')) as [|r0 r'] eqn:R.
  { apply (f_equal (@List.length ascii)) in R.
    rewrite length_rev in R. discriminate. }
  apply (contains_lstrip _ _ r0 r' eq_refl).
  - apply (Hl (rev r') r0). rewrite <- (rev_involutive (k0 :: k')), R.
    reflexivity.
  - rewrite <- R, contains_rev. exact H.
Qed.

(** *** The text before a separator *)

Lemma before_first_split (sep s : str) :
  exists rest,
    s = before_first sep s ++ rest
    /\ (rest = [] \/ startswith rest sep = true).
Proof.
  induction s as [|c s (rest & E & H)].
  - exists []. split; [reflexivity | now left].
  - cbn [before_first]. destruct (startswith (c :: s) sep) eqn:S.
    + exists (c :: s). split; [reflexivity | now right].
    + exists rest. split; [simpl; now rewrite <- E | exact H].
Qed.

Lemma before_first_no_sep (sep s : str) :
  sep <> [] -> contains (before_first sep s) sep = false.
Proof.
  intros Hne. apply contains_false_iff.
  induction s as [|c s IH]; intros a b E.
  - simpl in E. destruct a; [|discriminate].
    destruct sep; [contradiction | discriminate].
  - cbn [before_first] in E. destruct (startswith (c :: s) sep) eqn:S.
    + destruct a; [|discriminate].
      destruct sep; [contradiction | discriminate].
    + destruct a as [|x a].
      * simpl in E.
        destruct (before_first_split sep s) as (rest & Es & _).
        assert (startswith (c :: s) sep = true); [|congruence].
        apply startswith_iff. exists (b ++ rest).
        rewrite Es, app_comm_cons, E. now rewrite <- app_assoc.
      * injection E as -> E. now apply IH in E.
Qed.

(** The separator starts at no position inside the text before it. *)
Lemma before_first_minimal (sep s : str) :
  forall a b,
    s = a ++ b ->
    (List.length a < List.length (before_first sep s))%nat ->
    startswith b sep = false.
Proof.
  induction s as [|c s IH]; intros a b E Hlt; [simpl in Hlt; lia|].
  cbn [before_first] in Hlt.
  destruct (startswith (c :: s) sep) eqn:S; [simpl in Hlt; lia|].
  destruct a as [|x a].
  - simpl in E. now subst b.
  - injection E as _ E. apply (IH a b E). simpl in Hlt. lia.
Qed.

Lemma strip_no_sep (sep s : str) :
  contains s sep = false -> contains (strip s) sep = false.
Proof.
  intros H. apply contains_false_iff. intros x y E.
  destruct (strip_split s) as (a & b & Es & _).
  rewrite contains_false_iff in H. apply (H (a ++ x) (y ++ b)).
  rewrite Es, E. now rewrite <- !app_assoc.
Qed.

(** *** Lines *)

Definition no_linebreak (s : str) : Prop :=
  Forall (fun c => islinebreak c = false) s.

Lemma splitlines_from_no_linebreak (s : str) :
  forall cur,
    no_linebreak cur ->
    Forall no_linebreak (splitlines_from cur s).
Proof.
  induction s as [s IH] using (induction_ltof1 _ (@List.length ascii)).
  unfold ltof in IH. intros cur Hcur.
  destruct s as [|c s]; cbn [splitlines_from].
  - destruct cur; [constructor | constructor; [exact Hcur | constructor]].
  - destruct (islinebreak c) eqn:B.
    + destruct s as [|d s]; [constructor; [exact Hcur | constructor]|].
      destruct ((code c =? 13) && (code d =? 10))%bool;
        (constructor; [exact Hcur | apply IH; [simpl; lia | constructor]]).
    + apply IH; [simpl; lia|].
      unfold no_linebreak. apply Forall_app. split; [exact Hcur|].
      constructor; [exact B | constructor].
Qed.

Lemma splitlines_no_linebreak (s : str) : Forall no_linebreak (splitlines s).
Proof. apply splitlines_from_no_linebreak. constructor. Qed.

Lemma no_linebreak_strip (s : str) : no_linebreak s -> no_linebreak (strip s).
Proof.
  intros H. destruct (strip_split s) as (a & b & E & _).
  unfold no_linebreak in *. rewrite E in H.
  apply Forall_app in H. destruct H as [_ H].
  apply Forall_app in H. tauto.
Qed.

Definition LF : ascii := ascii_of_nat 10.

(** Lines that are not empty and hold no line break, joined by line feeds,
    have no blank line between them. *)
Lemma join_lines_no_blank (lines : list str) :
  Forall (fun l => l <> [] /\ no_linebreak l) lines ->
  contains (join [LF] lines) [LF; LF] = false.
Proof.
  assert (Hx : forall x, islinebreak x = false -> Ascii.eqb LF x = false).
  { intros x Hx. destruct (Ascii.eqb LF x) eqn:E; [|reflexivity].
    apply Ascii.eqb_eq in E. subst x. discriminate Hx. }
  assert (Hpre : forall (l r : str),
             no_linebreak l ->
             contains (l ++ LF :: r) [LF; LF]
             = contains (LF :: r) [LF; LF]).
  { induction l as [|x l IHl]; intros r Hl; [reflexivity|].
    inversion Hl as [|? ? Hx' Hl']; subst.
    change ((x :: l) ++ LF :: r) with (x :: (l ++ LF :: r)).
    change (contains (x :: l ++ LF :: r) [LF; LF])
      with (startswith (x :: l ++ LF :: r) [LF; LF]
            || contains (l ++ LF :: r) [LF; LF])%bool.
    rewrite (IHl r Hl'), startswith_cons, (Hx x Hx'). reflexivity. }
  assert (Hone : forall l, no_linebreak l -> contains l [LF; LF] = false).
  { induction l as [|x l IHl]; intros Hl; [reflexivity|].
    inversion Hl as [|? ? Hx' Hl']; subst.
    change (contains (x :: l) [LF; LF])
      with (startswith (x :: l) [LF; LF] || contains l [LF; LF])%bool.
    rewrite (IHl Hl'), startswith_cons, (Hx x Hx'). reflexivity. }
  induction lines as [|l rest IH]; intros H; [reflexivity|].
  inversion H as [|? ? [Hne Hl] Hrest]; subst.
  destruct rest as [|l2 rest]; [now apply Hone|].
  change (join [LF] (l :: l2 :: rest))
    with (l ++ LF :: join [LF] (l2 :: rest)).
  rewrite (Hpre l _ Hl).
  change (contains (LF :: join [LF] (l2 :: rest)) [LF; LF])
    with (startswith (LF :: join [LF] (l2 :: rest)) [LF; LF]
          || contains (join [LF] (l2 :: rest)) [LF; LF])%bool.
  rewrite (IH Hrest), orb_false_r.
  inversion Hrest as [|? ? [Hne2 Hl2] _]; subst.
  destruct l2 as [|y l2]; [contradiction|].
  inversion Hl2 as [|? ? Hy _]; subst.
  rewrite startswith_cons. apply andb_false_iff. right.
  destruct rest; cbn [join app]; rewrite startswith_cons, (Hx y Hy);
    reflexivity.
Qed.

End StrFacts.

(** * Further properties of the retriever *)

Module RetrieverFacts.
Import Query QueryFacts StrFacts.

(** *** Case of the question and of the texts *)

Lemma tokenize_lower (s : str) : tokenize (lower s) = tokenize s.
Proof.
  unfold tokenize. rewrite split_ws_lower, map_map.
  apply map_ext. apply lower_idempotent.
Qed.

Lemma score_chunk_lower_query (query : str) (text : json) :
  score_chunk (lower query) text = score_chunk query text.
Proof. unfold score_chunk. now rewrite tokenize_lower. Qed.

Lemma guess_intents_lower (query : str) :
  guess_intents (lower query) = guess_intents query.
Proof. unfold guess_intents. now rewrite lower_idempotent. Qed.

Lemma pick_best_lower (question : str) (intents : list str)
      (chunks : list (str * json)) :
  forall b,
    pick_best (lower question) intents chunks b
    = pick_best question intents chunks b.
Proof.
  induction chunks as [|[label content] rest IH]; intros b; simpl;
    [reflexivity|].
  rewrite score_chunk_lower_query.
  destruct (score_chunk question content); simpl; [apply IH | reflexivity].
Qed.

(** X1. The answer does not depend on the case of the question: for every
    loaded document, asking the question in lower case ends the run the
    same way; the classified intents and every score are the same too, and
    a text scores the same as its lower-case form. *)
Theorem retrieve_ignores_case (question : str) (doc : json) :
  retrieve (lower question) doc = retrieve question doc
  /\ guess_intents (lower question) = guess_intents question
  /\ (forall text, score_chunk (lower question) text
                   = score_chunk question text)
  /\ (forall text, score_chunk question (JStr (lower text))
                   = score_chunk question (JStr text)).
Proof.
  split; [|split; [|split]].
  - unfold retrieve. rewrite guess_intents_lower.
    destruct (gather FIELDS doc) as [chunks|e]; [|reflexivity].
    unfold run. destruct chunks; [reflexivity|].
    now rewrite pick_best_lower.
  - apply guess_intents_lower.
  - intros text. apply score_chunk_lower_query.
  - intros text. unfold score_chunk.
    rewrite tokenize_lower.
    destruct text; reflexivity.
Qed.

(** *** The base score *)

Lemma occurrences_pos (q : str) (tokens : list str) :
  0 <= occurrences q tokens
  /\ (0 < occurrences q tokens <-> In q tokens).
Proof.
  unfold occurrences. split; [lia|].
  induction tokens as [|t ts IH]; simpl; [split; [lia | tauto]|].
  destruct (eqb q t) eqn:E.
  - apply eqb_eq in E. subst t. simpl. split; [auto | lia].
  - rewrite IH. split; [auto|]. intros [-> | H]; [|assumption].
    now rewrite eqb_refl in E.
Qed.

Lemma zsum_pos (A : Type) (f : A -> Z) (l : list A) :
  (forall x, 0 <= f x) ->
  (0 < zsum (map f l) <-> exists x, In x l /\ 0 < f x).
Proof.
  intros Hf. induction l as [|a l IH]; simpl.
  - split; [lia | intros (x & [] & _)].
  - assert (Hz : 0 <= zsum (map f l)).
    { clear IH. induction l as [|b l IHl]; simpl; [lia|].
      pose proof (Hf b). lia. }
    pose proof (Hf a). split.
    + intros H0. destruct (Z.ltb_spec 0 (f a)).
      * exists a. auto.
      * assert (0 < zsum (map f l)) as Hl by lia.
        apply IH in Hl. destruct Hl as (x & Hx & Hp). exists x. auto.
    + intros (x & [-> | Hx] & Hp); [lia|].
      assert (0 < zsum (map f l)) by (apply IH; eauto). lia.
Qed.

(** X2. For every question and text, [score_chunk] returns a number, and
    the number is positive exactly when some token of the question, in
    lower case, is also a token of the text; otherwise it is 0. *)
Theorem score_chunk_positive_iff (question text : str) :
  exists base,
    score_chunk question (JStr text) = Ok base
    /\ (0 < base
        <-> exists token,
              In token (tokenize question) /\ In token (tokenize text))
    /\ (base = 0
        <-> forall token,
              In token (tokenize question) -> ~ In token (tokenize text)).
Proof.
  assert (G : exists base,
             score_chunk question (JStr text) = Ok base
             /\ 0 <= base
             /\ (0 < base
                 <-> exists token,
                       In token (tokenize question)
                       /\ In token (tokenize text))).
  { destruct text as [|c text].
    - exists 0. split; [reflexivity|]. split; [lia|].
      split; [lia | intros (token & _ & [])].
    - eexists. split; [apply score_chunk_overlap|].
      set (f := fun q => occurrences q (tokenize (c :: text))).
      assert (Hf : forall q, 0 <= f q)
        by (intros q; apply occurrences_pos).
      split.
      + clear -Hf. induction (tokenize question) as [|q l IH]; simpl; [lia|].
        pose proof (Hf q). lia.
      + rewrite (zsum_pos _ f _ Hf). unfold f. split.
        * intros (q & Hq & Hp). exists q. split; [assumption|].
          now apply occurrences_pos.
        * intros (q & Hq & Hin). exists q. split; [assumption|].
          now apply occurrences_pos. }
  destruct G as (base & Hs & Hnn & Hpos).
  exists base. split; [assumption|]. split; [assumption|].
  split.
  - intros -> token Hq Ht.
    assert (0 < 0); [|lia]. apply Hpos. eauto.
  - intros H. destruct (Z.ltb_spec 0 base) as [Hlt|]; [|lia].
    apply Hpos in Hlt. destruct Hlt as (token & Hq & Ht).
    now apply H in Ht.
Qed.

(** *** The selection loop, in general *)

Lemma combined_score_nonneg (intents : list str) (label : str) (base : Z) :
  0 <= base -> 0 <= combined_score intents label base.
Proof.
  intros Hb. pose proof (field_weight_ge_1 intents label) as Hw.
  unfold combined_score.
  destruct (base >? 0) eqn:E; [nia|].
  destruct (any_intent_weighted intents); lia.
Qed.

(** The total the loop computes for a chunk. *)
Definition total_of (question : str) (intents : list str)
           (chunk : str * json) (total : Z) : Prop :=
  exists base,
    score_chunk question (snd chunk) = Ok base
    /\ total = combined_score intents (fst chunk) base.

Lemma pick_best_from (question : str) (intents : list str)
      (chunks : list (str * json)) :
  forall b b',
    pick_best question intents chunks b = Ok b' ->
    (b' = b
     /\ forall chunk, In chunk chunks ->
          exists t, total_of question intents chunk t /\ t <= best_score b)
    \/ (exists before label content after total,
           chunks = before ++ (label, content) :: after
           /\ b' = Best (Some label) content total
           /\ total_of question intents (label, content) total
           /\ best_score b < total
           /\ (forall chunk, In chunk before ->
                 exists t, total_of question intents chunk t /\ t < total)
           /\ (forall chunk, In chunk after ->
                 exists t, total_of question intents chunk t /\ t <= total)).
Proof.
  induction chunks as [|[label content] rest IH]; intros b b'; simpl.
  - intros [= <-]. left. split; [reflexivity | intros ? []].
  - destruct (score_chunk question content) as [base|e] eqn:Hb;
      simpl; [|discriminate].
    set (t := combined_score intents label base).
    assert (Ht : total_of question intents (label, content) t)
      by (exists base; auto).
    destruct (t >? best_score b) eqn:E; intros H; apply IH in H.
    + right. destruct H as [[-> Hall] | H].
      * exists [], label, content, rest, t. simpl.
        repeat split; try assumption; try lia; try contradiction.
      * destruct H as (before & l & c & after & total & -> & -> & Hl & Hlt
                       & Hbefore & Hafter).
        simpl in Hlt.
        exists ((label, content) :: before), l, c, after, total.
        repeat split; try assumption; try lia.
        intros chunk [<- | Hin]; [|auto].
        exists t. split; [assumption | lia].
    + destruct H as [[-> Hall] | H].
      * left. split; [reflexivity|].
        intros chunk [<- | Hin]; [|auto].
        exists t. split; [assumption | lia].
      * right.
        destruct H as (before & l & c & after & total & -> & -> & Hl & Hlt
                       & Hbefore & Hafter).
        exists ((label, content) :: before), l, c, after, total.
        repeat split; try assumption.
        intros chunk [<- | Hin]; [|auto].
        exists t. split; [assumption | lia].
Qed.

(** X3. Whenever the selection loop of [main] ends without an exception on
    a non-empty list of chunks, it has selected a chunk whose combined
    score is the greatest of all; every chunk before the selected one
    scores strictly less, so among equal scores the first in registry
    order wins. *)
Theorem pick_best_first_maximum
  (question : str) (intents : list str) (chunks : list (str * json))
  (b : best) :
  pick_best question intents chunks best_init = Ok b ->
  chunks <> [] ->
  exists before label content after total,
    chunks = before ++ (label, content) :: after
    /\ b = Best (Some label) content total
    /\ total_of question intents (label, content) total
    /\ (forall chunk, In chunk before ->
          exists t, total_of question intents chunk t /\ t < total)
    /\ (forall chunk, In chunk after ->
          exists t, total_of question intents chunk t /\ t <= total).
Proof.
  intros H Hne. apply pick_best_from in H.
  destruct H as [[-> Hall] | H].
  - destruct chunks as [|chunk rest]; [contradiction|].
    destruct (Hall chunk (or_introl eq_refl)) as (t & (base & Hs & ->) & Hle).
    pose proof (score_chunk_nonneg _ _ _ Hs) as Hnn.
    pose proof (combined_score_nonneg intents (fst chunk) base Hnn).
    simpl in Hle. lia.
  - destruct H as (before & l & c & after & total & -> & -> & Hl & Hlt
                   & Hbefore & Hafter).
    exists before, l, c, after, total. repeat split; assumption.
Qed.

Lemma pick_best_first_maximum_witness :
  exists before label content after total,
    [(lit "project:name", JStr "foo tool");
     (lit "install:commands", JStr "pip install foo");
     (lit "project:topics", JStr "foo, install")]
    = before ++ (label, content) :: after
    /\ label = lit "install:commands"
    /\ total = 8.
Proof.
  destruct (pick_best_first_maximum "install foo" [lit "install"]
              [(lit "project:name", JStr "foo tool");
               (lit "install:commands", JStr "pip install foo");
               (lit "project:topics", JStr "foo, install")]
              (Best (Some (lit "install:commands"))
                    (JStr "pip install foo") 8)
              eq_refl ltac:(discriminate))
    as (before & label & content & after & total & E & Hb & _).
  exists before, label, content, after, total.
  injection Hb as <- <- <-. auto.
Defined.

(** *** The classified intents *)

(** Some trigger of the intent occurs in the lowered question. *)
Definition triggered (intent query : str) : Prop :=
  exists keys t,
    In (intent, keys) INTENT_KEYWORDS /\ In t keys
    /\ contains (lower query) t = true.

Lemma kept_intents_NoDup (keep : str * list str -> bool)
      (table : list (str * list str)) :
  NoDup (map fst table) -> NoDup (map fst (filter keep table)).
Proof.
  induction table as [|[intent keys] table IH]; cbn [map filter fst];
    [auto|].
  intros H. apply NoDup_cons_iff in H. destruct H as [Hn Hrest].
  destruct (keep (intent, keys)); cbn [map fst]; [|auto].
  apply NoDup_cons; [|auto].
  intros Hin. apply Hn. apply in_map_iff in Hin.
  destruct Hin as (x & E & Hx). apply filter_In in Hx.
  apply in_map_iff. exists x. tauto.
Qed.

Lemma intent_names_NoDup : NoDup (map fst INTENT_KEYWORDS).
Proof.
  vm_compute. repeat constructor; simpl; intuition discriminate.
Qed.

Lemma hits_triggered (query intent : str) :
  In intent (hits query) <-> triggered intent query.
Proof.
  unfold hits, triggered. rewrite in_map_iff. split.
  - intros ([i keys] & <- & H). apply filter_In in H.
    destruct H as [Hin H]. apply existsb_exists in H.
    destruct H as (t & Ht & Hc). exists keys, t. auto.
  - intros (keys & t & Hin & Ht & Hc). exists (intent, keys).
    split; [reflexivity|]. apply filter_In. split; [assumption|].
    apply existsb_exists. exists t. auto.
Qed.

(** X4. For every question, [guess_intents] returns a non-empty list
    without duplicates; an intent is in it exactly when one of its
    triggers occurs in the lowered question, except that "purpose" is also
    returned, alone, when no trigger of any intent occurs. *)
Theorem guess_intents_shape (question : str) :
  guess_intents question <> []
  /\ NoDup (guess_intents question)
  /\ (forall intent,
         In intent (guess_intents question)
         <-> triggered intent question
             \/ (intent = lit "purpose"
                 /\ forall other, ~ triggered other question))
  /\ ((forall other, ~ triggered other question) ->
      guess_intents question = [lit "purpose"]).
Proof.
  split; [apply guess_intents_nonempty|].
  rewrite guess_intents_hits.
  assert (Hnd : NoDup (hits question))
    by apply kept_intents_NoDup, intent_names_NoDup.
  destruct (hits question) as [|h hs] eqn:E.
  - split; [repeat constructor; intros []|]. split; [|reflexivity].
    intros intent. split.
    + intros [<- | []]. right. split; [reflexivity|].
      intros other H. apply hits_triggered in H. now rewrite E in H.
    + intros [H | [-> _]]; [|now left].
      apply hits_triggered in H. now rewrite E in H.
  - split; [assumption|]. split.
    + intros intent. rewrite <- E, hits_triggered. split; [auto|].
      intros [H | [_ H]]; [assumption|].
      exfalso. apply (H h). apply hits_triggered. rewrite E. now left.
    + intros H. exfalso. apply (H h). apply hits_triggered.
      rewrite E. now left.
Qed.

(** *** Documents without a graph *)

Lemma graph_accessors_empty (doc g : json) :
  graph_nodes doc = Ok g ->
  py_iter g = Ok [] ->
  project_node doc = Ok (JObj [])
  /\ install_node doc = Ok (JObj [])
  /\ example_nodes doc = Ok []
  /\ forall keyword, itemlist_by_name doc keyword = Ok (JObj []).
Proof.
  intros Hg Hi.
  assert (Hp : project_node doc = Ok (JObj [])).
  { unfold project_node. rewrite Hg. simpl. now rewrite Hi. }
  split; [assumption|]. split; [|split].
  - unfold install_node. now rewrite Hp.
  - unfold example_nodes. now rewrite Hp.
  - intros keyword. unfold itemlist_by_name. rewrite Hg. simpl.
    now rewrite Hi.
Qed.

(** X5. For every question: a document whose "@graph" is missing or
    empty makes every registry field empty, and the run reports that no
    knowledge was found; a document that is not a dict ends the run with
    an AttributeError. *)
Theorem retrieve_without_graph (question : str) (doc g : json) :
  (graph_nodes doc = Ok g -> py_iter g = Ok [] ->
   gather FIELDS doc = Ok [] /\ retrieve question doc = NoKnowledge)
  /\ ((forall members, doc <> JObj members) ->
      retrieve question doc = Uncaught AttributeError).
Proof.
  split.
  - intros Hg Hi.
    destruct (graph_accessors_empty doc g Hg Hi) as (Hp & Hn & He & Hl).
    assert (G : gather FIELDS doc = Ok []).
    { unfold FIELDS, gather, itemlist_text.
      rewrite Hp, Hn, He, !Hl. reflexivity. }
    split; [assumption|]. unfold retrieve. now rewrite G.
  - intros H. destruct doc; try reflexivity. now destruct (H members).
Qed.

Lemma retrieve_without_graph_witness :
  retrieve "What is this?" (JObj [(lit "@context", JObj [])]) = NoKnowledge
  /\ retrieve "What is this?" (JArr []) = Uncaught AttributeError.
Proof.
  split.
  - exact (proj2 (proj1 (retrieve_without_graph "What is this?"
                           (JObj [(lit "@context", JObj [])]) (JArr []))
                        eq_refl eq_refl)).
  - apply (proj2 (retrieve_without_graph "What is this?" (JArr []) JNull)).
    discriminate.
Defined.

(** *** Questions that share no word with the document *)

Lemma gather_NoDup (fields : list (str * (json -> result json))) (doc : json) :
  NoDup (map fst fields) ->
  forall chunks, gather fields doc = Ok chunks -> NoDup (map fst chunks).
Proof.
  induction fields as [|[l getter] rest IH]; simpl; intros Hnd chunks.
  - intros [= <-]. constructor.
  - inversion Hnd as [|? ? Hn Hrest]; subst.
    destruct (getter doc) as [probe|e]; simpl; [|discriminate].
    destruct (truthy probe); [|now apply IH].
    simpl. destruct (gather rest doc) as [more|e] eqn:G; simpl; [|discriminate].
    intros [= <-]. simpl. constructor; [|now apply IH].
    intros Hin. apply Hn. apply in_map_iff in Hin.
    destruct Hin as ([l' c] & <- & Hin).
    now apply (gather_labels rest doc more G l' c).
Qed.

Lemma field_labels_NoDup : NoDup (map fst FIELDS).
Proof.
  vm_compute. repeat constructor; simpl; intuition discriminate.
Qed.

Lemma same_label (chunks : list (str * json)) (label : str) (c1 c2 : json) :
  NoDup (map fst chunks) ->
  In (label, c1) chunks -> In (label, c2) chunks -> c1 = c2.
Proof.
  induction chunks as [|[l c] rest IH]; simpl; [intros _ []|].
  intros Hnd H1 H2. inversion Hnd as [|? ? Hn Hrest]; subst.
  destruct H1 as [E1 | H1], H2 as [E2 | H2].
  - congruence.
  - injection E1 as -> ->. exfalso. apply Hn. apply in_map_iff.
    now exists (label, c2).
  - injection E2 as -> ->. exfalso. apply Hn. apply in_map_iff.
    now exists (label, c1).
  - now apply IH.
Qed.

Ltac weight_cases E F :=
  apply lookup_In in E; apply lookup_In in F; simpl in E;
  repeat destruct E as [[= <- <-] | E]; try contradiction;
  simpl in F; repeat destruct F as [[= <- <-] | F]; try contradiction.

Lemma configured_weight_le_3 (intent label : str) :
  configured_weight intent label <= 3.
Proof.
  unfold configured_weight.
  destruct (lookup intent INTENT_FIELD_WEIGHTS) as [ws|] eqn:E; [|lia].
  destruct (lookup label ws) as [w|] eqn:F; [|lia].
  weight_cases E F; lia.
Qed.

(** One intent gives its full weight to one field only. *)
Lemma full_weight_unique (intent label other : str) :
  configured_weight intent label = 3 ->
  3 <= configured_weight intent other ->
  other = label.
Proof.
  unfold configured_weight.
  destruct (lookup intent INTENT_FIELD_WEIGHTS) as [ws|] eqn:E; [|lia].
  destruct (lookup label ws) as [w|] eqn:F; [|lia].
  destruct (lookup other ws) as [w'|] eqn:F'; [|lia].
  apply lookup_In in F'.
  weight_cases E F; intros; try lia;
    simpl in F'; repeat destruct F' as [[= <- <-] | F'];
    try contradiction; try lia; reflexivity.
Qed.

Lemma purpose_weighted (label : str) :
  1 <= configured_weight "purpose" label ->
  label = lit "project:description" \/ label = lit "project:name".
Proof.
  unfold configured_weight.
  change (lookup (lit "purpose") INTENT_FIELD_WEIGHTS)
    with (Some [(lit "project:description", 3); (lit "project:name", 1)]).
  cbv beta iota.
  destruct (lookup label [(lit "project:description", 3); (lit "project:name", 1)])
    as [w|] eqn:F; [|intros; lia].
  apply lookup_In in F. simpl in F.
  repeat destruct F as [[= <- <-] | F]; try contradiction; auto.
Qed.

Lemma pick_best_scored (question : str) (intents : list str)
      (chunks : list (str * json)) :
  (forall label content, In (label, content) chunks ->
                         exists base, score_chunk question content = Ok base) ->
  forall b, exists b', pick_best question intents chunks b = Ok b'.
Proof.
  induction chunks as [|[label content] rest IH]; intros Hs b; simpl.
  - now exists b.
  - destruct (Hs label content (or_introl eq_refl)) as [base ->].
    simpl. apply IH. intros l c Hin. apply (Hs l c). now right.
Qed.

(** The run for a question whose intents are [intents], from the gathered
    chunks on: the first chunk with the greatest total is shown. *)
Lemma retrieve_first_maximum
      (question : str) (doc : json) (chunks : list (str * json)) :
  gather FIELDS doc = Ok chunks ->
  chunks <> [] ->
  (forall label content, In (label, content) chunks ->
                         exists base, score_chunk question content = Ok base) ->
  exists before label content after total,
    chunks = before ++ (label, content) :: after
    /\ total_of question (guess_intents question) (label, content) total
    /\ (forall chunk, In chunk before ->
          exists t, total_of question (guess_intents question) chunk t
                    /\ t < total)
    /\ (forall chunk, In chunk after ->
          exists t, total_of question (guess_intents question) chunk t
                    /\ t <= total)
    /\ forall text, content = JStr text ->
         retrieve question doc = Answer label (shown label text).
Proof.
  intros G Hne Hs.
  destruct (pick_best_scored question (guess_intents question) _ Hs best_init)
    as [b P].
  destruct (pick_best_from _ _ _ _ _ P) as [[-> H] | H].
  - exfalso. destruct chunks as [|[l c] rest]; [now apply Hne|].
    destruct (H (l, c) (or_introl eq_refl)) as (t & (base & Hb & ->) & Hle).
    simpl in Hb, Hle.
    pose proof (combined_score_ge_1 question l c base Hb). lia.
  - destruct H as (before & label & content & after & total
                   & E & -> & Ht & _ & Hbefore & Hafter).
    exists before, label, content, after, total.
    repeat split; try assumption.
    intros text ->. unfold retrieve, run. rewrite G.
    destruct chunks as [|ch rest]; [now destruct Hne|].
    rewrite P. cbn [best_label best_content].
    assert (Hin : In (label, JStr text) (ch :: rest)).
    { rewrite E. apply in_or_app. right. now left. }
    destruct (gather_labels FIELDS doc _ G _ _ Hin) as [Hl _].
    now rewrite (field_labels_truthy label Hl).
Qed.

Lemma zero_overlap_total (question intent label : str) (content : json) (t : Z) :
  guess_intents question = [intent] ->
  score_chunk question content = Ok 0 ->
  total_of question [intent] (label, content) t ->
  t = 1 + configured_weight intent label.
Proof.
  intros Hi H0 (base & Hb & ->). simpl in Hb. rewrite H0 in Hb.
  injection Hb as <-. unfold combined_score.
  rewrite <- Hi, guess_intents_weighted. rewrite Hi.
  reflexivity.
Qed.

(** X6. When the question triggers one intent only and shares no word with
    any gathered field, the run shows the field to which that intent gives
    weight 3, if the document has it; for the intent "purpose" (also the
    default when nothing is triggered) a document without a description
    shows the project name. *)
Theorem zero_overlap_shows_intent_field
        (question intent : str) (doc : json) (chunks : list (str * json)) :
  gather FIELDS doc = Ok chunks ->
  guess_intents question = [intent] ->
  (forall label content, In (label, content) chunks ->
                         score_chunk question content = Ok 0) ->
  (forall label text,
      configured_weight intent label = 3 ->
      In (label, JStr text) chunks ->
      retrieve question doc = Answer label (shown label text))
  /\ (forall text,
         intent = lit "purpose" ->
         (forall content, ~ In (lit "project:description", content) chunks) ->
         In (lit "project:name", JStr text) chunks ->
         retrieve question doc = Answer "project:name" text).
Proof.
  intros G Hi H0.
  assert (Hnd : NoDup (map fst chunks))
    by exact (gather_NoDup FIELDS doc field_labels_NoDup chunks G).
  assert (Hs : forall label content, In (label, content) chunks ->
                 exists base, score_chunk question content = Ok base)
    by (intros l c Hin; exists 0; now apply (H0 l c)).
  assert (Hwin : forall label text,
             In (label, JStr text) chunks ->
             exists winner content,
               In (winner, content) chunks
               /\ configured_weight intent label
                  <= configured_weight intent winner
               /\ forall text', content = JStr text' ->
                    retrieve question doc = Answer winner (shown winner text')).
  { intros label text Hin.
    assert (Hne : chunks <> []) by (intros ->; destruct Hin).
    destruct (retrieve_first_maximum question doc chunks G Hne Hs)
      as (before & winner & content & after & total
          & E & Ht & Hbefore & Hafter & Hr).
    rewrite Hi in Ht, Hbefore, Hafter.
    assert (Hw : In (winner, content) chunks).
    { rewrite E. apply in_or_app. right. now left. }
    exists winner, content. split; [assumption|]. split; [|assumption].
    apply (zero_overlap_total question intent winner content total Hi
             (H0 _ _ Hw)) in Ht.
    assert (Hmine : forall t,
               total_of question [intent] (label, JStr text) t ->
               t = 1 + configured_weight intent label)
      by (intros t; now apply zero_overlap_total, (H0 _ _ Hin)).
    rewrite E in Hin. apply in_app_or in Hin.
    destruct Hin as [Hin | [[= -> ->] | Hin]].
    - destruct (Hbefore _ Hin) as (t & Ht' & Hlt).
      apply Hmine in Ht'. lia.
    - lia.
    - destruct (Hafter _ Hin) as (t & Ht' & Hle).
      apply Hmine in Ht'. lia. }
  split.
  - intros label text Hw Hin.
    destruct (Hwin label text Hin) as (winner & content & Hin' & Hle & Hr).
    assert (winner = label) as ->
      by (apply (full_weight_unique intent); [assumption | lia]).
    apply Hr. exact (same_label chunks label _ _ Hnd Hin' Hin).
  - intros text -> Hnone Hin.
    destruct (Hwin _ text Hin) as (winner & content & Hin' & Hle & Hr).
    change (configured_weight "purpose" "project:name") with 1 in Hle.
    destruct (purpose_weighted winner Hle) as [-> | ->].
    + now destruct (Hnone content).
    + change (Answer "project:name" text)
        with (Answer "project:name" (shown "project:name" text)).
      apply Hr. exact (same_label chunks _ _ _ Hnd Hin' Hin).
Qed.

Definition small_doc : json :=
  JObj [(lit "@graph",
         JArr [JObj [(lit "@type", JStr "SoftwareApplication");
                     (lit "name", JStr "lib");
                     (lit "description", JStr "A small library")]])].

Lemma zero_overlap_shows_intent_field_witness :
  retrieve "overview" small_doc = Answer "project:description" "A small library".
Proof.
  refine (proj1 (zero_overlap_shows_intent_field
                   "overview" "purpose" small_doc
                   [(lit "project:name", JStr "lib");
                    (lit "project:description", JStr "A small library")]
                   eq_refl eq_refl _)
                "project:description" "A small library" eq_refl _).
  - intros label content [[= <- <-] | [[= <- <-] | []]]; reflexivity.
  - right. now left.
Defined.

(** *** What is shown of a list-like field *)

Lemma retrieve_answer_inv (question : str) (doc : json) (label body : str) :
  retrieve question doc = Answer label body ->
  exists chunks content,
    gather FIELDS doc = Ok chunks
    /\ In (label, JStr content) chunks
    /\ body = shown label content.
Proof.
  unfold retrieve, run.
  destruct (gather FIELDS doc) as [chunks|e] eqn:G; [|discriminate].
  destruct chunks as [|ch chunks]; [discriminate|].
  destruct (pick_best question (guess_intents question) (ch :: chunks) best_init)
    as [b|e] eqn:P; [|discriminate].
  destruct (pick_best_selects _ _ _ _ P) as [[-> _] | (l & c & Hin & Hl & Hc)];
    [discriminate|].
  rewrite Hl, Hc. destruct (truthy (JStr l)); [|discriminate].
  destruct c as [| | |content| |]; try discriminate.
  intros [= <- <-]. exists (ch :: chunks), content. auto.
Qed.

(** X7. Whenever a run prints an answer, its text comes from the gathered
    chunk with the printed label. For one of the list-like fields
    (examples, install commands, features, platforms) the text shown is
    the stripped block of the content that ends where the first blank line
    starts: the content is the block followed by nothing or by a rest that
    starts with a blank line, and no blank line starts at a position
    inside the block, which makes the block [content.split(blank)[0]]. The
    text shown contains no blank line, and [format_answer] prints it
    unchanged. Every other field is shown whole. *)
Theorem list_like_answer_is_first_block
        (question : str) (doc : json) (label body : str) :
  retrieve question doc = Answer label body ->
  exists chunks content,
    gather FIELDS doc = Ok chunks
    /\ In (label, JStr content) chunks
    /\ (In label LIST_LIKE ->
        exists block rest,
          content = block ++ rest
          /\ (rest = [] \/ startswith rest (newline ++ newline) = true)
          /\ (forall a b,
                 content = a ++ b ->
                 (List.length a < List.length block)%nat ->
                 startswith b (newline ++ newline) = false)
          /\ block = before_first (newline ++ newline) content
          /\ body = strip block
          /\ contains body (newline ++ newline) = false
          /\ answer_body body = body)
    /\ (~ In label LIST_LIKE -> body = content).
Proof.
  intros H.
  destruct (retrieve_answer_inv question doc label body H)
    as (chunks & content & G & Hin & ->).
  exists chunks, content. split; [assumption|]. split; [assumption|].
  unfold shown. split.
  - intros Hl. apply existsb_eqb_In in Hl. rewrite Hl.
    destruct (before_first_split (newline ++ newline) content)
      as (rest & E & Hrest).
    exists (before_first (newline ++ newline) content), rest.
    split; [assumption|]. split; [assumption|].
    split; [apply before_first_minimal|].
    split; [reflexivity|]. split; [reflexivity|].
    split.
    + apply strip_no_sep, before_first_no_sep. discriminate.
    + apply strip_idempotent.
  - intros Hl. destruct (existsb (eqb label) LIST_LIKE) eqn:E; [|reflexivity].
    apply existsb_eqb_In in E. contradiction.
Qed.

Definition two_blocks_doc : json :=
  JObj [(lit "@graph",
         JArr [JObj [(lit "@type", JStr "SoftwareApplication");
                     (lit "hasPart", JArr [JStr "#install"])];
               JObj [(lit "@id", JStr "#install");
                     (lit "@type", JStr "HowTo");
                     (lit "tool", JArr [JStr "pip install a"; JStr "";
                                        JStr "pip install b"])]])].

Lemma list_like_answer_is_first_block_witness :
  exists chunks content,
    gather FIELDS two_blocks_doc = Ok chunks
    /\ In (lit "install:commands", JStr content) chunks
    /\ (In (lit "install:commands") LIST_LIKE ->
        exists block rest,
          content = block ++ rest
          /\ (rest = [] \/ startswith rest (newline ++ newline) = true)
          /\ (forall a b,
                 content = a ++ b ->
                 (List.length a < List.length block)%nat ->
                 startswith b (newline ++ newline) = false)
          /\ block = before_first (newline ++ newline) content
          /\ lit "pip install a" = strip block
          /\ contains "pip install a" (newline ++ newline) = false
          /\ answer_body "pip install a" = lit "pip install a")
    /\ (~ In (lit "install:commands") LIST_LIKE ->
        lit "pip install a" = content).
Proof.
  exact (list_like_answer_is_first_block
           "how to install" two_blocks_doc "install:commands" "pip install a"
           eq_refl).
Defined.

(** *** Looking a node up by its identifier *)

(** [n.get("@id") == node_id] evaluates to [answer]. *)
Definition id_test (node_id n : json) (answer : bool) : Prop :=
  exists i, py_get n "@id" JNull = Ok i /\ py_eq i node_id = answer.

Lemma node_by_id_from_scan (nodes : list json) (node_id n : json) :
  node_by_id_from nodes node_id = Ok n ->
  (n = JObj [] /\ forall m, In m nodes -> id_test node_id m false)
  \/ (exists before after,
         nodes = before ++ n :: after
         /\ id_test node_id n true
         /\ forall m, In m before -> id_test node_id m false).
Proof.
  induction nodes as [|m rest IH]; simpl.
  - intros [= <-]. left. split; [reflexivity | intros ? []].
  - destruct (py_get m "@id" JNull) as [i|e] eqn:G; simpl; [|discriminate].
    destruct (py_eq i node_id) eqn:E.
    + intros [= <-]. right. exists [], rest.
      split; [reflexivity|]. split; [now exists i | intros ? []].
    + intros H. destruct (IH H) as [[-> Hall] | (before & after & -> & Hn & Hb)].
      * left. split; [reflexivity|].
        intros m' [<- | Hin]; [now exists i | now apply Hall].
      * right. exists (m :: before), after.
        split; [reflexivity|]. split; [assumption|].
        intros m' [<- | Hin]; [now exists i | now apply Hb].
Qed.

(** X8. When [node_by_id] returns, it returns the first node of "@graph"
    whose "@id" equals the identifier, every node before it being a dict
    with another "@id"; when no node has it, it returns the empty dict.
    A node that is not a dict and comes before any match makes it raise
    AttributeError instead. *)
Theorem node_by_id_first_match (doc node_id : json) :
  (forall n,
      node_by_id doc node_id = Ok n ->
      exists g nodes,
        graph_nodes doc = Ok g /\ py_iter g = Ok nodes
        /\ ((n = JObj [] /\ forall m, In m nodes -> id_test node_id m false)
            \/ (exists before after,
                   nodes = before ++ n :: after
                   /\ id_test node_id n true
                   /\ forall m, In m before -> id_test node_id m false)))
  /\ (forall g before bad after,
         graph_nodes doc = Ok g ->
         py_iter g = Ok (before ++ bad :: after) ->
         (forall m, In m before -> id_test node_id m false) ->
         (forall members, bad <> JObj members) ->
         node_by_id doc node_id = Raise AttributeError).
Proof.
  unfold node_by_id. split.
  - intros n.
    destruct (graph_nodes doc) as [g|e]; simpl; [|discriminate].
    destruct (py_iter g) as [nodes|e] eqn:Hi; simpl; [|discriminate].
    intros H. exists g, nodes. split; [reflexivity|]. split; [assumption|].
    now apply node_by_id_from_scan.
  - intros g before bad after Hg Hi Hb Hbad.
    rewrite Hg. simpl. rewrite Hi. simpl. clear Hg Hi.
    induction before as [|m before IH]; simpl.
    + destruct bad; try reflexivity. now destruct (Hbad members).
    + destruct (Hb m (or_introl eq_refl)) as (i & Hg' & He).
      rewrite Hg'. simpl. rewrite He.
      apply IH. intros m' Hin. apply Hb. now right.
Qed.

Lemma node_by_id_first_match_witness :
  exists g nodes,
    graph_nodes two_blocks_doc = Ok g /\ py_iter g = Ok nodes
    /\ ((JObj [(lit "@id", JStr "#install"); (lit "@type", JStr "HowTo");
               (lit "tool", JArr [JStr "pip install a"; JStr "";
                                  JStr "pip install b"])] = JObj []
         /\ forall m, In m nodes -> id_test (JStr "#install") m false)
        \/ (exists before after,
               nodes = before
                       ++ JObj [(lit "@id", JStr "#install");
                                (lit "@type", JStr "HowTo");
                                (lit "tool", JArr [JStr "pip install a"; JStr "";
                                                   JStr "pip install b"])]
                       :: after
               /\ id_test (JStr "#install")
                    (JObj [(lit "@id", JStr "#install");
                           (lit "@type", JStr "HowTo");
                           (lit "tool", JArr [JStr "pip install a"; JStr "";
                                              JStr "pip install b"])]) true
               /\ forall m, In m before -> id_test (JStr "#install") m false)).
Proof.
  exact (proj1 (node_by_id_first_match two_blocks_doc (JStr "#install"))
               _ eq_refl).
Defined.

(** *** What the finders return *)

(** [n.get("@type") == name] holds. *)
Definition has_type (name : str) (n : json) : Prop :=
  exists t, py_get n "@type" JNull = Ok t /\ py_eq t (JStr name) = true.

(** The test of [project_node]: a "@type" that is a string is compared as
    a whole, one that is a list is searched for the name. *)
Definition is_application (n : json) : Prop :=
  exists types,
    py_get n "@type" (JArr []) = Ok types
    /\ (types = JStr "SoftwareApplication"
        \/ (exists l, types = JArr l
                      /\ existsb (py_eq (JStr "SoftwareApplication")) l = true)
        \/ (exists m, types = JObj m
                      /\ existsb (fun kv => eqb "SoftwareApplication" (fst kv)) m
                         = true)).

Lemma project_node_from_sound (nodes : list json) (n : json) :
  project_node_from nodes = Ok n ->
  n = JObj [] \/ (In n nodes /\ is_application n).
Proof.
  induction nodes as [|m rest IH]; simpl.
  - intros [= <-]. now left.
  - destruct (py_get m "@type" (JArr [])) as [types|e] eqn:G; simpl;
      [|discriminate].
    destruct (py_in_str "SoftwareApplication"
                (match types with JStr _ => JArr [types] | _ => types end))
      as [found|e] eqn:F; simpl; [|discriminate].
    destruct found.
    + intros [= <-]. right. split; [now left|]. exists types.
      split; [assumption|].
      destruct types as [| | |s|l|ms];
        cbn [py_in_str] in F; try discriminate.
      * left. cbn [existsb py_eq] in F. destruct (eqb (lit "SoftwareApplication") s) eqn:E;
          [|discriminate F].
        apply eqb_eq in E. now rewrite E.
      * right. left. exists l. split; [reflexivity | congruence].
      * right. right. exists ms. split; [reflexivity | congruence].
    + intros H. destruct (IH H) as [-> | [Hin Hq]]; [now left|].
      right. split; [now right | assumption].
Qed.

Lemma install_node_from_sound (doc : json) (pids : list json) (n : json) :
  install_node_from doc pids = Ok n ->
  n = JObj []
  \/ (has_type "HowTo" n
      /\ exists pid, In pid pids /\ node_by_id doc pid = Ok n).
Proof.
  induction pids as [|pid rest IH]; cbn [install_node_from].
  - intros [= <-]. now left.
  - destruct (node_by_id doc pid) as [m|e] eqn:N; cbn [bind]; [|discriminate].
    destruct (py_get m "@type" JNull) as [t|e] eqn:G; cbn [bind];
      [|discriminate].
    destruct (py_eq t (JStr "HowTo")) eqn:E.
    + intros [= <-]. right. split; [now exists t|].
      exists pid. split; [now left | assumption].
    + intros H. destruct (IH H) as [-> | [Ht (p & Hp & Hn)]]; [now left|].
      right. split; [assumption|]. exists p. split; [now right | assumption].
Qed.

Lemma example_nodes_from_sound (doc : json) (pids : list json) :
  forall found,
    example_nodes_from doc pids = Ok found ->
    forall n, In n found ->
      has_type "CreativeWork" n
      /\ exists pid, In pid pids /\ node_by_id doc pid = Ok n.
Proof.
  induction pids as [|pid rest IH]; cbn [example_nodes_from]; intros found.
  - intros [= <-] ? [].
  - destruct (node_by_id doc pid) as [m|e] eqn:N; cbn [bind]; [|discriminate].
    destruct (py_get m "@type" JNull) as [t|e] eqn:G; cbn [bind];
      [|discriminate].
    destruct (py_eq t (JStr "CreativeWork")) eqn:E.
    + cbn [bind].
      destruct (example_nodes_from doc rest) as [more|e]; cbn [bind];
        [|discriminate].
      intros [= <-] n [<- | Hin].
      * split; [now exists t|]. exists pid. split; [now left | assumption].
      * destruct (IH more eq_refl n Hin) as [Ht (p & Hp & Hn)].
        split; [assumption|]. exists p. split; [now right | assumption].
    + intros H n Hin. destruct (IH found H n Hin) as [Ht (p & Hp & Hn)].
      split; [assumption|]. exists p. split; [now right | assumption].
Qed.

Lemma itemlist_by_name_from_sound (nodes : list json) (keyword : str) (n : json) :
  itemlist_by_name_from nodes keyword = Ok n ->
  n = JObj []
  \/ (In n nodes /\ has_type "ItemList" n
      /\ exists name, lowered_name n = Ok name
                      /\ contains name (lower keyword) = true).
Proof.
  induction nodes as [|m rest IH]; cbn [itemlist_by_name_from].
  - intros [= <-]. now left.
  - assert (Hrest : itemlist_by_name_from rest keyword = Ok n ->
              n = JObj []
              \/ (In n (m :: rest) /\ has_type "ItemList" n
                  /\ exists name, lowered_name n = Ok name
                                  /\ contains name (lower keyword) = true)).
    { intros H. destruct (IH H) as [-> | (Hin & Hrest)]; [now left|].
      right. split; [now right | assumption]. }
    destruct (py_get m "@type" JNull) as [t|e] eqn:G; cbn [bind];
      [|discriminate].
    destruct (py_eq t (JStr "ItemList")) eqn:E; [|exact Hrest].
    destruct (lowered_name m) as [name|e] eqn:L; cbn [bind]; [|discriminate].
    destruct (contains name (lower keyword)) eqn:C; [|exact Hrest].
    intros [= <-]. right. split; [now left|]. split; [now exists t|].
    now exists name.
Qed.

(** X9. What the finders of [query.py] return from any document, when
    they return: [project_node] gives the empty dict or a node of "@graph"
    whose "@type" is the string "SoftwareApplication" or a collection
    holding it; [install_node] gives the empty dict or the node that
    [node_by_id] finds for one of the project's "hasPart" ids and that has
    the type "HowTo"; [example_nodes] gives only such nodes of the type
    "CreativeWork"; [itemlist_by_name] gives the empty dict or a node of
    "@graph" of type "ItemList" whose lowered name contains the lowered
    keyword, so the keyword's case does not matter. *)
Theorem finders_return_what_they_look_for (doc : json) :
  (forall n,
      project_node doc = Ok n ->
      n = JObj []
      \/ (is_application n
          /\ exists g nodes, graph_nodes doc = Ok g /\ py_iter g = Ok nodes
                             /\ In n nodes))
  /\ (forall n,
         install_node doc = Ok n ->
         n = JObj []
         \/ (has_type "HowTo" n
             /\ exists proj parts pids pid,
                  project_node doc = Ok proj
                  /\ py_get proj "hasPart" (JArr []) = Ok parts
                  /\ py_iter parts = Ok pids
                  /\ In pid pids /\ node_by_id doc pid = Ok n))
  /\ (forall found n,
         example_nodes doc = Ok found -> In n found ->
         has_type "CreativeWork" n
         /\ exists proj parts pids pid,
              project_node doc = Ok proj
              /\ py_get proj "hasPart" (JArr []) = Ok parts
              /\ py_iter parts = Ok pids
              /\ In pid pids /\ node_by_id doc pid = Ok n)
  /\ (forall keyword n,
         itemlist_by_name doc keyword = Ok n ->
         n = JObj []
         \/ (has_type "ItemList" n
             /\ (exists name, lowered_name n = Ok name
                              /\ contains name (lower keyword) = true)
             /\ exists g nodes, graph_nodes doc = Ok g /\ py_iter g = Ok nodes
                                /\ In n nodes))
  /\ (forall keyword,
         itemlist_by_name doc (lower keyword) = itemlist_by_name doc keyword).
Proof.
  split; [|split; [|split; [|split]]].
  - intros n. unfold project_node.
    destruct (graph_nodes doc) as [g|e]; cbn [bind]; [|discriminate].
    destruct (py_iter g) as [nodes|e] eqn:Hi; cbn [bind]; [|discriminate].
    intros H. destruct (project_node_from_sound nodes n H) as [-> | [Hin Hq]];
      [now left|].
    right. split; [assumption|]. now exists g, nodes.
  - intros n. unfold install_node.
    destruct (project_node doc) as [proj|e]; cbn [bind]; [|discriminate].
    destruct (py_get proj "hasPart" (JArr [])) as [parts|e] eqn:Hp;
      cbn [bind]; [|discriminate].
    destruct (py_iter parts) as [pids|e] eqn:Hi; cbn [bind]; [|discriminate].
    intros H.
    destruct (install_node_from_sound doc pids n H)
      as [-> | [Ht (pid & Hin & Hn)]]; [now left|].
    right. split; [assumption|]. now exists proj, parts, pids, pid.
  - intros found n. unfold example_nodes.
    destruct (project_node doc) as [proj|e]; cbn [bind]; [|discriminate].
    destruct (py_get proj "hasPart" (JArr [])) as [parts|e] eqn:Hp;
      cbn [bind]; [|discriminate].
    destruct (py_iter parts) as [pids|e] eqn:Hi; cbn [bind]; [|discriminate].
    intros H Hin.
    destruct (example_nodes_from_sound doc pids found H n Hin)
      as [Ht (pid & Hpid & Hn)].
    split; [assumption|]. now exists proj, parts, pids, pid.
  - intros keyword n. unfold itemlist_by_name.
    destruct (graph_nodes doc) as [g|e]; cbn [bind]; [|discriminate].
    destruct (py_iter g) as [nodes|e] eqn:Hi; cbn [bind]; [|discriminate].
    intros H.
    destruct (itemlist_by_name_from_sound nodes keyword n H)
      as [-> | (Hin & Ht & Hname)]; [now left|].
    right. split; [assumption|]. split; [assumption|]. now exists g, nodes.
  - intros keyword. unfold itemlist_by_name.
    destruct (graph_nodes doc) as [g|e]; cbn [bind]; [|reflexivity].
    destruct (py_iter g) as [nodes|e]; cbn [bind]; [|reflexivity].
    induction nodes as [|m rest IH]; cbn [itemlist_by_name_from];
      [reflexivity|].
    rewrite lower_idempotent, IH. reflexivity.
Qed.

(** *** The combined score grows with the overlap and with the intents *)

Lemma zsum_app (a b : list Z) : zsum (a ++ b) = zsum a + zsum b.
Proof. induction a as [|x a IH]; simpl; lia. Qed.

(** Summing non-negative weights over more intents gives no less. *)
Lemma zsum_weights_incl (label : str) (fewer : list str) :
  forall more,
    NoDup fewer ->
    (forall intent, In intent fewer -> In intent more) ->
    zsum (map (fun i => configured_weight i label) fewer)
    <= zsum (map (fun i => configured_weight i label) more).
Proof.
  induction fewer as [|x fewer IH]; intros more Hnd Hin.
  - simpl. clear Hin. induction more as [|y more IHm]; simpl; [lia|].
    pose proof (configured_weight_nonneg y label). lia.
  - apply NoDup_cons_iff in Hnd. destruct Hnd as [Hx Hnd].
    destruct (in_split x more (Hin x (or_introl eq_refl)))
      as (m1 & m2 & ->).
    assert (Hrest : forall intent, In intent fewer -> In intent (m1 ++ m2)).
    { intros i Hi. specialize (Hin i (or_intror Hi)).
      apply in_app_or in Hin. apply in_or_app.
      destruct Hin as [H | [<- | H]]; [now left | contradiction | now right]. }
    specialize (IH (m1 ++ m2) Hnd Hrest).
    rewrite map_app, zsum_app in *. simpl. lia.
Qed.

Lemma guess_intents_NoDup (question : str) : NoDup (guess_intents question).
Proof.
  rewrite guess_intents_hits.
  assert (Hnd : NoDup (hits question))
    by apply kept_intents_NoDup, intent_names_NoDup.
  destruct (hits question); [|assumption].
  repeat constructor. intros [].
Qed.

(** When a recognised intent takes the place of the default, a total can
    drop: that of the description, from 4 to 1. *)
Lemma default_purpose_gives_way :
  guess_intents "zzz" = [lit "purpose"]
  /\ guess_intents "zzz install" = [lit "install"]
  /\ combined_score (guess_intents "zzz") "project:description" 0 = 4
  /\ combined_score (guess_intents "zzz install") "project:description" 0 = 1.
Proof. repeat split; reflexivity. Qed.

(** X20. The total [main] computes for a chunk never drops when the chunk
    shares more tokens with the question, as long as the intents of the
    question stay: for base scores 0 <= base1 <= base2 and two questions
    such that every intent [guess_intents] gives for the first it also
    gives for the second, the total under the intents of the first
    question for base1 is at most the total under the intents of the
    second for base2; and under one and the same intent list, whatever it
    is, the total grows with the base score. *)
Theorem combined_score_monotone
        (question question' label : str) (base1 base2 : Z) :
  0 <= base1 <= base2 ->
  (forall intent, In intent (guess_intents question) ->
                  In intent (guess_intents question')) ->
  combined_score (guess_intents question) label base1
  <= combined_score (guess_intents question') label base2
  /\ forall intents,
       combined_score intents label base1 <= combined_score intents label base2.
Proof.
  intros [H0 H12] Hin. split.
  - pose proof (field_weight_ge_1 (guess_intents question) label) as Hw.
    assert (Hw' : field_weight (guess_intents question) label
                  <= field_weight (guess_intents question') label).
    { unfold field_weight. rewrite !fold_left_add_zsum.
      pose proof (zsum_weights_incl label _ (guess_intents question')
                    (guess_intents_NoDup question) Hin). lia. }
    unfold combined_score. rewrite !guess_intents_weighted.
    destruct (base1 >? 0) eqn:E1, (base2 >? 0) eqn:E2; nia.
  - intros intents.
    pose proof (field_weight_ge_1 intents label) as Hw.
    unfold combined_score.
    destruct (base1 >? 0) eqn:E1, (base2 >? 0) eqn:E2;
      destruct (any_intent_weighted intents); nia.
Qed.

Lemma combined_score_monotone_witness :
  combined_score (guess_intents "how to install") "install:commands" 0
  <= combined_score (guess_intents "how to install the license")
       "install:commands" 2
  /\ forall intents,
       combined_score intents "install:commands" 0
       <= combined_score intents "install:commands" 2.
Proof.
  apply (combined_score_monotone "how to install" "how to install the license"
           "install:commands" 0 2).
  - lia.
  - intros intent [<- | []]. vm_compute. now left.
Defined.

End RetrieverFacts.

(** * Properties of the README extractor beyond the numbered claims *)

Module ExtractorFacts.
Import Fetch FetchFacts StrFacts.

(** ** Texts that are whole lines *)

Lemma before_first_whole (sep s : str) :
  contains s sep = false -> before_first sep s = s.
Proof.
  induction s as [|c s IH]; intros H; [reflexivity|].
  change (contains (c :: s) sep)
    with (startswith (c :: s) sep || contains s sep)%bool in H.
  apply orb_false_iff in H. destruct H as [H1 H2].
  cbn [before_first]. rewrite H1. now rewrite IH.
Qed.

Lemma app_last_inv (a b t : str) (c : ascii) :
  b <> [] -> a ++ b = t ++ [c] -> exists t', b = t' ++ [c].
Proof.
  intros Hb E. destruct (exists_last Hb) as (b' & x & ->).
  rewrite app_assoc in E. apply app_inj_tail in E.
  destruct E as [_ ->]. now exists b'.
Qed.

Lemma join_nonempty (sep l : str) (rest : list str) :
  l <> [] -> join sep (l :: rest) <> [].
Proof.
  intros Hl. destruct rest; cbn [join]; [assumption|].
  destruct l; [contradiction | discriminate].
Qed.

(** Joining texts that are trimmed and not empty gives a trimmed text. *)
Lemma join_stripped (sep : str) (lines : list str) :
  Forall (fun l => l <> [] /\ stripped l) lines ->
  stripped (join sep lines).
Proof.
  induction 1 as [|l rest [Hl [Hh Ht]] Hrest IH].
  - split; [discriminate|]. intros t c E. now destruct t.
  - destruct rest as [|l2 rest]; [now split|].
    change (join sep (l :: l2 :: rest))
      with (l ++ sep ++ join sep (l2 :: rest)).
    split.
    + intros c t E. destruct l as [|c0 t0]; [contradiction|].
      injection E as <- _. exact (Hh c0 t0 eq_refl).
    + intros t c E. rewrite app_assoc in E.
      apply app_last_inv in E.
      * destruct E as [t' E]. exact (proj2 IH t' c E).
      * apply join_nonempty. inversion Hrest; tauto.
Qed.

(** ** Install commands *)

Lemma pip_install_stripped : PIP_INSTALL <> [] /\ stripped PIP_INSTALL.
Proof.
  split; [discriminate|]. split.
  - intros c t [= <- _]. reflexivity.
  - intros t c E. apply (f_equal (@rev ascii)) in E.
    rewrite rev_app_distr in E. vm_compute in E.
    injection E as <- _. reflexivity.
Qed.

Lemma find_install_cmds_lines (ast : SyntaxTree) (cmd : str) :
  In cmd (find_install_cmds ast) ->
  exists line, has_pip line = true /\ no_linebreak line /\ cmd = strip line.
Proof.
  unfold find_install_cmds. rewrite collected_spec, dict_fromkeys_first_seen.
  rewrite first_seen_In. unfold pip_lines. rewrite in_flat_map.
  intros (fence & _ & H). apply in_map_iff in H.
  destruct H as (line & <- & H). apply filter_In in H.
  destruct H as [Hin Hp]. exists line. split; [assumption|].
  split; [|reflexivity].
  pose proof (splitlines_no_linebreak (content fence)) as Hall.
  rewrite Forall_forall in Hall. now apply Hall.
Qed.

Lemma install_cmd_clean (ast : SyntaxTree) (cmd : str) :
  In cmd (find_install_cmds ast) ->
  contains cmd PIP_INSTALL = true
  /\ cmd <> [] /\ stripped cmd /\ no_linebreak cmd.
Proof.
  intros H. destruct (find_install_cmds_lines ast cmd H) as (line & Hp & Hl & ->).
  destruct pip_install_stripped as [Hne Hs].
  assert (Hc : contains (strip line) PIP_INSTALL = true)
    by now apply contains_strip.
  split; [assumption|]. split.
  - intros E. rewrite E in Hc. discriminate.
  - split; [apply strip_stripped | now apply no_linebreak_strip].
Qed.

(** X10. Every command [find_install_cmds] returns is a single line: it
    contains "pip install", is not empty, has no whitespace at either end
    (trimming it again changes nothing) and holds no line boundary of
    [str.splitlines]. *)
Theorem install_commands_are_single_lines (ast : SyntaxTree) :
  Forall (fun cmd =>
            contains cmd "pip install" = true
            /\ cmd <> []
            /\ strip cmd = cmd
            /\ splitlines cmd = [cmd])
         (find_install_cmds ast).
Proof.
  apply Forall_forall. intros cmd H.
  destruct (install_cmd_clean ast cmd H) as (Hc & Hne & Hs & Hl).
  split; [assumption|]. split; [assumption|].
  split; [now apply strip_fixed|].
  unfold splitlines.
  assert (G : forall s cur, no_linebreak s -> cur ++ s <> [] ->
                            splitlines_from cur s = [cur ++ s]).
  { induction s as [|c s IH]; intros cur Hs' Hne'.
    - rewrite app_nil_r in *. simpl. destruct cur; [contradiction | reflexivity].
    - inversion Hs' as [|? ? Hc' Hs'']; subst.
      cbn [splitlines_from]. rewrite Hc'.
      rewrite (IH (cur ++ [c]) Hs''); rewrite <- app_assoc; [reflexivity|].
      destruct cur; discriminate. }
  exact (G cmd [] Hl Hne).
Qed.

(** ** Bullet lists under a heading *)

(** A level-2 or level-3 heading whose trimmed, lowered text contains one of
    the keywords, lowered. *)
Definition keyword_heading (keywords : list str) (node : SyntaxNode) : Prop :=
  type node = lit "heading"
  /\ (level node = 2 \/ level node = 3)
  /\ exists kw, In kw keywords
                /\ contains (lower (strip (content node))) (lower kw) = true.

Definition keyword_headingb (keys_lower : list str) (node : SyntaxNode) : bool :=
  eqb (type node) "heading"
  && ((level node =? 2) || (level node =? 3))
  && existsb (fun kw => contains (lower (strip (content node))) kw) keys_lower.

Lemma keyword_headingb_spec (keywords : list str) (node : SyntaxNode) :
  keyword_headingb (map lower keywords) node = true
  <-> keyword_heading keywords node.
Proof.
  unfold keyword_headingb, keyword_heading.
  rewrite !andb_true_iff, orb_true_iff, !Z.eqb_eq, eqb_eq, existsb_exists.
  split.
  - intros [[Ht Hl] (k & Hk & Hc)]. apply in_map_iff in Hk.
    destruct Hk as (kw & <- & Hkw). eauto.
  - intros (Ht & Hl & kw & Hkw & Hc). repeat split; try assumption.
    exists (lower kw). split; [now apply in_map | assumption].
Qed.

Lemma bullet_list_among_spec (siblings : list SyntaxNode) :
  match bullet_list_among siblings with
  | Some items =>
      exists before bullets after,
        siblings = before ++ bullets :: after
        /\ type bullets = lit "bullet_list"
        /\ (forall n, In n before -> type n <> lit "bullet_list")
        /\ items = bullet_items bullets
  | None => forall n, In n siblings -> type n <> lit "bullet_list"
  end.
Proof.
  induction siblings as [|n rest IH]; simpl; [intros ? []|].
  destruct (eqb (type n) "bullet_list") eqn:E.
  - apply eqb_eq in E. exists [], n, rest.
    repeat split; try assumption. intros ? [].
  - assert (Hn : type n <> lit "bullet_list").
    { intros H. apply eqb_eq in H. congruence. }
    destruct (bullet_list_among rest) as [items|].
    + destruct IH as (before & bullets & after & -> & Ht & Hb & Hi).
      exists (n :: before), bullets, after.
      repeat split; try assumption.
      intros m [<- | Hm]; [assumption | now apply Hb].
    + intros m [<- | Hm]; [assumption | now apply IH].
Qed.

Lemma list_after_heading_from_spec
      (nodes : list (SyntaxNode * list SyntaxNode)) (keys_lower : list str) :
  (list_after_heading_from nodes keys_lower = []
   /\ forall p, In p nodes -> keyword_headingb keys_lower (fst p) = true ->
                bullet_list_among (snd p) = None)
  \/ (exists earlier heading next later,
         nodes = earlier ++ (heading, next) :: later
         /\ keyword_headingb keys_lower heading = true
         /\ bullet_list_among next
            = Some (list_after_heading_from nodes keys_lower)
         /\ forall p, In p earlier ->
                      keyword_headingb keys_lower (fst p) = true ->
                      bullet_list_among (snd p) = None).
Proof.
  induction nodes as [|[node next] rest IH]; cbn [list_after_heading_from].
  - left. split; [reflexivity | intros ? []].
  - assert (Hskip :
      (keyword_headingb keys_lower node = true ->
       bullet_list_among next = None) ->
      (list_after_heading_from rest keys_lower = []
       /\ forall p, In p ((node, next) :: rest) ->
                    keyword_headingb keys_lower (fst p) = true ->
                    bullet_list_among (snd p) = None)
      \/ (exists earlier heading next' later,
             (node, next) :: rest = earlier ++ (heading, next') :: later
             /\ keyword_headingb keys_lower heading = true
             /\ bullet_list_among next'
                = Some (list_after_heading_from rest keys_lower)
             /\ forall p, In p earlier ->
                          keyword_headingb keys_lower (fst p) = true ->
                          bullet_list_among (snd p) = None)).
    { intros Hno.
      destruct IH as [[E Hall] | (earlier & heading & next' & later
                                  & -> & Hk & Hb & Hall)].
      - left. split; [assumption|].
        intros p [<- | Hp]; [exact Hno | now apply Hall].
      - right. exists ((node, next) :: earlier), heading, next', later.
        repeat split; try assumption.
        intros p [<- | Hp]; [exact Hno | now apply Hall]. }
    unfold keyword_headingb in *.
    destruct (eqb (type node) "heading"
              && ((level node =? 2) || (level node =? 3))) eqn:Hh;
      cbn [andb] in *; [|apply Hskip; discriminate].
    destruct (existsb _ keys_lower) eqn:Hk; [|apply Hskip; discriminate].
    destruct (bullet_list_among next) as [items|] eqn:Hb;
      [|now apply Hskip].
    right. exists [], node, next, rest.
    repeat split; try assumption.
    + now rewrite Hh.
    + intros ? [].
Qed.

Lemma bullet_items_nonempty (bullets : SyntaxNode) (item : str) :
  In item (bullet_items bullets) -> item <> [].
Proof.
  unfold bullet_items. intros H. apply filter_In in H.
  destruct H as [_ H]. now destruct item.
Qed.

(** X11. [list_after_heading] returns the items of one bullet list: the
    first bullet list among the later siblings of the first heading, in
    walk order, that has level 2 or 3, contains one of the keywords
    (case-insensitively, as a substring of its trimmed text) and has a
    bullet list among its later siblings. Nodes of other types may stand
    between the heading and the list. The items are the texts of the list's
    children that are not empty. When no heading qualifies, the result is
    the empty list. Writing the keywords in another case changes
    nothing. *)
Theorem list_after_heading_finds_first_list
        (ast : SyntaxTree) (keywords : list str) :
  let nodes := walk_next_all (root_children ast) in
  ((list_after_heading ast keywords = []
    /\ forall heading next,
         In (heading, next) nodes -> keyword_heading keywords heading ->
         forall n, In n next -> type n <> lit "bullet_list")
   \/ (exists earlier heading next later before bullets after,
          nodes = earlier ++ (heading, next) :: later
          /\ keyword_heading keywords heading
          /\ next = before ++ bullets :: after
          /\ type bullets = lit "bullet_list"
          /\ (forall n, In n before -> type n <> lit "bullet_list")
          /\ list_after_heading ast keywords = bullet_items bullets
          /\ forall heading' next',
               In (heading', next') earlier ->
               keyword_heading keywords heading' ->
               forall n, In n next' -> type n <> lit "bullet_list"))
  /\ (forall item, In item (list_after_heading ast keywords) -> item <> [])
  /\ list_after_heading ast (map lower keywords)
     = list_after_heading ast keywords.
Proof.
  intros nodes.
  assert (Hnone : forall next,
             bullet_list_among next = None ->
             forall n, In n next -> type n <> lit "bullet_list").
  { intros next E. pose proof (bullet_list_among_spec next) as H.
    now rewrite E in H. }
  assert (Hmain :
    (list_after_heading ast keywords = []
     /\ forall heading next,
          In (heading, next) nodes -> keyword_heading keywords heading ->
          forall n, In n next -> type n <> lit "bullet_list")
    \/ (exists earlier heading next later before bullets after,
           nodes = earlier ++ (heading, next) :: later
           /\ keyword_heading keywords heading
           /\ next = before ++ bullets :: after
           /\ type bullets = lit "bullet_list"
           /\ (forall n, In n before -> type n <> lit "bullet_list")
           /\ list_after_heading ast keywords = bullet_items bullets
           /\ forall heading' next',
                In (heading', next') earlier ->
                keyword_heading keywords heading' ->
                forall n, In n next' -> type n <> lit "bullet_list")).
  { unfold list_after_heading. fold nodes.
    destruct (list_after_heading_from_spec nodes (map lower keywords))
      as [[E Hall] | (earlier & heading & next & later & E & Hk & Hb & Hall)].
    - left. split; [assumption|].
      intros heading next Hin Hk. apply Hnone.
      apply (Hall (heading, next) Hin). now apply keyword_headingb_spec.
    - right. pose proof (bullet_list_among_spec next) as H.
      rewrite Hb in H.
      destruct H as (before & bullets & after & En & Ht & Hbefore & Hi).
      exists earlier, heading, next, later, before, bullets, after.
      split; [assumption|].
      split; [now apply keyword_headingb_spec|].
      do 4 (split; [assumption|]).
      intros heading' next' Hin Hk'. apply Hnone.
      apply (Hall (heading', next') Hin). now apply keyword_headingb_spec. }
  split; [exact Hmain|]. split.
  - intros item Hin.
    destruct Hmain as [[E _] | (_ & _ & _ & _ & _ & bullets & _
                                & _ & _ & _ & _ & _ & E & _)];
      rewrite E in Hin; [destruct Hin|].
    now apply (bullet_items_nonempty bullets).
  - unfold list_after_heading. rewrite map_map.
    f_equal. apply map_ext. intros kw. apply lower_idempotent.
Qed.

(** The walk that pairs each node with its later siblings. *)
Inductive sibling_lists (cs : list SyntaxNode) : list SyntaxNode -> Prop :=
| siblings_top : sibling_lists cs cs
| siblings_of (parent : SyntaxNode) :
    In parent (flat_map walk cs) -> sibling_lists cs (children parent).

Lemma walk_next_fst (n : SyntaxNode) :
  forall next, map fst (walk_next n next) = walk n.
Proof.
  induction n as [t l c cs IH] using
    (fix ind (P : SyntaxNode -> Prop)
         (step : forall t l c cs, Forall P cs -> P (Node t l c cs))
         (n : SyntaxNode) {struct n} : P n :=
       match n with
       | Node t l c cs =>
           step t l c cs
                ((fix all (cs : list SyntaxNode) : Forall P cs :=
                    match cs with
                    | [] => Forall_nil P
                    | c0 :: cs' => Forall_cons c0 (ind P step c0) (all cs')
                    end) cs)
       end).
  intros next. cbn [walk_next walk map fst]. f_equal.
  induction IH as [|c0 cs' H0 _ IHcs]; [reflexivity|].
  cbn [flat_map]. rewrite map_app, H0. now rewrite IHcs.
Qed.

Lemma walk_next_unfold (t : str) (l : Z) (c : str) (cs next : list SyntaxNode) :
  walk_next (Node t l c cs) next = (Node t l c cs, next) :: walk_next_all cs.
Proof.
  reflexivity.
Qed.

(** The node is the one the pair was made for, or a descendant listed with
    the later children of its parent. *)
Definition paired_in (n : SyntaxNode) (next : list SyntaxNode)
           (p : SyntaxNode * list SyntaxNode) : Prop :=
  p = (n, next)
  \/ exists parent before,
       In parent (walk n) /\ children parent = before ++ fst p :: snd p.

Lemma walk_next_all_pairs (cs : list SyntaxNode) :
  Forall (fun c => forall next p, In p (walk_next c next) -> paired_in c next p)
         cs ->
  forall p, In p (walk_next_all cs) ->
    (exists before, cs = before ++ fst p :: snd p)
    \/ (exists parent before,
           In parent (flat_map walk cs)
           /\ children parent = before ++ fst p :: snd p).
Proof.
  induction 1 as [|c cs' Hc _ IH]; cbn [walk_next_all]; [intros ? []|].
  intros p Hin. apply in_app_or in Hin. destruct Hin as [Hin | Hin].
  - destruct (Hc cs' p Hin) as [-> | (parent & before & Hp & E)].
    + left. now exists [].
    + right. exists parent, before. split; [|assumption].
      cbn [flat_map]. apply in_or_app. now left.
  - destruct (IH p Hin) as [[before E] | (parent & before & Hp & E)].
    + left. exists (c :: before). now rewrite E at 1.
    + right. exists parent, before. split; [|assumption].
      cbn [flat_map]. apply in_or_app. now right.
Qed.

Lemma walk_next_pairs (n : SyntaxNode) :
  forall next p, In p (walk_next n next) -> paired_in n next p.
Proof.
  induction n as [t l c cs IH] using
    (fix ind (P : SyntaxNode -> Prop)
         (step : forall t l c cs, Forall P cs -> P (Node t l c cs))
         (n : SyntaxNode) {struct n} : P n :=
       match n with
       | Node t l c cs =>
           step t l c cs
                ((fix all (cs : list SyntaxNode) : Forall P cs :=
                    match cs with
                    | [] => Forall_nil P
                    | c0 :: cs' => Forall_cons c0 (ind P step c0) (all cs')
                    end) cs)
       end).
  intros next p. rewrite walk_next_unfold. intros [<- | Hin]; [now left|].
  right.
  destruct (walk_next_all_pairs cs IH p Hin)
    as [[before E] | (parent & before & Hp & E)].
  - exists (Node t l c cs), before. split; [now left | exact E].
  - exists parent, before. split; [now right | exact E].
Qed.

(** X12. The pairs [list_after_heading] goes through are the nodes of
    [ast.walk()], the root apart, in walk order, each with
    [node.parent.children[idx+1:]]: the list paired with a node is what
    follows the node among the children of its parent (the root for a
    top-level node). *)
Theorem walk_next_all_later_siblings (ast : SyntaxTree) :
  map fst (walk_next_all (root_children ast)) = walk_tree ast
  /\ forall node next,
       In (node, next) (walk_next_all (root_children ast)) ->
       exists siblings before,
         sibling_lists (root_children ast) siblings
         /\ siblings = before ++ node :: next.
Proof.
  unfold walk_tree. generalize (root_children ast) as cs. intros cs. split.
  - induction cs as [|c cs' IH]; [reflexivity|].
    cbn [walk_next_all flat_map]. rewrite map_app, walk_next_fst.
    now rewrite IH.
  - intros node next Hin.
    assert (Hall : Forall (fun c => forall next p,
                             In p (walk_next c next) -> paired_in c next p) cs).
    { apply Forall_forall. intros c _. apply walk_next_pairs. }
    destruct (walk_next_all_pairs cs Hall _ Hin)
      as [[before E] | (parent & before & Hp & E)]; cbn [fst snd] in E.
    + exists cs, before. split; [constructor | exact E].
    + exists (children parent), before. split; [now constructor | exact E].
Qed.

(** ** List items *)

Lemma list_items_nth (names : list str) :
  forall (i : Z) (k : nat) (name : str),
    nth_error names k = Some name ->
    nth_error (list_items i names) k
    = Some (JObj [ (lit "@type", JStr "ListItem");
                   (lit "position", JNum (i + Z.of_nat k + 1));
                   (lit "name", JStr name) ]).
Proof.
  induction names as [|f rest IH]; intros i k name.
  - destruct k; discriminate.
  - destruct k as [|k]; cbn [nth_error list_items].
    + intros [= ->]. now rewrite Z.add_0_r.
    + intros H. rewrite (IH (i + 1) k name H).
      replace (i + 1 + Z.of_nat k + 1) with (i + Z.of_nat (S k) + 1) by lia.
      reflexivity.
Qed.

(** X13. The items [build_jsonld] writes for a list of names are as many
    as the names, in the same order, each with its position counted from 1;
    and the names [query.py] reads from these items are the names
    themselves. *)
Theorem list_items_numbered (names : list str) :
  List.length (list_items 0 names) = List.length names
  /\ (forall k name,
         nth_error names k = Some name ->
         nth_error (list_items 0 names) k
         = Some (JObj [ (lit "@type", JStr "ListItem");
                        (lit "position", JNum (Z.of_nat k + 1));
                        (lit "name", JStr name) ]))
  /\ Query.item_names (list_items 0 names) = map JStr names.
Proof.
  split; [|split].
  - generalize 0. induction names as [|f rest IH]; intros i;
      [reflexivity|]. cbn [list_items List.length]. now rewrite IH.
  - intros k name H. now rewrite (list_items_nth names 0 k name H).
  - generalize 0. induction names as [|f rest IH]; intros i;
      [reflexivity|]. cbn [list_items Query.item_names map].
    now rewrite IH.
Qed.

(** ** Trees that come from the parser *)

Lemma walk_next_all_nodes (cs : list SyntaxNode) :
  map fst (walk_next_all cs) = flat_map walk cs.
Proof.
  induction cs as [|c cs' IH]; [reflexivity|].
  cbn [walk_next_all flat_map]. rewrite map_app, walk_next_fst.
  now rewrite IH.
Qed.

Lemma no_keyword_in_empty (keys : list str) :
  Forall (fun kw => kw <> []) keys ->
  existsb (fun kw => contains [] kw) keys = false.
Proof.
  induction 1 as [|kw keys Hkw _ IH]; [reflexivity|].
  cbn [existsb]. rewrite IH. destruct kw; [contradiction | reflexivity].
Qed.

(** Headings without content of their own match no non-empty keyword. *)
Lemma list_after_bare_headings
      (nodes : list (SyntaxNode * list SyntaxNode)) (keys_lower : list str) :
  (forall p, In p nodes -> type (fst p) = lit "heading" ->
             content (fst p) = []) ->
  Forall (fun kw => kw <> []) keys_lower ->
  list_after_heading_from nodes keys_lower = [].
Proof.
  intros Hbare Hkeys.
  induction nodes as [|[node next] rest IH]; cbn [list_after_heading_from];
    [reflexivity|].
  assert (Hrest : list_after_heading_from rest keys_lower = []).
  { apply IH. intros p Hp. apply Hbare. now right. }
  destruct (eqb (type node) "heading"
            && ((level node =? 2) || (level node =? 3))) eqn:Hh;
    [|exact Hrest].
  apply andb_true_iff in Hh. destruct Hh as [Ht _]. apply eqb_eq in Ht.
  pose proof (Hbare (node, next) (or_introl eq_refl) Ht) as Hc.
  cbn [fst] in Hc. rewrite Hc.
  change (lower (strip [])) with (@nil ascii).
  now rewrite (no_keyword_in_empty keys_lower Hkeys).
Qed.

Lemma parsed_headings_bare (ast : SyntaxTree) :
  Markdown.parsed ast = true ->
  forall p, In p (walk_next_all (root_children ast)) ->
            type (fst p) = lit "heading" -> content (fst p) = [].
Proof.
  unfold Markdown.parsed. intros H p Hp Ht.
  apply andb_true_iff in H. destruct H as [_ H].
  rewrite forallb_forall in H.
  assert (Hw : In (fst p) (walk_tree ast)).
  { unfold walk_tree. rewrite <- walk_next_all_nodes. now apply in_map. }
  specialize (H _ Hw). unfold Markdown.bare in H. rewrite Ht in H.
  change (existsb (eqb (lit "heading")) Markdown.PAIRED) with true in H.
  cbv iota in H. now destruct (content (fst p)).
Qed.

Lemma list_after_heading_parsed (ast : SyntaxTree) (keywords : list str) :
  Markdown.parsed ast = true ->
  Forall (fun kw => kw <> []) keywords ->
  list_after_heading ast keywords = [].
Proof.
  intros Hp Hk. unfold list_after_heading.
  apply list_after_bare_headings; [now apply parsed_headings_bare|].
  apply Forall_forall. intros kw Hin. apply in_map_iff in Hin.
  destruct Hin as (k & <- & Hin). rewrite Forall_forall in Hk.
  specialize (Hk k Hin). now destruct k.
Qed.

End ExtractorFacts.

(** * From the built document to the answer *)

Module PipelineFacts.
Import Fetch Query Json Cli QueryFacts FetchFacts JsonFacts CliFacts.
Import StrFacts RetrieverFacts ExtractorFacts.

(** X15. The registry of [query.py] reads back what [build_jsonld] wrote,
    for every metadata record and tree: the name, the resolved description,
    the install commands joined by line feeds, the feature and platform
    items joined by line feeds, no example at all, the SPDX URL of the
    license or the empty text, and the topics joined by ", ". The chunks
    gathered are those of these values that are not empty, in registry
    order; each is a non-empty text, and "examples:code" is never among
    them. *)
Theorem registry_reads_built_document
        (meta : metadata) (ast : SyntaxTree) (now : str) :
  let doc := build_jsonld meta ast now in
  let values :=
    [ JStr (name meta);
      resolved_description meta ast;
      JStr (join newline (find_install_cmds ast));
      JStr (join newline
              (list_after_heading ast [lit "feature"; lit "key feature"]));
      JStr (join newline
              (list_after_heading ast
                 [lit "supported platform"; lit "compatibility"]));
      JStr [];
      JStr (match license meta with
            | Some spdx_id =>
                lit "https://spdx.org/licenses/" ++ spdx_id ++ lit ".html"
            | None => []
            end);
      JStr (join ", " (topics meta)) ] in
  let chunks :=
    filter (fun chunk => truthy (snd chunk)) (combine (map fst FIELDS) values) in
  Forall2 (fun field v => snd field doc = Ok v) FIELDS values
  /\ gather FIELDS doc = Ok chunks
  /\ forall label content,
       In (label, content) chunks ->
       label <> lit "examples:code"
       /\ exists text, content = JStr text /\ text <> [].
Proof.
  intros doc values chunks.
  split; [apply fields_built|]. split; [apply gather_built|].
  intros label content Hin.
  destruct (built_chunks_texts meta ast label content Hin) as [text ->].
  apply filter_In in Hin. destruct Hin as [Hin Ht]. cbn [snd] in Ht.
  split.
  - unfold values, FIELDS in Hin. cbn [map fst combine In] in Hin.
    repeat (destruct Hin as [[= <- E] | Hin]); try contradiction;
      try discriminate.
    rewrite <- E in Ht. discriminate.
  - exists text. split; [reflexivity|]. intros ->. discriminate.
Qed.

(** X16. The finders of [query.py] locate the nodes [build_jsonld] made:
    [install_node] returns the HowTo node, whose "tool" is the list of
    install commands, [itemlist_by_name] returns for "feature" the list of
    features and for "platform" the list of platforms, each with its items;
    each returns the empty dict exactly when the extractor found nothing
    of the kind, and reading the members with the defaults of the registry
    then gives the empty list. [example_nodes] finds nothing in a built
    document. *)
Theorem finders_locate_built_parts
        (meta : metadata) (ast : SyntaxTree) (now : str) :
  let doc := build_jsonld meta ast now in
  let cmds := find_install_cmds ast in
  let features := list_after_heading ast [lit "feature"; lit "key feature"] in
  let platforms :=
    list_after_heading ast [lit "supported platform"; lit "compatibility"] in
  (exists n, install_node doc = Ok n
             /\ py_get n "tool" (JArr []) = Ok (strings cmds)
             /\ (n = JObj [] <-> cmds = []))
  /\ (exists n, itemlist_by_name doc "feature" = Ok n
                /\ py_get n "itemListElement" (JArr [])
                   = Ok (JArr (list_items 0 features))
                /\ (n = JObj [] <-> features = []))
  /\ (exists n, itemlist_by_name doc "platform" = Ok n
                /\ py_get n "itemListElement" (JArr [])
                   = Ok (JArr (list_items 0 platforms))
                /\ (n = JObj [] <-> platforms = []))
  /\ example_nodes doc = Ok [].
Proof.
  intros doc cmds features platforms. subst doc cmds features platforms.
  destruct (itemlist_by_name_built meta ast now) as [Hf Hp].
  split; [|split; [|split]].
  - rewrite install_node_built.
    destruct (find_install_cmds ast) as [|c cs]; eexists;
      (split; [reflexivity|]); (split; [reflexivity|]);
      split; try reflexivity; discriminate.
  - rewrite Hf.
    destruct (list_after_heading ast [lit "feature"; lit "key feature"]);
      eexists; (split; [reflexivity|]); (split; [reflexivity|]);
      split; try reflexivity; discriminate.
  - rewrite Hp.
    destruct (list_after_heading ast
                [lit "supported platform"; lit "compatibility"]);
      eexists; (split; [reflexivity|]); (split; [reflexivity|]);
      split; try reflexivity; discriminate.
  - apply example_nodes_built.
Qed.

(** *** The install answer *)

Lemma install_text_whole (ast : SyntaxTree) :
  let text := join newline (find_install_cmds ast) in
  contains text (newline ++ newline) = false /\ stripped text.
Proof.
  intros text. subst text. split.
  - apply (join_lines_no_blank (find_install_cmds ast)).
    apply Forall_forall. intros cmd H.
    destruct (install_cmd_clean ast cmd H) as (_ & Hne & _ & Hl). now split.
  - apply join_stripped. apply Forall_forall. intros cmd H.
    destruct (install_cmd_clean ast cmd H) as (_ & Hne & Hs & _). now split.
Qed.

Lemma built_install_chunk (meta : metadata) (ast : SyntaxTree)
      (label : str) (content : json) :
  In (label, content) (built_chunks meta ast) ->
  label = lit "install:commands" ->
  content = JStr (join newline (find_install_cmds ast)).
Proof.
  intros Hin. apply filter_In in Hin. destruct Hin as [Hin _].
  unfold built_fields, FIELDS in Hin. cbn [map fst combine In] in Hin.
  repeat (destruct Hin as [[= <- <-] | Hin]); try contradiction;
    intros E; try discriminate E; reflexivity.
Qed.

(** X17. Whenever a question about a built document is answered from the
    install commands, the answer shows every command [find_install_cmds]
    found, one per line: cutting at the first blank line and trimming
    remove nothing, in [main] and in [format_answer]. *)
Theorem install_answer_lists_every_command
        (meta : metadata) (ast : SyntaxTree) (now question body : str) :
  retrieve question (build_jsonld meta ast now)
  = Answer "install:commands" body ->
  body = join newline (find_install_cmds ast)
  /\ answer_body body = body.
Proof.
  intros H.
  destruct (retrieve_answer_inv _ _ _ _ H) as (chunks & content & G & Hin & ->).
  rewrite gather_built in G. injection G as <-.
  apply (built_install_chunk meta ast _ _) in Hin; [|reflexivity].
  injection Hin as ->.
  destruct (install_text_whole ast) as [Hb Hs].
  assert (E : shown "install:commands" (join newline (find_install_cmds ast))
              = join newline (find_install_cmds ast)).
  { unfold shown.
    change (existsb (eqb (lit "install:commands")) LIST_LIKE) with true.
    cbv iota. rewrite (before_first_whole _ _ Hb). now apply strip_fixed. }
  rewrite E. split; [reflexivity|]. unfold answer_body. now apply strip_fixed.
Qed.

Definition tool_meta : metadata :=
  Metadata "https://github.com/acme/tool" "tool" None None [] None.

Definition tool_readme : SyntaxTree :=
  Root [ Node "heading" 1 "tool" [];
         Node "fence" 0
              (lit "  pip install tool" ++ newline ++ lit "# optional"
               ++ newline ++ lit "pip install tool[extra]" ++ newline) [] ].

Lemma install_answer_lists_every_command_witness :
  lit "pip install tool" ++ newline ++ lit "pip install tool[extra]"
  = join newline (find_install_cmds tool_readme)
  /\ answer_body (lit "pip install tool" ++ newline
                  ++ lit "pip install tool[extra]")
     = lit "pip install tool" ++ newline ++ lit "pip install tool[extra]".
Proof.
  exact (install_answer_lists_every_command
           tool_meta tool_readme "2024-01-01T00:00:00+00:00"
           "how do I install it"
           (lit "pip install tool" ++ newline ++ lit "pip install tool[extra]")
           eq_refl).
Defined.

(** *** The two programs in a row *)


(** *** Item lists and the parser's trees *)

(** X14. On every tree [parse_md] returns, [list_after_heading] finds no
    list for keywords that are not empty, whatever the README says: the
    function looks for the keywords in [node.content] of a heading node,
    which is empty, the heading's text being in its inline child. So
    [build_jsonld] adds neither the features nor the platforms list, the
    only auxiliary node is the HowTo (when there are install commands),
    and the registry fields features:list and platforms:list of the built
    document are the empty text. For the README "# Foo", "A tiny tool.",
    "## Features", "- Fast", "- Small" no feature is found. *)
Theorem parsed_readme_yields_no_lists (ast : SyntaxTree) :
  Markdown.parsed ast = true ->
  (forall keywords,
      Forall (fun kw => kw <> []) keywords ->
      list_after_heading ast keywords = [])
  /\ forall meta now,
       parts meta ast = when_nonempty (find_install_cmds ast) (howto_part meta)
       /\ itemlist_text (build_jsonld meta ast now) "feature" = Ok (JStr [])
       /\ itemlist_text (build_jsonld meta ast now) "platform" = Ok (JStr []).
Proof.
  intros Hp.
  assert (Hnone : forall keywords,
             Forall (fun kw => kw <> []) keywords ->
             list_after_heading ast keywords = [])
    by (intros keywords; now apply list_after_heading_parsed).
  split; [exact Hnone|]. intros meta now.
  assert (Hf : list_after_heading ast [lit "feature"; lit "key feature"] = [])
    by (apply Hnone; repeat constructor; discriminate).
  assert (Hs : list_after_heading ast
                 [lit "supported platform"; lit "compatibility"] = [])
    by (apply Hnone; repeat constructor; discriminate).
  destruct (itemlist_by_name_built meta ast now) as [Bf Bs].
  rewrite Hf in Bf. rewrite Hs in Bs.
  split; [|split].
  - unfold parts. rewrite Hf, Hs. cbn [when_nonempty]. now rewrite app_nil_r.
  - exact (itemlist_text_of _ _ "feature" [] Bf eq_refl).
  - exact (itemlist_text_of _ _ "platform" [] Bs eq_refl).
Qed.

Lemma parsed_readme_yields_no_lists_witness :
  list_after_heading Markdown.tiny_tool_readme
                     [lit "feature"; lit "key feature"] = [].
Proof.
  apply (proj1 (parsed_readme_yields_no_lists Markdown.tiny_tool_readme
                  eq_refl)).
  repeat constructor; discriminate.
Defined.

End PipelineFacts.

(** * The requests fetch.py makes *)

Module GithubFacts.
Import Github StrFacts.

Lemma after_first_split (sep s rest : str) :
  after_first sep s = Some rest ->
  s = before_first sep s ++ sep ++ rest.
Proof.
  induction s as [|c s IH]; [discriminate|].
  cbn [after_first before_first].
  destruct (startswith (c :: s) sep) eqn:S.
  - intros [= <-]. apply startswith_iff in S. destruct S as [b ->].
    rewrite skipn_app, skipn_all, Nat.sub_diag. reflexivity.
  - intros H. cbn [app]. f_equal. now apply IH.
Qed.

Lemma after_first_none (sep s : str) :
  sep <> [] ->
  (after_first sep s = None <-> contains s sep = false).
Proof.
  intros Hne. induction s as [|c s IH].
  - destruct sep; [contradiction|]. split; reflexivity.
  - change (contains (c :: s) sep)
      with (startswith (c :: s) sep || contains s sep)%bool.
    cbn [after_first]. destruct (startswith (c :: s) sep); [|exact IH].
    split; discriminate.
Qed.

(** X19. [main] of fetch.py splits its repository argument at the first
    "/" only. An argument without "/" ends the run in the unpacking,
    before any request. Otherwise two requests are prepared: the owner is
    the text before the first "/" and holds no "/", and owner and
    repository are put together again, so the first URL is the API base
    followed by the argument as it was given, further slashes included,
    and the second is the first followed by "/readme". Both carry the same
    headers: the Accept header always, and the Authorization header
    "token <token>" exactly when a non-empty token was given. *)
Theorem main_requests_spec (repo_arg : str) (token : option str) :
  (contains repo_arg "/" = false -> main_requests repo_arg token = None)
  /\ (contains repo_arg "/" = true ->
      exists owner repo info readme,
        repo_arg = owner ++ lit "/" ++ repo
        /\ contains owner "/" = false
        /\ main_requests repo_arg token = Some [info; readme]
        /\ info = get_repo_info owner repo token
        /\ readme = get_readme owner repo token
        /\ url info = lit "https://api.github.com/repos/" ++ repo_arg
        /\ url readme = url info ++ lit "/readme"
        /\ headers readme = headers info
        /\ lookup (lit "Accept") (headers info)
           = Some (lit "application/vnd.github+json")
        /\ lookup (lit "Authorization") (headers info)
           = match token with
             | Some (c :: t) => Some (lit "token " ++ c :: t)
             | _ => None
             end).
Proof.
  assert (Hsep : lit "/" <> []) by discriminate.
  unfold main_requests, split_once. split.
  - intros H. apply (after_first_none _ _ Hsep) in H. now rewrite H.
  - intros H. destruct (after_first "/" repo_arg) as [rest|] eqn:E.
    + pose proof (after_first_split _ _ _ E) as Hs.
      pose proof (before_first_no_sep (lit "/") repo_arg Hsep) as Ho.
      remember (before_first "/" repo_arg) as owner eqn:Eo. clear Eo.
      exists owner, rest, (get_repo_info owner rest token),
             (get_readme owner rest token).
      do 5 (split; [first [assumption | reflexivity]|]).
      split; [|split; [|split; [|split]]].
      * unfold get_repo_info, github_get, API_REPOS. cbn [url].
        now rewrite Hs.
      * unfold get_readme, get_repo_info, github_get, API_REPOS. cbn [url].
        now rewrite <- !app_assoc.
      * reflexivity.
      * destruct token as [[|c t]|]; reflexivity.
      * destruct token as [[|c t]|]; reflexivity.
    + apply (after_first_none _ _ Hsep) in E. congruence.
Qed.

End GithubFacts.
